(** * Illumination program engine of the multi-contrast laser endoscope

    A shallow embedding of [LightController.cpp] / [LightController.h]
    (acquisition/desktop) and of the record types of [ThreadedSerial.h],
    with the unit conversion of [RotationMount::SetPosition], the time
    stamp of [Logger::CurrentExecutionTime] and the video rollover of
    [MatroxCaptureCard::ArchiveFrame].

    - [float] values are IEEE-754 binary32 numbers, modelled with the
      specification floats of the standard library instantiated at
      precision 24 and maximal exponent 128; every arithmetic operation is
      the correctly rounded (nearest-even) one.
    - [unsigned int] members are integers in [Z] with the wrap-around modulo
      2^32 written out.
    - the three [moodycamel::ConcurrentQueue<float>] members are FIFO lists
      (the frame-driver thread is their only producer and consumer).
    - the collaborators (serial link, rotation mount, logger) are observed
      through the lists of records they have been handed.
    - reading a [std::vector] past its end and taking a remainder by zero
      are undefined in C++: the embedding stops with [None] there. *)

From Stdlib Require Import ZArith List Bool Lia Sorted.
From Stdlib Require Import Floats.SpecFloat.
From Stdlib Require Strings.String Strings.Ascii.
Import ListNotations.
Open Scope Z_scope.

(** ** binary32 arithmetic *)

Module F32.

Definition prec : Z := 24.
Definition emax : Z := 128.

Definition float := spec_float.

Definition zero : float := S754_zero false.

Definition add : float -> float -> float := SFadd prec emax.
Definition sub : float -> float -> float := SFsub prec emax.
Definition mul : float -> float -> float := SFmul prec emax.
Definition div : float -> float -> float := SFdiv prec emax.

(** [x < y] and [x > y] of C++: false as soon as one side is a NaN. *)
Definition ltb (x y : float) : bool := SFltb x y.
Definition gtb (x y : float) : bool := SFltb y x.
Definition leb (x y : float) : bool := SFleb x y.

(** The values a [float] variable can hold. *)
Definition valid (x : float) : bool := valid_binary prec emax x.

(** Conversion of an integer to [float] ([(float)n], integer literals). *)
Definition of_Z (n : Z) : float := binary_normalize prec emax n 0 false.

(** A decimal literal with suffix [f], written [num/den] with both parts
    exact in binary32: the correctly rounded quotient is the nearest
    binary32 number. *)
Definition lit (num den : Z) : float := div (of_Z num) (of_Z den).

(** A decimal literal without suffix is a [double]; stored in a
    [constexpr float] it is rounded a second time. *)
Definition of_double (x : spec_float) : float :=
  match x with
  | S754_finite s m e => binary_round prec emax s m e
  | _ => x
  end.

Definition lit_double (num den : Z) : float :=
  of_double (SFdiv 53 1024 (binary_normalize 53 1024 num 0 false)
                           (binary_normalize 53 1024 den 0 false)).

(** Integer part of a float, rounded toward zero / toward plus infinity;
    [None] for infinities and NaN. *)
Definition trunc (x : float) : option Z :=
  match x with
  | S754_zero _ => Some 0
  | S754_finite s m e =>
      Some (cond_Zopp s (match e with
                         | Zneg k => Z.shiftr (Zpos m) (Zpos k)
                         | _ => Z.shiftl (Zpos m) e
                         end))
  | _ => None
  end.

Definition ceil (x : float) : option Z :=
  match x with
  | S754_zero _ => Some 0
  | S754_finite s m e =>
      Some (match e with
            | Zneg k => - ((cond_Zopp (negb s) (Zpos m)) / 2 ^ (Zpos k))
            | _ => cond_Zopp s (Z.shiftl (Zpos m) e)
            end)
  | _ => None
  end.

(** Round half away from zero, the [round] of <math.h>. *)
Definition round (x : float) : option Z :=
  match x with
  | S754_zero _ => Some 0
  | S754_finite s m e =>
      Some (cond_Zopp s (match e with
                         | Zneg k => (2 * Zpos m + 2 ^ (Zpos k)) / (2 * 2 ^ (Zpos k))
                         | _ => Z.shiftl (Zpos m) e
                         end))
  | _ => None
  end.

(** Conversion to a 32-bit [int] as the x86 conversion instruction
    performs it: truncation, and the "integer indefinite" value for a NaN
    or a value that does not fit (C++ leaves those cases undefined). *)
Definition int_of_Z_opt (z : option Z) : Z :=
  match z with
  | Some n => if (- 2 ^ 31 <=? n) && (n <? 2 ^ 31) then n else - 2 ^ 31
  | None => - 2 ^ 31
  end.

Definition to_int (x : float) : Z := int_of_Z_opt (trunc x).

(** [(unsigned short)x]: the low 16 bits of the 32-bit conversion. *)
Definition to_ushort (x : float) : Z := to_int x mod 2 ^ 16.

End F32.

(** ** Types.h, ThreadedSerial.h *)

Inductive IMG_CHNL := RED | GREEN | BLUE | MONO.

Inductive MODE := OFF | WLE | PSE | LSCI | MULTI | SSFDI | WARMUP | SYNC.

Definition MODE_eqb (a b : MODE) : bool :=
  match a, b with
  | OFF, OFF | WLE, WLE | PSE, PSE | LSCI, LSCI | MULTI, MULTI
  | SSFDI, SSFDI | WARMUP, WARMUP | SYNC, SYNC => true
  | _, _ => false
  end.

(** [std::to_string(mode)]: the enumerator's value. *)
Definition MODE_value (m : MODE) : Z :=
  match m with
  | OFF => 0 | WLE => 1 | PSE => 2 | LSCI => 3
  | MULTI => 4 | SSFDI => 5 | WARMUP => 6 | SYNC => 7
  end.

(** [output_entry]: [int fid; unsigned short pws[2*NO_O_DIODES]]. *)
Record output_entry := { fid : Z; pws : list Z }.

(** [input_entry]: [int fid; unsigned short pdvs[2*NO_I_DIODES]]. *)
Record input_entry := { in_fid : Z; pdvs : list Z }.

(** The three per-channel means of one image field, in b, g, r order
    (the [float*] arguments of [IncrementPrgrm] point to [float[3]]). *)
Record bgr := { chn0 : F32.float; chn1 : F32.float; chn2 : F32.float }.

(** ** LightController.h: constants *)

(** [typedef std::vector<std::pair<std::vector<float>, IMG_CHNL>> prgrm] *)
Definition prgrm := list (list F32.float * IMG_CHNL).

Definition NO_LASER_DIODES : nat := 15.
Definition NO_PHOTO_DIODES : nat := 3.
Definition ROT_ANG_MAX : Z := 310.
Definition ROT_ANG_MIN : Z := 265.
Definition FID_RESET : Z := -1.
Definition FID_ERROR : Z := -2.
Definition MAX_IMG_INTENSITY : Z := 255.
Definition TARGET_IMG_INTENSITY : Z := 128.
Definition PW_MAX : F32.float := F32.of_Z 14000.
Definition PW_LSCI : F32.float := F32.of_Z 7000.
Definition PWR_START : F32.float := F32.lit_double 2 10.
Definition PWR_MAX : F32.float := F32.lit_double 10 10.
Definition PWR_MIN : F32.float := F32.lit_double 1 100.

(** ** LightController.cpp: light program definitions *)

(** The literals [0.f], [0.7f], [0.85f], [1.f] of the tables. *)
Definition w0 : F32.float := F32.zero.
Definition w07 : F32.float := F32.lit 7 10.
Definition w085 : F32.float := F32.lit 85 100.
Definition w1 : F32.float := F32.of_Z 1.

Definition wle_prgrm : prgrm :=
  [([w1;w085;w085;w1;w085;w085;w1;w085;w085;w0;w0;w0;w0;w0;w0], MONO)].

Definition pse_prgrm : prgrm :=
  [([w085;w085;w085;w0;w0;w0;w0;w0;w0;w0;w0;w0;w0;w0;w0], MONO);
   ([w0;w0;w0;w085;w085;w085;w0;w0;w0;w0;w0;w0;w0;w0;w0], MONO);
   ([w0;w0;w0;w0;w0;w0;w085;w085;w085;w0;w0;w0;w0;w0;w0], MONO)].

Definition lsci_prgrm : prgrm :=
  [([w1;w085;w085;w1;w085;w085;w1;w085;w085;w0;w0;w0;w0;w0;w0], MONO);
   ([w0;w0;w0;w0;w0;w0;w0;w0;w0;w0;w0;w0;w0;w0;w1], RED)].

Definition multi_prgrm : prgrm :=
  [([w0;w0;w0;w0;w0;w0;w0;w0;w0;w1;w0;w0;w0;w0;w0], BLUE);
   ([w0;w07;w0;w0;w1;w0;w0;w0;w0;w0;w0;w0;w0;w0], GREEN);
   ([w07;w0;w0;w1;w0;w0;w0;w0;w0;w0;w0;w0;w0;w0;w0], RED);
   ([w0;w0;w07;w0;w0;w1;w0;w0;w0;w0;w0;w0;w0;w0;w0], BLUE);
   ([w0;w0;w0;w0;w0;w0;w0;w0;w0;w0;w0;w1;w0;w0;w0], GREEN);
   ([w0;w0;w0;w0;w0;w0;w0;w0;w0;w0;w0;w0;w0;w1;w0], RED);
   ([w0;w0;w0;w0;w0;w0;w0;w0;w0;w0;w1;w0;w0;w0;w0], BLUE);
   ([w0;w0;w0;w0;w0;w0;w0;w0;w0;w0;w0;w0;w1;w0;w0], GREEN)].

Definition ssfdi_prgrm : prgrm :=
  [([w0;w0;w0;w0;w0;w0;w1;w0;w0;w0;w0;w0;w0;w0;w0], RED);
   ([w0;w0;w0;w0;w0;w0;w0;w0;w0;w0;w0;w0;w0;w0;w1], RED)].

Definition warmup_prgrm : prgrm :=
  [([w1;w1;w1;w1;w1;w1;w1;w1;w1;w1;w1;w1;w1;w1;w1], MONO);
   ([w1;w1;w1;w1;w1;w1;w1;w1;w1;w1;w1;w1;w1;w1;w1], MONO)].

Definition off_prgrm : prgrm :=
  [([w0;w0;w0;w0;w0;w0;w0;w0;w0;w0;w0;w0;w0;w0;w0], MONO)].

(** ** Controller state *)

(** What the logger has been handed; the time stamp that [Logger::Log]
    prepends is not part of the record. *)
Inductive log_record :=
  | LOG_MODE (mode : Z)
  | LOG_SYNCED
  | LOG_BUFF (offset : Z)
  | LOG_VALS (intensity : F32.float)
  | LOG_ROTN (power : F32.float)
  | LOG_PWS (frame : Z) (widths : list Z)
  | LOG_PDV (frame : Z) (volts : list Z)
  | LOG_ERR.

(** The members of [class LightController], followed by the state of its
    collaborators: the two queues of [ThreadedSerial], the positions the
    rotation mount was sent to, and the log. *)
Record LightController := mkLightController {
  mMode : MODE;
  mPrgrm : prgrm;
  mPrgrmCount : Z;
  mBufferOffset : Z;
  mFid : Z;
  mPwrBuffer : list F32.float;
  mFrmBuffer : list F32.float;
  mRotBuffer : list F32.float;
  mSynced : bool;
  mOutputQueue : list output_entry;
  mInputQueue : list input_entry;
  mRotnPositions : list F32.float;
  mLog : list log_record
}.

Definition set_mMode v (c : LightController) :=
  mkLightController v (mPrgrm c) (mPrgrmCount c) (mBufferOffset c) (mFid c)
    (mPwrBuffer c) (mFrmBuffer c) (mRotBuffer c) (mSynced c)
    (mOutputQueue c) (mInputQueue c) (mRotnPositions c) (mLog c).
Definition set_mPrgrm v (c : LightController) :=
  mkLightController (mMode c) v (mPrgrmCount c) (mBufferOffset c) (mFid c)
    (mPwrBuffer c) (mFrmBuffer c) (mRotBuffer c) (mSynced c)
    (mOutputQueue c) (mInputQueue c) (mRotnPositions c) (mLog c).
Definition set_mPrgrmCount v (c : LightController) :=
  mkLightController (mMode c) (mPrgrm c) v (mBufferOffset c) (mFid c)
    (mPwrBuffer c) (mFrmBuffer c) (mRotBuffer c) (mSynced c)
    (mOutputQueue c) (mInputQueue c) (mRotnPositions c) (mLog c).
Definition set_mBufferOffset v (c : LightController) :=
  mkLightController (mMode c) (mPrgrm c) (mPrgrmCount c) v (mFid c)
    (mPwrBuffer c) (mFrmBuffer c) (mRotBuffer c) (mSynced c)
    (mOutputQueue c) (mInputQueue c) (mRotnPositions c) (mLog c).
Definition set_mFid v (c : LightController) :=
  mkLightController (mMode c) (mPrgrm c) (mPrgrmCount c) (mBufferOffset c) v
    (mPwrBuffer c) (mFrmBuffer c) (mRotBuffer c) (mSynced c)
    (mOutputQueue c) (mInputQueue c) (mRotnPositions c) (mLog c).
Definition set_mPwrBuffer v (c : LightController) :=
  mkLightController (mMode c) (mPrgrm c) (mPrgrmCount c) (mBufferOffset c) (mFid c)
    v (mFrmBuffer c) (mRotBuffer c) (mSynced c)
    (mOutputQueue c) (mInputQueue c) (mRotnPositions c) (mLog c).
Definition set_mFrmBuffer v (c : LightController) :=
  mkLightController (mMode c) (mPrgrm c) (mPrgrmCount c) (mBufferOffset c) (mFid c)
    (mPwrBuffer c) v (mRotBuffer c) (mSynced c)
    (mOutputQueue c) (mInputQueue c) (mRotnPositions c) (mLog c).
Definition set_mRotBuffer v (c : LightController) :=
  mkLightController (mMode c) (mPrgrm c) (mPrgrmCount c) (mBufferOffset c) (mFid c)
    (mPwrBuffer c) (mFrmBuffer c) v (mSynced c)
    (mOutputQueue c) (mInputQueue c) (mRotnPositions c) (mLog c).
Definition set_mSynced v (c : LightController) :=
  mkLightController (mMode c) (mPrgrm c) (mPrgrmCount c) (mBufferOffset c) (mFid c)
    (mPwrBuffer c) (mFrmBuffer c) (mRotBuffer c) v
    (mOutputQueue c) (mInputQueue c) (mRotnPositions c) (mLog c).
Definition set_mOutputQueue v (c : LightController) :=
  mkLightController (mMode c) (mPrgrm c) (mPrgrmCount c) (mBufferOffset c) (mFid c)
    (mPwrBuffer c) (mFrmBuffer c) (mRotBuffer c) (mSynced c)
    v (mInputQueue c) (mRotnPositions c) (mLog c).
Definition set_mInputQueue v (c : LightController) :=
  mkLightController (mMode c) (mPrgrm c) (mPrgrmCount c) (mBufferOffset c) (mFid c)
    (mPwrBuffer c) (mFrmBuffer c) (mRotBuffer c) (mSynced c)
    (mOutputQueue c) v (mRotnPositions c) (mLog c).
Definition set_mRotnPositions v (c : LightController) :=
  mkLightController (mMode c) (mPrgrm c) (mPrgrmCount c) (mBufferOffset c) (mFid c)
    (mPwrBuffer c) (mFrmBuffer c) (mRotBuffer c) (mSynced c)
    (mOutputQueue c) (mInputQueue c) v (mLog c).
Definition set_mLog v (c : LightController) :=
  mkLightController (mMode c) (mPrgrm c) (mPrgrmCount c) (mBufferOffset c) (mFid c)
    (mPwrBuffer c) (mFrmBuffer c) (mRotBuffer c) (mSynced c)
    (mOutputQueue c) (mInputQueue c) (mRotnPositions c) v.

(** ** A state monad with undefined behaviour *)

Definition M (A : Type) : Type := LightController -> option (A * LightController).

Definition ret {A} (a : A) : M A := fun c => Some (a, c).

Definition bind {A B} (m : M A) (k : A -> M B) : M B :=
  fun c => match m c with
           | Some (a, c') => k a c'
           | None => None
           end.

Definition undefined {A} : M A := fun _ => None.

Definition gets {A} (f : LightController -> A) : M A := fun c => Some (f c, c).

Definition modify (f : LightController -> LightController) : M unit :=
  fun c => Some (tt, f c).

Definition lift {A} (o : option A) : M A :=
  match o with
  | Some a => ret a
  | None => undefined
  end.

Declare Scope ctl_scope.
Delimit Scope ctl_scope with ctl.
Notation "x <- m ;; k" := (bind m (fun x => k))
  (at level 61, m at next level, right associativity) : ctl_scope.
Notation "m ;; k" := (bind m (fun _ => k))
  (at level 61, right associativity) : ctl_scope.
Open Scope ctl_scope.

(** [for (i = first; i < first + count; i++) body], threading the local
    variables [a] of the loop. *)
Fixpoint for_loop {A} (first : nat) (count : nat) (body : nat -> A -> M A) (a : A) : M A :=
  match count with
  | O => ret a
  | S n => a' <- body first a;; for_loop (S first) n body a'
  end.

(** ** Integer and container helpers *)

Definition wrap32 (n : Z) : Z := n mod 2 ^ 32.
Definition wrap64 (n : Z) : Z := n mod 2 ^ 64.

(** Conversion of an [unsigned int] to [int]. *)
Definition int_of_uint (n : Z) : Z :=
  if n <? 2 ^ 31 then n else n - 2 ^ 32.

(** [a[i] = v] on an array that holds index [i]. *)
Fixpoint array_set {A} (a : list A) (i : nat) (v : A) : list A :=
  match a, i with
  | [], _ => []
  | _ :: r, O => v :: r
  | x :: r, S j => x :: array_set r j v
  end.

(** [queue.try_dequeue(x)]: the front element if there is one, and else
    [x] keeps its value. *)
Definition try_dequeue {A} (q : list A) (x : A) : A * list A :=
  match q with
  | [] => (x, [])
  | y :: q' => (y, q')
  end.

Definition enqueue {A} (q : list A) (x : A) : list A := q ++ [x].

(** [v[i]] of [std::vector]. *)
Definition at_index {A} (v : list A) (i : nat) : M A := lift (nth_error v i).

Definition Log (r : log_record) : M unit :=
  modify (fun c => set_mLog (mLog c ++ [r]) c).

(** [RotationMount::SetPosition] *)
Definition RotnMnt_SetPosition (position : F32.float) : M unit :=
  modify (fun c => set_mRotnPositions (mRotnPositions c ++ [position]) c).

(** [ThreadedSerial::AddToTxQueue] *)
Definition AddToTxQueue (oentry : output_entry) : M unit :=
  modify (fun c => set_mOutputQueue (enqueue (mOutputQueue c) oentry) c).

(** [ThreadedSerial::GetFromRxQueue] *)
Definition GetFromRxQueue : M (option input_entry) :=
  fun c => match mInputQueue c with
           | [] => Some (None, c)
           | e :: q => Some (Some e, set_mInputQueue q c)
           end.

(** ** LightController.cpp: the feedback law *)

(** [LightController::ClampPwr] *)
Definition ClampPwr (pwr : F32.float) : F32.float :=
  if F32.ltb pwr PWR_MIN then PWR_MIN
  else if F32.gtb pwr PWR_MAX then PWR_MAX
  else pwr.

(** The literal [0.999f]. *)
Definition PWR_CAP : F32.float := F32.lit 999 1000.

Definition yFixed : F32.float :=
  F32.add (F32.of_Z MAX_IMG_INTENSITY) (F32.of_Z 1).

Definition alpha : F32.float :=
  F32.mul (F32.sub yFixed (F32.of_Z TARGET_IMG_INTENSITY)) PWR_MAX.

(** Numerator and denominator of the quotient in [UpdatePower]. *)
Definition UpdatePower_num (prevIntensity prevPwr : F32.float) : F32.float :=
  F32.mul (F32.mul (F32.sub yFixed prevIntensity) prevPwr) PWR_MAX.

Definition UpdatePower_den (prevIntensity prevPwr : F32.float) : F32.float :=
  F32.add (F32.mul (F32.sub (F32.of_Z TARGET_IMG_INTENSITY) prevIntensity) prevPwr) alpha.

(** [LightController::UpdatePower] *)
Definition UpdatePower (prevIntensity prevPwr : F32.float) : F32.float :=
  let newPwr := F32.div (UpdatePower_num prevIntensity prevPwr)
                        (UpdatePower_den prevIntensity prevPwr) in
  if F32.gtb newPwr PWR_CAP then PWR_CAP else newPwr.

(** [LightController::Power2RotnAngle]; the difference of the two
    [unsigned int] constants is taken before the conversion to [float]. *)
Definition Power2RotnAngle (power : F32.float) : F32.float :=
  F32.add (F32.mul (F32.of_Z (wrap32 (ROT_ANG_MAX - ROT_ANG_MIN))) power)
          (F32.of_Z ROT_ANG_MIN).

(** ** LightController::SetMode *)

Definition prgrm_of_mode (mode : MODE) (current : prgrm) : prgrm :=
  match mode with
  | WLE => wle_prgrm
  | PSE => pse_prgrm
  | LSCI => lsci_prgrm
  | MULTI => multi_prgrm
  | SSFDI => ssfdi_prgrm
  | WARMUP => warmup_prgrm
  | OFF => off_prgrm
  | SYNC => current
  end.

Definition SetMode (mode : MODE) : M unit :=
  synced <- gets mSynced;;
  if negb synced && negb (MODE_eqb mode SYNC || MODE_eqb mode WARMUP || MODE_eqb mode OFF)
  then ret tt
  else
    (if MODE_eqb mode SSFDI
     then RotnMnt_SetPosition (Power2RotnAngle (F32.of_Z 1))
     else ret tt);;
    modify (set_mMode mode);;
    Log (LOG_MODE (MODE_value mode));;
    (if MODE_eqb mode SYNC
     then
       modify (set_mBufferOffset 0);;
       modify (set_mPrgrm off_prgrm);;
       modify (set_mSynced false)
     else
       modify (fun c => set_mPrgrm (prgrm_of_mode (mMode c) (mPrgrm c)) c);;
       modify (set_mPwrBuffer []);;
       modify (set_mRotBuffer []);;
       modify (set_mFrmBuffer []));;
    modify (set_mPrgrmCount 0).

(** ** LightController::IncrementPrgrm *)

(** The test for the arrival of the sync pulse:
    [((oddBgrVals[0] + oddBgrVals[1] + oddBgrVals[2]) / 3.f) > 40.f]. *)
Definition sync_pulse_arrived (oddBgrVals : bgr) : bool :=
  F32.gtb (F32.div (F32.add (F32.add (chn0 oddBgrVals) (chn1 oddBgrVals))
                            (chn2 oddBgrVals))
                   (F32.of_Z 3))
          (F32.of_Z 40).

(** The branch taken while in sync mode and not yet synchronized. *)
Definition sync_step (oddBgrVals : bgr) (pwrs : list F32.float) : M (list F32.float) :=
  offset <- gets mBufferOffset;;
  pwrs <- (if offset =? 0
           then
             pwrs <- for_loop 0 NO_LASER_DIODES
                       (fun i pwrs => ret (array_set pwrs i (F32.of_Z 1))) pwrs;;
             modify (fun c => set_mBufferOffset (wrap32 (mBufferOffset c + 2)) c);;
             ret pwrs
           else
             if sync_pulse_arrived oddBgrVals
             then
               modify (set_mSynced true);;
               Log LOG_SYNCED;;
               offset <- gets mBufferOffset;;
               Log (LOG_BUFF offset);;
               ret pwrs
             else
               modify (fun c => set_mBufferOffset (wrap32 (mBufferOffset c + 2)) c);;
               ret pwrs);;
  modify (fun c => set_mPrgrmCount (wrap32 (mPrgrmCount c + 2)) c);;
  ret pwrs.

(** The warmup branch. *)
Definition warmup_step (pwrs : list F32.float) : M (list F32.float) :=
  pwrs <- for_loop 0 NO_LASER_DIODES
            (fun i pwrs =>
               p <- gets mPrgrm;;
               s0 <- at_index p 0;;
               x0 <- at_index (fst s0) i;;
               s1 <- at_index p 1;;
               x1 <- at_index (fst s1) i;;
               ret (array_set (array_set pwrs i x0) (NO_LASER_DIODES + i) x1)) pwrs;;
  modify (fun c => set_mPrgrmCount (wrap32 (mPrgrmCount c + 2)) c);;
  ret pwrs.

(** The intensity that drives autoexposure for a step. *)
Definition select_intensity (chnl : IMG_CHNL) (vals : bgr) : F32.float :=
  match chnl with
  | BLUE => chn0 vals
  | GREEN => chn1 vals
  | RED => chn2 vals
  | MONO => F32.div (F32.add (F32.add (chn0 vals) (chn1 vals)) (chn2 vals)) (F32.of_Z 3)
  end.

(** [mPrgrm.size() * (int)ceilf((float)mBufferOffset / (float)mPrgrm.size())],
    a [size_t] of 64 bits. *)
Definition full_pass_count (size offset : Z) : Z :=
  wrap64 (size * F32.int_of_Z_opt (F32.ceil (F32.div (F32.of_Z offset) (F32.of_Z size)))).

(** The body of the loop over the two image fields of the other modes. *)
Definition field_step (oddBgrVals evenBgrVals : bgr) (f : nat) (pwrs : list F32.float)
  : M (list F32.float) :=
  p <- gets mPrgrm;;
  let size := Z.of_nat (length p) in
  if size =? 0 then undefined else
  count <- gets mPrgrmCount;;
  offset <- gets mBufferOffset;;
  let prgrmIdx := wrap32 (count mod size) in
  let frameIdx := wrap32 (wrap32 (count - offset) mod size) in
  (if offset <=? count
   then
     let vals := match f with O => oddBgrVals | _ => evenBgrVals end in
     step <- at_index p (Z.to_nat frameIdx);;
     let prevIntensity := select_intensity (snd step) vals in
     Log (LOG_VALS prevIntensity);;
     q <- gets mPwrBuffer;;
     let '(prevPwr, q') := try_dequeue q F32.zero in
     modify (set_mPwrBuffer q');;
     let newPwr := ClampPwr (UpdatePower prevIntensity prevPwr) in
     modify (fun c => set_mFrmBuffer (enqueue (mFrmBuffer c) newPwr) c)
   else ret tt);;
  newPwr <- (if full_pass_count size offset <=? count
             then
               q <- gets mFrmBuffer;;
               let '(newPwr, q') := try_dequeue q F32.zero in
               modify (set_mFrmBuffer q');;
               ret newPwr
             else ret PWR_START);;
  modify (fun c => set_mPwrBuffer (enqueue (mPwrBuffer c) newPwr) c);;
  pwrs <- for_loop 0 NO_LASER_DIODES
            (fun n pwrs =>
               step <- at_index p (Z.to_nat prgrmIdx);;
               w <- at_index (fst step) n;;
               if F32.gtb w (F32.of_Z 0)
               then ret (array_set pwrs (f * NO_LASER_DIODES + n) (F32.mul newPwr w))
               else ret pwrs) pwrs;;
  modify (fun c => set_mPrgrmCount (wrap32 (mPrgrmCount c + 1)) c);;
  ret pwrs.

(** First half of [IncrementPrgrm]: the output powers [pwrs] of the odd
    and even field. *)
Definition IncrementPrgrm_pwrs (oddBgrVals evenBgrVals : bgr) : M (list F32.float) :=
  let pwrs := repeat F32.zero (2 * NO_LASER_DIODES) in
  mode <- gets mMode;;
  synced <- gets mSynced;;
  if MODE_eqb mode SYNC && negb synced then sync_step oddBgrVals pwrs
  else if MODE_eqb mode WARMUP then warmup_step pwrs
  else for_loop 0 2 (field_step oddBgrVals evenBgrVals) pwrs.

(** The conversion of the powers to pulse width lengths. *)
Definition pulse_widths (pwrs : list F32.float) : list Z :=
  map (fun pwr => F32.to_ushort (F32.mul PW_MAX pwr)) pwrs.

(** The update of the rotation mount power in LSCI mode. *)
Definition rotation_step (evenBgrVals : bgr) : M unit :=
  count <- gets mPrgrmCount;;
  offset <- gets mBufferOffset;;
  newPwr <- (if wrap32 (offset - 10 * 2) <=? count
             then
               q <- gets mRotBuffer;;
               let '(prevPwr, q') := try_dequeue q F32.zero in
               modify (set_mRotBuffer q');;
               ret (ClampPwr (UpdatePower (chn2 evenBgrVals) prevPwr))
             else ret (F32.lit 2 10));;
  modify (fun c => set_mRotBuffer (enqueue (mRotBuffer c) newPwr) c);;
  RotnMnt_SetPosition (Power2RotnAngle newPwr);;
  Log (LOG_ROTN newPwr).

(** Second half of [IncrementPrgrm]: pulse widths, rotation mount, serial
    link and frame id. *)
Definition IncrementPrgrm_send (evenBgrVals : bgr) (pwrs : list F32.float) : M unit :=
  let widths := pulse_widths pwrs in
  mode <- gets mMode;;
  widths <- (if MODE_eqb mode LSCI
             then
               let widths := array_set widths 29 (F32.to_ushort PW_LSCI) in
               rotation_step evenBgrVals;;
               ret widths
             else ret widths);;
  f <- gets mFid;;
  let oentry := {| fid := int_of_uint f; pws := widths |} in
  AddToTxQueue oentry;;
  Log (LOG_PWS (fid oentry) (pws oentry));;
  received <- GetFromRxQueue;;
  match received with
  | Some ientry =>
      if in_fid ientry =? FID_ERROR
      then Log LOG_ERR
      else Log (LOG_PDV (in_fid ientry) (pdvs ientry))
  | None => ret tt
  end;;
  modify (fun c => set_mFid (wrap32 (mFid c + 1)) c).

Definition IncrementPrgrm (oddBgrVals evenBgrVals : bgr) : M unit :=
  pwrs <- IncrementPrgrm_pwrs oddBgrVals evenBgrVals;;
  IncrementPrgrm_send evenBgrVals pwrs.

(** ** LightController.cpp: accessors *)

Definition GetMode : M MODE := gets mMode.

Definition GetPrgrmLength : M Z :=
  gets (fun c => wrap32 (Z.of_nat (length (mPrgrm c)))).

Definition GetPrgrmCount : M Z := gets mPrgrmCount.

Definition GetSyncStatus : M bool := gets mSynced.

(** ** RotationMount.h, RotationMount::SetPosition *)

Definition POS_SF : Z := 4000.

(** The device position [int(mPosition * POS_SF)] that
    [RotationMount::SetPosition] hands to [BMC_MoveToPosition]. *)
Definition BMC_position (position : F32.float) : Z :=
  F32.to_int (F32.mul position (F32.of_Z POS_SF)).

(** ** Logger.cpp: the time stamp of a log line

    [Logger::CurrentExecutionTime], from the elapsed time in milliseconds
    [msInt = std::abs(int(std::round(curr_time * 1000.0)))] on. *)

Module Logger.

Import Strings.String Strings.Ascii.

(** [msInt / (1000 * 60) % 60], [msInt / (1000) % 60], [msInt % 1000] on [int]. *)
Definition mins (msInt : Z) : Z := Z.rem (Z.quot msInt (1000 * 60)) 60.
Definition secs (msInt : Z) : Z := Z.rem (Z.quot msInt 1000) 60.
Definition mils (msInt : Z) : Z := Z.rem msInt 1000.

(** The decimal digits of a number that is not negative. *)
Fixpoint decimal (fuel : nat) (n : Z) (acc : string) : string :=
  match fuel with
  | O => acc
  | S fuel' =>
      let acc' := String (ascii_of_nat (48 + Z.to_nat (n mod 10))) acc in
      if n / 10 =? 0 then acc' else decimal fuel' (n / 10) acc'
  end.

Fixpoint zeros (n : nat) : string :=
  match n with
  | O => EmptyString
  | S n' => String "0"%char (zeros n')
  end.

(** The conversion [%0wd] of printf for a number that is not negative. *)
Definition padded (width : nat) (n : Z) : string :=
  let digits := decimal 10 n EmptyString in
  append (zeros (width - length digits)) digits.

(** The text of the format [[%03d:%02d:%03d]]. *)
Definition stamp_text (msInt : Z) : string :=
  append "[" (append (padded 3 (mins msInt))
    (append ":" (append (padded 2 (secs msInt))
      (append ":" (append (padded 3 (mils msInt)) "]"))))).

Fixpoint nuls (n : nat) : string :=
  match n with
  | O => EmptyString
  | S n' => String zero (nuls n')
  end.

(** [buffer.resize(13); snprintf(&buffer[0], 13, ...)]: at most 12
    characters of the text, and NUL characters up to the size 13. *)
Definition CurrentExecutionTime (msInt : Z) : string :=
  let written := substring 0 12 (stamp_text msInt) in
  append written (nuls (13 - length written)).

End Logger.

(** ** MatroxCaptureCard.cpp: archiving frames into videos

    The video files are told apart by the number in their name,
    [mBaseVideoFilename + std::to_string(n) + ".avi"]; the card is observed
    through the sequence exports it has been asked for. *)

Module Matrox.

Inductive export :=
  | OPEN (video : Z)
  | WRITE (video : Z)
  | CLOSE (video : Z).

Record MatroxCaptureCard := mkMatroxCaptureCard {
  mFramesPerVideo : Z;
  mNoArchivedFrames : Z;
  mCurrentVideo : Z;
  exports : list export
}.

(** [MatroxCaptureCard::OpenVideo]; the division is one of [unsigned int]. *)
Definition OpenVideo (s : MatroxCaptureCard) : option MatroxCaptureCard :=
  if mFramesPerVideo s =? 0 then None
  else
    let video := mNoArchivedFrames s / mFramesPerVideo s in
    Some (mkMatroxCaptureCard (mFramesPerVideo s) (mNoArchivedFrames s) video
            (exports s ++ [OPEN video])).

(** [MatroxCaptureCard::CloseVideo] *)
Definition CloseVideo (s : MatroxCaptureCard) : MatroxCaptureCard :=
  mkMatroxCaptureCard (mFramesPerVideo s) (mNoArchivedFrames s) (mCurrentVideo s)
    (exports s ++ [CLOSE (mCurrentVideo s)]).

(** [MatroxCaptureCard::ArchiveFrame] *)
Definition ArchiveFrame (s : MatroxCaptureCard) : option MatroxCaptureCard :=
  let s1 := mkMatroxCaptureCard (mFramesPerVideo s) (wrap32 (mNoArchivedFrames s + 1))
              (mCurrentVideo s) (exports s ++ [WRITE (mCurrentVideo s)]) in
  if mFramesPerVideo s1 =? 0 then None
  else if mNoArchivedFrames s1 mod mFramesPerVideo s1 =? 0
       then OpenVideo (CloseVideo s1)
       else Some s1.

(** The part of the constructor that concerns the videos: no frame
    archived yet, and the first video opened. *)
Definition new (fpv : Z) : option MatroxCaptureCard :=
  OpenVideo (mkMatroxCaptureCard fpv 0 0 []).

(** [n] calls of [ArchiveFrame]. *)
Fixpoint ArchiveFrames (n : nat) (s : MatroxCaptureCard) : option MatroxCaptureCard :=
  match n with
  | O => Some s
  | S k => match ArchiveFrames k s with
           | Some s' => ArchiveFrame s'
           | None => None
           end
  end.

(** The videos written to, opened and closed, in the order of the exports. *)
Definition written (l : list export) : list Z :=
  flat_map (fun e => match e with WRITE v => [v] | _ => [] end) l.

Definition opened (l : list export) : list Z :=
  flat_map (fun e => match e with OPEN v => [v] | _ => [] end) l.

Definition closed (l : list export) : list Z :=
  flat_map (fun e => match e with CLOSE v => [v] | _ => [] end) l.

End Matrox.

(** ** Specification-side definitions *)

(** A run of the per-frame operation over consecutive frames, each given
    by the means of its odd and even field. *)
Fixpoint run_frames (frames : list (bgr * bgr)) : M unit :=
  match frames with
  | [] => ret tt
  | (oddBgrVals, evenBgrVals) :: rest =>
      IncrementPrgrm oddBgrVals evenBgrVals;; run_frames rest
  end.

(** The installed program can be read by [IncrementPrgrm] without leaving
    a vector: it has a step, every step has a weight for each of the 15
    diodes, and the warmup branch finds the two steps it reads. *)
Definition prgrm_ok (c : LightController) : Prop :=
  mPrgrm c <> []
  /\ Forall (fun step => (NO_LASER_DIODES <= length (fst step))%nat) (mPrgrm c)
  /\ (mMode c = WARMUP -> (2 <= length (mPrgrm c))%nat).

(** What [IncrementPrgrm] leaves alone before it sends the command. *)
Definition same_frame (c c' : LightController) : Prop :=
  mMode c' = mMode c /\ mPrgrm c' = mPrgrm c /\ mFid c' = mFid c
  /\ mOutputQueue c' = mOutputQueue c /\ mInputQueue c' = mInputQueue c.

Definition keeps {A} (m : M A) : Prop :=
  forall c a c', m c = Some (a, c') -> same_frame c c'.

Definition returns {A} (P : A -> Prop) (m : M A) : Prop :=
  forall c a c', m c = Some (a, c') -> P a.

(** The pulse width the specification asks for:
    [round(PW_MAX * power)] clamped to [0, PW_MAX]. *)
Definition spec_pulse_width (power : F32.float) : option Z :=
  match F32.round (F32.mul PW_MAX power) with
  | Some n => Some (Z.max 0 (Z.min 14000 n))
  | None => None
  end.

(** Weights of a program table: 15 per step, each in [0,1]. *)
Definition weight_ok (w : F32.float) : bool :=
  F32.leb F32.zero w && F32.leb w (F32.of_Z 1).

Definition step_ok (step : list F32.float * IMG_CHNL) : bool :=
  (length (fst step) =? 15)%nat && forallb weight_ok (fst step).

(** States used by the examples. *)
Definition zero_means : bgr := {| chn0 := F32.zero; chn1 := F32.zero; chn2 := F32.zero |}.

Definition bright_means : bgr :=
  {| chn0 := F32.of_Z 50; chn1 := F32.of_Z 50; chn2 := F32.of_Z 50 |}.

(** The constructor: the member initialisers leave the counters at 0 and
    the sync flag clear ([mMode] is first written by [SetMode(OFF)], which
    does not read it; the blank state carries OFF there); the body sends
    the reset record, enters mode OFF and parks the rotation mount at the
    angle of power 0.1. The homing of the rotation mount is not modelled. *)
Definition blank_controller : LightController :=
  mkLightController OFF [] 0 0 0 [] [] [] false [] [] [] [].

Definition LightController_new : M unit :=
  AddToTxQueue {| fid := FID_RESET; pws := repeat 0 (2 * NO_LASER_DIODES) |};;
  SetMode OFF;;
  RotnMnt_SetPosition (Power2RotnAngle (F32.lit 1 10)).

Definition state_after {A} (m : M A) (c : LightController) : option LightController :=
  match m c with
  | Some (_, c') => Some c'
  | None => None
  end.

(** The pulse widths of the outbound record for the powers [pwrs]. *)
Definition sent_widths (mode : MODE) (pwrs : list F32.float) : list Z :=
  if MODE_eqb mode LSCI
  then array_set (pulse_widths pwrs) 29 (F32.to_ushort PW_LSCI)
  else pulse_widths pwrs.

(** The power [rotation_step] hands to the rotation mount. *)
Definition rotation_gate (c : LightController) : bool :=
  wrap32 (mBufferOffset c - 10 * 2) <=? mPrgrmCount c.

Definition rotation_power (evenBgrVals : bgr) (c : LightController) : F32.float :=
  if rotation_gate c
  then ClampPwr (UpdatePower (chn2 evenBgrVals) (fst (try_dequeue (mRotBuffer c) F32.zero)))
  else F32.lit 2 10.

(** A synchronized controller in mode OFF whose frame id has reached the
    largest [int]. *)
Definition late_controller : LightController :=
  mkLightController OFF off_prgrm 0 2 (2 ^ 31 - 1) [] [] [] true [] [] [] [].

(** The state [m] leaves behind ([c] itself where [m] is undefined). *)
Definition reach {A} (m : M A) (c : LightController) : LightController :=
  match m c with
  | Some (_, c') => c'
  | None => c
  end.

(** The controller as the constructor leaves it. *)
Definition initial_controller : LightController :=
  Eval vm_compute in reach LightController_new blank_controller.

(** The controller when the SYNC procedure starts. *)
Definition sync_start_controller : LightController :=
  Eval vm_compute in reach (SetMode SYNC) initial_controller.

(** The controller after the SYNC procedure has measured an offset of 2
    fields: flash on the first frame, seen on the second. *)
Definition synced_controller : LightController :=
  Eval vm_compute in
    reach (IncrementPrgrm zero_means zero_means;; IncrementPrgrm bright_means zero_means)
          sync_start_controller.

(** The controller while the SYNC procedure waits for the flash: the flash
    has been sent on the first frame, the buffer offset is 2. *)
Definition sync_waiting_controller : LightController :=
  Eval vm_compute in reach (IncrementPrgrm zero_means zero_means) sync_start_controller.

(** White-light mode one frame after [synced_controller] entered it. *)
Definition wle_running_controller : LightController :=
  Eval vm_compute in
    reach (SetMode WLE;; IncrementPrgrm zero_means zero_means) synced_controller.

(** [synced_controller] after [SetMode(LSCI)]. *)
Definition lsci_start_controller : LightController :=
  Eval vm_compute in reach (SetMode LSCI) synced_controller.

(** ** Reading binary32 numbers as integers

    The definitions below serve the proofs about the arithmetic of
    [UpdatePower]; they are specialised to precision 24 and [emax] 128. *)

(** The exponent of the format for a number of magnitude [2^e]. *)
Definition fexp32 (e : Z) : Z := Z.max (e - 24) (-149).

(** A shift register has dropped a non-zero part. *)
Definition inexact (r : shr_record) : bool := shr_r r || shr_s r.

(** The finite binary32 numbers, and their value counted in units of
    [2^-298] (small enough for the exact product of two of them). *)
Definition fin (x : spec_float) : bool :=
  match x with
  | S754_zero _ => true
  | S754_finite _ m e => bounded 24 128 m e
  | _ => false
  end.

Definition V (x : spec_float) : Z :=
  match x with
  | S754_finite s m e => cond_Zopp s (Zpos m * 2 ^ (e + 298))
  | _ => 0
  end.

(** The result of rounding, given the rounded mantissa at the exponent of
    the format: the mantissa [2^24] is renormalised and a too large
    exponent overflows. *)
Definition pack (s : bool) (m e : Z) : spec_float :=
  if m =? 0 then S754_zero s
  else if m =? 16777216
       then if e + 1 <=? 104 then S754_finite s 8388608 (e + 1) else S754_infinity s
       else if e <=? 104 then S754_finite s (Z.to_pos m) e else S754_infinity s.


(** ** Predicates and functional forms used by the further properties *)

(** A power in the unit interval, an image mean in [0, MAX_IMG_INTENSITY]. *)
Definition unit_power (x : F32.float) : bool :=
  F32.valid x && F32.leb F32.zero x && F32.leb x (F32.of_Z 1).

Definition intensity_ok (x : F32.float) : bool :=
  F32.valid x && F32.leb F32.zero x && F32.leb x (F32.of_Z MAX_IMG_INTENSITY).

Definition means_ok (vals : bgr) : bool :=
  intensity_ok (chn0 vals) && intensity_ok (chn1 vals) && intensity_ok (chn2 vals).

(** A rotation angle within the limits of the half wave plate. *)
Definition angle_ok (x : F32.float) : bool :=
  F32.valid x && F32.leb (F32.of_Z ROT_ANG_MIN) x && F32.leb x (F32.of_Z ROT_ANG_MAX).

(** ** The per-frame operation as a function of the state

    The same computation as [field_step], [IncrementPrgrm_send] and
    [SetMode], written without the monad; the lemmas [field_step_eq],
    [IncrementPrgrm_send_eq] and [SetMode_eq] show that they agree. *)

Fixpoint iter_opt {A} (g : nat -> A -> option A) (first count : nat) (a : A) : option A :=
  match count with
  | O => Some a
  | S n => match g first a with
           | Some a' => iter_opt g (S first) n a'
           | None => None
           end
  end.

Definition assign_weight (p : prgrm) (idx f : nat) (newPwr : F32.float)
    (n : nat) (pwrs : list F32.float) : option (list F32.float) :=
  match nth_error p idx with
  | Some step =>
      match nth_error (fst step) n with
      | Some w =>
          Some (if F32.gtb w (F32.of_Z 0)
                then array_set pwrs (f * NO_LASER_DIODES + n) (F32.mul newPwr w)
                else pwrs)
      | None => None
      end
  | None => None
  end.

Definition assign_powers (p : prgrm) (idx f : nat) (newPwr : F32.float)
    (pwrs : list F32.float) : option (list F32.float) :=
  iter_opt (assign_weight p idx f newPwr) 0 NO_LASER_DIODES pwrs.

Definition field_result (oddBgrVals evenBgrVals : bgr) (f : nat)
    (pwrs : list F32.float) (c : LightController)
  : option (list F32.float * LightController) :=
  let p := mPrgrm c in
  let size := Z.of_nat (length p) in
  let count := mPrgrmCount c in
  let offset := mBufferOffset c in
  let vals := match f with O => oddBgrVals | _ => evenBgrVals end in
  if size =? 0 then None else
  match (if offset <=? count
         then match nth_error p (Z.to_nat (wrap32 (wrap32 (count - offset) mod size))) with
              | Some step =>
                  let y := select_intensity (snd step) vals in
                  let prev := try_dequeue (mPwrBuffer c) F32.zero in
                  Some (snd prev,
                        mFrmBuffer c ++ [ClampPwr (UpdatePower y (fst prev))],
                        mLog c ++ [LOG_VALS y])
              | None => None
              end
         else Some (mPwrBuffer c, mFrmBuffer c, mLog c)) with
  | None => None
  | Some (qp1, qf1, lg1) =>
      let next := if full_pass_count size offset <=? count
                  then try_dequeue qf1 F32.zero
                  else (PWR_START, qf1) in
      match assign_powers p (Z.to_nat (wrap32 (count mod size))) f (fst next) pwrs with
      | Some pwrs' =>
          Some (pwrs',
                mkLightController (mMode c) p (wrap32 (count + 1)) offset (mFid c)
                  (qp1 ++ [fst next]) (snd next) (mRotBuffer c) (mSynced c)
                  (mOutputQueue c) (mInputQueue c) (mRotnPositions c) lg1)
      | None => None
      end
  end.

(** What the log receives for the record taken from the receive queue. *)
Definition inbound_log (received : option input_entry) : list log_record :=
  match received with
  | Some ientry =>
      if in_fid ientry =? FID_ERROR then [LOG_ERR]
      else [LOG_PDV (in_fid ientry) (pdvs ientry)]
  | None => []
  end.

Definition send_result (evenBgrVals : bgr) (pwrs : list F32.float) (c : LightController)
  : LightController :=
  let widths := sent_widths (mMode c) pwrs in
  let lsci := MODE_eqb (mMode c) LSCI in
  let newPwr := rotation_power evenBgrVals c in
  mkLightController (mMode c) (mPrgrm c) (mPrgrmCount c) (mBufferOffset c)
    (wrap32 (mFid c + 1)) (mPwrBuffer c) (mFrmBuffer c)
    (if lsci
     then (if rotation_gate c then snd (try_dequeue (mRotBuffer c) F32.zero)
           else mRotBuffer c) ++ [newPwr]
     else mRotBuffer c)
    (mSynced c)
    (mOutputQueue c ++ [{| fid := int_of_uint (mFid c); pws := widths |}])
    (tl (mInputQueue c))
    (if lsci then mRotnPositions c ++ [Power2RotnAngle newPwr] else mRotnPositions c)
    (mLog c ++ (if lsci then [LOG_ROTN newPwr] else [])
       ++ [LOG_PWS (int_of_uint (mFid c)) widths]
       ++ inbound_log (hd_error (mInputQueue c))).

(** [SetMode] is let through: synchronized, or one of SYNC, WARMUP, OFF. *)
Definition SetMode_allowed (mode : MODE) (c : LightController) : bool :=
  mSynced c || MODE_eqb mode SYNC || MODE_eqb mode WARMUP || MODE_eqb mode OFF.

Definition SetMode_result (mode : MODE) (c : LightController) : LightController :=
  let sync := MODE_eqb mode SYNC in
  mkLightController mode
    (if sync then off_prgrm else prgrm_of_mode mode (mPrgrm c))
    0
    (if sync then 0 else mBufferOffset c)
    (mFid c)
    (if sync then mPwrBuffer c else [])
    (if sync then mFrmBuffer c else [])
    (if sync then mRotBuffer c else [])
    (if sync then false else mSynced c)
    (mOutputQueue c) (mInputQueue c)
    (if MODE_eqb mode SSFDI
     then mRotnPositions c ++ [Power2RotnAngle (F32.of_Z 1)]
     else mRotnPositions c)
    (mLog c ++ [LOG_MODE (MODE_value mode)]).

(** A log record written for a record received from the light modulation
    controller. *)
Definition inbound_entry (r : log_record) : bool :=
  match r with
  | LOG_ERR | LOG_PDV _ _ => true
  | _ => false
  end.

(** The program table of a mode; SYNC plays the OFF program. *)
Definition table_of (mode : MODE) : prgrm := prgrm_of_mode mode off_prgrm.

(** The fill level the two autoexposure queues have after [mPrgrmCount]
    fields of a program: the queue of emitted powers holds the last
    [mBufferOffset] powers (one, when the offset is 0), and the queue of
    updated powers holds the updates computed between the buffer offset
    and the end of the first full pass through the program. *)
Definition queues_in_step (c : LightController) : Prop :=
  Z.of_nat (length (mPwrBuffer c))
  = Z.min (mPrgrmCount c) (Z.max (mBufferOffset c) 1)
  /\ Z.of_nat (length (mFrmBuffer c))
     = Z.max 0 (Z.min (mPrgrmCount c)
                      (full_pass_count (Z.of_nat (length (mPrgrm c))) (mBufferOffset c))
                - mBufferOffset c).

(** A call of one of the two operations the frame grabber thread and the
    command line make on the controller, and a sequence of such calls. *)
Inductive call :=
  | CallSetMode (mode : MODE)
  | CallIncrementPrgrm (oddBgrVals evenBgrVals : bgr).

Definition run_call (k : call) : M unit :=
  match k with
  | CallSetMode mode => SetMode mode
  | CallIncrementPrgrm oddBgrVals evenBgrVals => IncrementPrgrm oddBgrVals evenBgrVals
  end.

Fixpoint run_calls (ks : list call) : M unit :=
  match ks with
  | [] => ret tt
  | k :: rest => run_call k;; run_calls rest
  end.

(** The call does not ask for MULTI; and, for a frame, the channel means
    are means of 8-bit pixels. *)
Definition not_multi (k : call) : bool :=
  match k with
  | CallSetMode mode => negb (MODE_eqb mode MULTI)
  | CallIncrementPrgrm _ _ => true
  end.





(** The installed program is the table of the current mode, which is not
    MULTI. *)
Definition installed (c : LightController) : Prop :=
  mPrgrm c = table_of (mMode c) /\ mMode c <> MULTI.


(** The least multiple of [size] that is not below [offset]. *)
Definition least_multiple (size offset : Z) : Z := size * ((offset + size - 1) / size).

Definition full_pass_exact (size offset : nat) : bool :=
  full_pass_count (Z.of_nat size) (Z.of_nat offset)
  =? least_multiple (Z.of_nat size) (Z.of_nat offset).


(** * Properties *)

(** ** Reasoning about the monad *)

Lemma same_frame_refl c : same_frame c c.
Proof. repeat split. Qed.

Lemma same_frame_trans c1 c2 c3 :
  same_frame c1 c2 -> same_frame c2 c3 -> same_frame c1 c3.
Proof.
  unfold same_frame. intros (a1 & a2 & a3 & a4 & a5) (b1 & b2 & b3 & b4 & b5).
  repeat split; congruence.
Qed.

Lemma keeps_ret {A} (a : A) : keeps (ret a).
Proof. intros c x c' H. inversion H. apply same_frame_refl. Qed.

Lemma keeps_undefined {A} : keeps (@undefined A).
Proof. intros c x c' H. discriminate. Qed.

Lemma keeps_gets {A} (f : LightController -> A) : keeps (gets f).
Proof. intros c x c' H. inversion H. apply same_frame_refl. Qed.

Lemma keeps_lift {A} (o : option A) : keeps (lift o).
Proof. destruct o; [apply keeps_ret | apply keeps_undefined]. Qed.

Lemma keeps_modify f : (forall c, same_frame c (f c)) -> keeps (modify f).
Proof. intros Hf c x c' H. inversion H. apply Hf. Qed.

Lemma keeps_bind {A B} (m : M A) (k : A -> M B) :
  keeps m -> (forall a, keeps (k a)) -> keeps (bind m k).
Proof.
  intros Hm Hk c b c' H. unfold bind in H.
  destruct (m c) as [[a c1]|] eqn:E; [|discriminate].
  eapply same_frame_trans; [eapply Hm | eapply Hk]; eassumption.
Qed.

Lemma keeps_for_loop {A} (body : nat -> A -> M A) :
  (forall i a, keeps (body i a)) ->
  forall count first a, keeps (for_loop first count body a).
Proof.
  intros Hb. induction count as [|n IH]; intros first a; cbn [for_loop].
  - apply keeps_ret.
  - apply keeps_bind; [apply Hb | intro; apply IH].
Qed.

Ltac keeps_step :=
  match goal with
  | |- keeps (bind _ _) => apply keeps_bind; [| intro]
  | |- keeps (ret _) => apply keeps_ret
  | |- keeps undefined => apply keeps_undefined
  | |- keeps (gets _) => apply keeps_gets
  | |- keeps (lift _) => apply keeps_lift
  | |- keeps (at_index _ _) => apply keeps_lift
  | |- keeps (modify _) => apply keeps_modify; intros []; repeat split
  | |- keeps (Log _) => apply keeps_modify; intros []; repeat split
  | |- keeps (RotnMnt_SetPosition _) => apply keeps_modify; intros []; repeat split
  | |- keeps (for_loop _ _ _ _) => apply keeps_for_loop; intros
  | |- keeps (if ?b then _ else _) => destruct b
  | |- keeps (let '(_, _) := ?p in _) => destruct p
  | |- keeps (match ?x with _ => _ end) => destruct x
  end.

Lemma keeps_sync_step odd pwrs : keeps (sync_step odd pwrs).
Proof. unfold sync_step. repeat keeps_step. Qed.

Lemma keeps_warmup_step pwrs : keeps (warmup_step pwrs).
Proof. unfold warmup_step. repeat keeps_step. Qed.

Lemma keeps_field_step odd even f pwrs : keeps (field_step odd even f pwrs).
Proof. unfold field_step. repeat keeps_step. Qed.

Lemma keeps_IncrementPrgrm_pwrs odd even : keeps (IncrementPrgrm_pwrs odd even).
Proof.
  unfold IncrementPrgrm_pwrs. repeat keeps_step;
    auto using keeps_sync_step, keeps_warmup_step, keeps_field_step.
Qed.

(** ** The second half of the per-frame operation never fails *)

#[global] Arguments F32.add : simpl never.
#[global] Arguments F32.sub : simpl never.
#[global] Arguments F32.mul : simpl never.
#[global] Arguments F32.div : simpl never.
#[global] Arguments F32.of_Z : simpl never.
#[global] Arguments F32.lit : simpl never.
#[global] Arguments F32.to_ushort : simpl never.
#[global] Arguments F32.gtb : simpl never.
#[global] Arguments F32.ltb : simpl never.
#[global] Arguments ClampPwr : simpl never.
#[global] Arguments UpdatePower : simpl never.
#[global] Arguments Power2RotnAngle : simpl never.
#[global] Arguments pulse_widths : simpl never.
#[global] Arguments sync_pulse_arrived : simpl never.
#[global] Arguments full_pass_count : simpl never.
#[global] Arguments wrap32 : simpl never.
#[global] Arguments int_of_uint : simpl never.

Ltac unfold_monad :=
  unfold bind, gets, modify, ret, undefined, lift, at_index,
    AddToTxQueue, GetFromRxQueue, Log, RotnMnt_SetPosition, enqueue in *.

Ltac split_branches :=
  repeat (match goal with
          | |- context [match ?x with _ => _ end] =>
              lazymatch x with
              | context [match _ with _ => _ end] => fail
              | _ => destruct x eqn:?
              end
          end; cbn).

Lemma IncrementPrgrm_send_spec even pwrs c :
  exists c',
    IncrementPrgrm_send even pwrs c = Some (tt, c')
    /\ mOutputQueue c' =
         mOutputQueue c ++ [{| fid := int_of_uint (mFid c);
                               pws := sent_widths (mMode c) pwrs |}]
    /\ mFid c' = wrap32 (mFid c + 1)
    /\ mMode c' = mMode c /\ mPrgrm c' = mPrgrm c
    /\ mPrgrmCount c' = mPrgrmCount c /\ mBufferOffset c' = mBufferOffset c
    /\ mSynced c' = mSynced c
    /\ mPwrBuffer c' = mPwrBuffer c /\ mFrmBuffer c' = mFrmBuffer c.
Proof.
  destruct c as [mode p cnt off f qp qf qr sy oq iq rp lg].
  unfold IncrementPrgrm_send, sent_widths, rotation_step. unfold_monad. cbn.
  split_branches; eexists; repeat split.
Qed.

(** ** The first half: result shape and definedness *)

Lemma returns_ret {A} (P : A -> Prop) a : P a -> returns P (ret a).
Proof. intros H c x c' E. unfold ret in E. injection E as <- _. exact H. Qed.

Lemma returns_bind {A B} (P : B -> Prop) (m : M A) (k : A -> M B) :
  (forall a, returns P (k a)) -> returns P (bind m k).
Proof.
  intros Hk c b c' H. unfold bind in H.
  destruct (m c) as [[a c1]|]; [|discriminate]. eapply Hk; eassumption.
Qed.

Lemma returns_bind_same {A} (P : A -> Prop) (m : M A) (k : A -> M A) :
  returns P m -> (forall a, P a -> returns P (k a)) -> returns P (bind m k).
Proof.
  intros Hm Hk c b c' H. unfold bind in H.
  destruct (m c) as [[a c1]|] eqn:E; [|discriminate].
  eapply Hk; [eapply Hm|]; eassumption.
Qed.

Lemma returns_for_loop {A} (P : A -> Prop) (body : nat -> A -> M A) :
  (forall i a, P a -> returns P (body i a)) ->
  forall count first a, P a -> returns P (for_loop first count body a).
Proof.
  intros Hb. induction count as [|n IH]; intros first a Ha; cbn [for_loop].
  - apply returns_ret, Ha.
  - intros c b c' H. unfold bind in H.
    destruct (body first a c) as [[a1 c1]|] eqn:E; [|discriminate].
    eapply IH; [eapply Hb|]; eassumption.
Qed.

Lemma for_loop_S {A} first n (body : nat -> A -> M A) a :
  for_loop first (S n) body a = bind (body first a) (for_loop (S first) n body).
Proof. reflexivity. Qed.

#[global] Arguments for_loop : simpl never.

Lemma array_set_length {A} (a : list A) i v : length (array_set a i v) = length a.
Proof.
  revert i. induction a as [|x a IH]; intros [|i]; cbn; auto.
Qed.

Ltac returns_step :=
  cbv beta;
  match goal with
  | |- returns ?P (@bind ?A ?A _ _) => apply (returns_bind_same P); [| intros ? ?]
  | |- returns _ (bind _ _) => apply returns_bind; intro
  | |- returns _ (ret _) => apply returns_ret; rewrite ?array_set_length; try assumption
  | |- returns _ (for_loop _ _ _ _) => apply returns_for_loop; [intros|try assumption]
  | |- returns _ (if ?b then _ else _) => destruct b
  | |- returns _ (let '(_, _) := ?p in _) => destruct p
  | |- returns _ undefined => intros ? ? ? ?; discriminate
  end.

Lemma IncrementPrgrm_pwrs_length odd even :
  returns (fun pwrs => length pwrs = 30%nat) (IncrementPrgrm_pwrs odd even).
Proof.
  assert (H0 : length (repeat F32.zero (2 * NO_LASER_DIODES)) = 30%nat) by reflexivity.
  unfold IncrementPrgrm_pwrs.
  generalize dependent (repeat F32.zero (2 * NO_LASER_DIODES)). intros pwrs H0.
  do 2 (apply returns_bind; intro).
  destruct (MODE_eqb a SYNC && negb a0); [|destruct (MODE_eqb a WARMUP)].
  - unfold sync_step. repeat returns_step.
  - unfold warmup_step. repeat returns_step.
  - apply returns_for_loop; [|assumption]. intros i pw Hpw.
    unfold field_step. repeat returns_step.
Qed.

#[global] Arguments PWR_START : simpl never.
#[global] Arguments PWR_MIN : simpl never.
#[global] Arguments PWR_MAX : simpl never.
#[global] Arguments PWR_CAP : simpl never.
#[global] Arguments PW_MAX : simpl never.
#[global] Arguments PW_LSCI : simpl never.

Lemma for_loop_stateless {A} (body : nat -> A -> M A) c :
  forall count first a,
    (forall n a, (first <= n < first + count)%nat -> exists a', body n a c = Some (a', c)) ->
    exists a', for_loop first count body a c = Some (a', c).
Proof.
  induction count as [|n IH]; intros first a Hb.
  - exists a. reflexivity.
  - rewrite for_loop_S. unfold bind.
    destruct (Hb first a) as [a1 E]; [lia|]. rewrite E.
    apply IH. intros k b Hk. apply Hb. lia.
Qed.

Lemma nth_error_defined {A} (l : list A) i :
  (i < length l)%nat -> exists x, nth_error l i = Some x.
Proof.
  intro H. destruct (nth_error l i) eqn:E; [eauto|].
  apply nth_error_None in E. lia.
Qed.

Lemma step_index_bound (n size : Z) :
  0 < size -> (Z.to_nat (wrap32 (n mod size)) < Z.to_nat size)%nat.
Proof.
  intro H. unfold wrap32.
  pose proof (Z.mod_pos_bound n size H).
  pose proof (Z.mod_pos_bound (n mod size) (2 ^ 32) ltac:(lia)).
  assert (n mod size mod 2 ^ 32 <= n mod size) by (apply Z.mod_le; lia).
  lia.
Qed.

Lemma step_defined (p : prgrm) n :
  p <> [] -> exists step, nth_error p (Z.to_nat (wrap32 (n mod Z.of_nat (length p)))) = Some step.
Proof.
  intro Hne. apply nth_error_defined.
  assert (0 < Z.of_nat (length p)) by (destruct p; [congruence | cbn; lia]).
  pose proof (step_index_bound n _ H). lia.
Qed.

Ltac run_for_loop :=
  match goal with
  | |- context [for_loop ?first ?count ?body ?a ?c] =>
      let r := fresh "pwrs" in
      let Hr := fresh "Hloop" in
      destruct (for_loop_stateless body c count first a) as [r Hr];
      [ | rewrite Hr ]
  end.

Lemma field_step_defined odd even f pwrs c :
  mPrgrm c <> [] ->
  Forall (fun step => (NO_LASER_DIODES <= length (fst step))%nat) (mPrgrm c) ->
  exists pwrs' c', field_step odd even f pwrs c = Some (pwrs', c').
Proof.
  intros Hne Hall.
  destruct c as [mode p cnt off fi qp qf qr sy oq iq rp lg].
  cbn [mPrgrm] in *.
  assert (Hsize : (Z.of_nat (length p) =? 0) = false)
    by (destruct p; [congruence | cbn; lia]).
  destruct (step_defined p (wrap32 (cnt - off)) Hne) as [fstep Hf].
  destruct (step_defined p cnt Hne) as [pstep Hp].
  assert (Hw : forall n, (n < 15)%nat -> exists w, nth_error (fst pstep) n = Some w).
  { intros n Hn. apply nth_error_defined.
    rewrite Forall_forall in Hall. apply nth_error_In in Hp. apply Hall in Hp.
    unfold NO_LASER_DIODES in Hp. lia. }
  unfold field_step. unfold_monad. cbn. rewrite Hsize. cbn.
  destruct (off <=? cnt); cbn.
  - rewrite Hf. cbn. destruct qp as [|x qp]; cbn;
      (destruct (full_pass_count (Z.of_nat (length p)) off <=? cnt); cbn;
       [destruct qf as [|y qf]; cbn|]);
      (run_for_loop; [|eauto]; intros n a Hn; rewrite Hp; cbn;
       destruct (Hw n) as [w ->]; [unfold NO_LASER_DIODES in Hn; lia|]; cbn;
       destruct (F32.gtb w (F32.of_Z 0)); eauto).
  - (destruct (full_pass_count (Z.of_nat (length p)) off <=? cnt); cbn;
       [destruct qf as [|y qf]; cbn|]);
      (run_for_loop; [|eauto]; intros n a Hn; rewrite Hp; cbn;
       destruct (Hw n) as [w ->]; [unfold NO_LASER_DIODES in Hn; lia|]; cbn;
       destruct (F32.gtb w (F32.of_Z 0)); eauto).
Qed.

Lemma warmup_step_defined pwrs c :
  (2 <= length (mPrgrm c))%nat ->
  Forall (fun step => (NO_LASER_DIODES <= length (fst step))%nat) (mPrgrm c) ->
  exists pwrs' c', warmup_step pwrs c = Some (pwrs', c').
Proof.
  intros Hlen Hall.
  destruct c as [mode p cnt off fi qp qf qr sy oq iq rp lg].
  cbn [mPrgrm] in *.
  destruct p as [|s0 [|s1 p]]; cbn in Hlen; try lia.
  inversion Hall as [|? ? H0 Hall']; subst. inversion Hall' as [|? ? H1 _]; subst.
  unfold NO_LASER_DIODES in *.
  unfold warmup_step. unfold_monad. cbn.
  run_for_loop; [|eauto]. intros n a Hn. cbn. unfold NO_LASER_DIODES in Hn.
  destruct (nth_error_defined (fst s0) n) as [x0 ->]; [lia|].
  destruct (nth_error_defined (fst s1) n) as [x1 ->]; [lia|].
  cbn. eauto.
Qed.

Lemma sync_step_defined odd pwrs c :
  exists pwrs' c', sync_step odd pwrs c = Some (pwrs', c').
Proof.
  destruct c as [mode p cnt off fi qp qf qr sy oq iq rp lg].
  unfold sync_step. unfold_monad. cbn.
  destruct (off =? 0); cbn.
  - run_for_loop; [|eauto]. intros; cbn; eauto.
  - destruct (sync_pulse_arrived odd); cbn; eauto.
Qed.

Lemma IncrementPrgrm_pwrs_defined odd even c :
  prgrm_ok c -> exists pwrs c1, IncrementPrgrm_pwrs odd even c = Some (pwrs, c1).
Proof.
  intros (Hne & Hall & Hwarm).
  unfold IncrementPrgrm_pwrs. unfold bind at 1 2. unfold gets.
  destruct (MODE_eqb (mMode c) SYNC && negb (mSynced c)).
  - apply sync_step_defined.
  - destruct (MODE_eqb (mMode c) WARMUP) eqn:E.
    + apply warmup_step_defined; [|assumption].
      apply Hwarm. destruct (mMode c); try discriminate; reflexivity.
    + rewrite for_loop_S. unfold bind.
      destruct (field_step_defined odd even 0 (repeat F32.zero (2 * NO_LASER_DIODES)) c)
        as (p1 & c1 & E1); [assumption..|]. rewrite E1.
      rewrite for_loop_S. unfold bind.
      destruct (keeps_field_step _ _ _ _ _ _ _ E1) as (_ & Hp & _).
      destruct (field_step_defined odd even 1 p1 c1) as (p2 & c2 & E2);
        [rewrite Hp; assumption..|]. rewrite E2.
      do 2 eexists. reflexivity.
Qed.

(** The whole per-frame operation, under [prgrm_ok]. *)
Lemma IncrementPrgrm_defined odd even c :
  prgrm_ok c -> exists c', IncrementPrgrm odd even c = Some (tt, c').
Proof.
  intro Hok. destruct (IncrementPrgrm_pwrs_defined odd even c Hok) as (pwrs & c1 & E).
  unfold IncrementPrgrm, bind. rewrite E.
  destruct (IncrementPrgrm_send_spec even pwrs c1) as (c' & -> & _). eauto.
Qed.

(** The outbound record and the frame id after one invocation. *)
Lemma IncrementPrgrm_record odd even c c' :
  IncrementPrgrm odd even c = Some (tt, c') ->
  exists pwrs c1,
    IncrementPrgrm_pwrs odd even c = Some (pwrs, c1)
    /\ length pwrs = 30%nat
    /\ mOutputQueue c' =
         mOutputQueue c ++ [{| fid := int_of_uint (mFid c);
                               pws := sent_widths (mMode c) pwrs |}]
    /\ mFid c' = wrap32 (mFid c + 1)
    /\ mMode c' = mMode c /\ mPrgrm c' = mPrgrm c
    /\ mPrgrmCount c' = mPrgrmCount c1 /\ mBufferOffset c' = mBufferOffset c1
    /\ mSynced c' = mSynced c1.
Proof.
  unfold IncrementPrgrm, bind. intro H.
  destruct (IncrementPrgrm_pwrs odd even c) as [[pwrs c1]|] eqn:E; [|discriminate].
  destruct (keeps_IncrementPrgrm_pwrs _ _ _ _ _ E) as (K1 & K2 & K3 & K4 & K5).
  destruct (IncrementPrgrm_send_spec even pwrs c1)
    as (c2 & E2 & S1 & S2 & S3 & S4 & S5 & S6 & S7 & _).
  rewrite E2 in H. injection H as <-.
  exists pwrs, c1. split; [reflexivity|].
  split; [exact (IncrementPrgrm_pwrs_length _ _ _ _ _ E)|].
  rewrite S1, S2, S3, S4, S5, S6, S7, K1, K2, K3, K4. repeat split.
Qed.

(** ** Effect of the two halves on counters and rotation state *)

Lemma for_loop_state {A} (body : nat -> A -> M A) :
  (forall n a c a' c', body n a c = Some (a', c') -> c' = c) ->
  forall count first a c a' c',
    for_loop first count body a c = Some (a', c') -> c' = c.
Proof.
  intros Hb. induction count as [|n IH]; intros first a c a' c' H.
  - unfold for_loop, ret in H. congruence.
  - rewrite for_loop_S in H. unfold bind in H.
    destruct (body first a c) as [[a1 c1]|] eqn:E; [|discriminate].
    apply Hb in E. subst c1. eapply IH, H.
Qed.

Ltac split_branches_in H :=
  repeat (match type of H with
          | context [match ?x with _ => _ end] =>
              lazymatch x with
              | context [match _ with _ => _ end] => fail
              | _ => destruct x eqn:?
              end
          end; cbn in H; try discriminate H).

Lemma weights_loop_state (p : prgrm) idx f newPwr :
  forall n a c a' c',
    (step <- at_index p idx;;
     w <- at_index (fst step) n;;
     if F32.gtb w (F32.of_Z 0)
     then ret (array_set a (f * NO_LASER_DIODES + n) (F32.mul newPwr w))
     else ret a) c = Some (a', c') -> c' = c.
Proof.
  intros n a c a' c' H. unfold_monad.
  destruct (nth_error p idx) as [step|]; [|discriminate]. cbn in H.
  destruct (nth_error (fst step) n) as [w|]; [|discriminate]. cbn in H.
  destruct (F32.gtb w (F32.of_Z 0)); congruence.
Qed.

Lemma field_step_effect odd even f pwrs c pwrs' c' :
  field_step odd even f pwrs c = Some (pwrs', c') ->
  mPrgrmCount c' = wrap32 (mPrgrmCount c + 1)
  /\ mBufferOffset c' = mBufferOffset c
  /\ mRotBuffer c' = mRotBuffer c
  /\ mRotnPositions c' = mRotnPositions c
  /\ mSynced c' = mSynced c.
Proof.
  destruct c as [mode p cnt off fi qp qf qr sy oq iq rp lg].
  unfold field_step. unfold bind at 1. unfold gets at 1. cbn [mPrgrm].
  destruct (Z.of_nat (length p) =? 0); [discriminate|].
  unfold bind at 1 2. unfold gets at 1 2. cbn [mPrgrmCount mBufferOffset].
  unfold bind at 1.
  match goal with
  | |- context [match ?m ?c with _ => _ end] =>
      destruct (m c) as [[[] c1]|] eqn:E1; [|discriminate]
  end.
  assert (K1 : mPrgrmCount c1 = cnt /\ mBufferOffset c1 = off /\ mRotBuffer c1 = qr
               /\ mRotnPositions c1 = rp /\ mSynced c1 = sy).
  { destruct (off <=? cnt).
    - unfold_monad. destruct (nth_error p _) as [st|]; [|discriminate]. cbn in E1.
      destruct qp; cbn in E1; injection E1 as <-; repeat split.
    - unfold ret in E1. injection E1 as <-. repeat split. }
  destruct K1 as (Kc & Ko & Kr & Kp & Ks).
  unfold bind at 1.
  match goal with
  | |- context [match ?m ?c with _ => _ end] =>
      destruct (m c) as [[newPwr c2]|] eqn:E2; [|discriminate]
  end.
  assert (K2 : mPrgrmCount c2 = cnt /\ mBufferOffset c2 = off /\ mRotBuffer c2 = qr
               /\ mRotnPositions c2 = rp /\ mSynced c2 = sy).
  { destruct (full_pass_count (Z.of_nat (length p)) off <=? cnt).
    - unfold_monad. destruct c1; cbn in *.
      split_branches_in E2; injection E2 as <- <-; repeat split; assumption.
    - unfold ret in E2. injection E2 as <- <-. repeat split; assumption. }
  clear E1 E2 Kc Ko Kr Kp Ks. destruct K2 as (Kc & Ko & Kr & Kp & Ks).
  unfold bind at 1. unfold modify at 1.
  unfold bind at 1.
  match goal with
  | |- context [for_loop ?a ?b ?body ?x ?c] =>
      destruct (for_loop a b body x c) as [[pw c3]|] eqn:E3; [|discriminate]
  end.
  apply for_loop_state in E3; [|intros; eapply weights_loop_state; eassumption].
  subst c3. unfold bind, modify, ret. intro H. injection H as <- <-.
  destruct c2; cbn in *. subst. repeat split.
Qed.

(** In the modes that run the two-field loop. *)
Lemma IncrementPrgrm_pwrs_fields odd even c pwrs c1 :
  MODE_eqb (mMode c) SYNC && negb (mSynced c) = false ->
  MODE_eqb (mMode c) WARMUP = false ->
  IncrementPrgrm_pwrs odd even c = Some (pwrs, c1) ->
  mPrgrmCount c1 = wrap32 (wrap32 (mPrgrmCount c + 1) + 1)
  /\ mBufferOffset c1 = mBufferOffset c
  /\ mRotBuffer c1 = mRotBuffer c
  /\ mRotnPositions c1 = mRotnPositions c
  /\ mSynced c1 = mSynced c.
Proof.
  intros Hs Hw. unfold IncrementPrgrm_pwrs. unfold bind at 1 2. unfold gets.
  rewrite Hs, Hw. rewrite for_loop_S. unfold bind at 1.
  destruct (field_step odd even 0 _ c) as [[p1 c2]|] eqn:E1; [|discriminate].
  rewrite for_loop_S. unfold bind at 1.
  destruct (field_step odd even 1 p1 c2) as [[p2 c3]|] eqn:E2; [|discriminate].
  unfold for_loop, ret. intro H. injection H as <- <-.
  apply field_step_effect in E1, E2.
  destruct E1 as (A1 & A2 & A3 & A4 & A5), E2 as (B1 & B2 & B3 & B4 & B5).
  rewrite B1, B2, B3, B4, B5, A1, A2, A3, A4, A5. repeat split.
Qed.

Lemma IncrementPrgrm_send_rotation even pwrs c c' :
  mMode c = LSCI ->
  IncrementPrgrm_send even pwrs c = Some (tt, c') ->
  mRotBuffer c' =
    (if rotation_gate c then snd (try_dequeue (mRotBuffer c) F32.zero) else mRotBuffer c)
    ++ [rotation_power even c]
  /\ mRotnPositions c' = mRotnPositions c ++ [Power2RotnAngle (rotation_power even c)].
Proof.
  destruct c as [mode p cnt off f qp qf qr sy oq iq rp lg]. cbn [mMode]. intros ->.
  unfold IncrementPrgrm_send, rotation_step, rotation_power, rotation_gate.
  unfold_monad. cbn.
  destruct (wrap32 (off - 20) <=? cnt); cbn.
  - destruct qr as [|x qr]; cbn; destruct iq as [|e iq]; cbn;
      try destruct (in_fid e =? FID_ERROR); cbn;
      intro H; injection H as <-; split; reflexivity.
  - destruct iq as [|e iq]; cbn;
      try destruct (in_fid e =? FID_ERROR); cbn;
      intro H; injection H as <-; split; reflexivity.
Qed.

(** ** The SYNC procedure *)

Lemma sync_flash_loop c :
  for_loop 0 NO_LASER_DIODES
    (fun i pwrs => ret (array_set pwrs i (F32.of_Z 1)))
    (repeat F32.zero (2 * NO_LASER_DIODES)) c
  = Some (repeat (F32.of_Z 1) 15 ++ repeat F32.zero 15, c).
Proof. reflexivity. Qed.

Lemma IncrementPrgrm_pwrs_sync odd even c :
  mMode c = SYNC -> mSynced c = false ->
  exists pwrs c1,
    IncrementPrgrm_pwrs odd even c = Some (pwrs, c1)
    /\ mPrgrmCount c1 = wrap32 (mPrgrmCount c + 2)
    /\ (if mBufferOffset c =? 0
        then pwrs = repeat (F32.of_Z 1) 15 ++ repeat F32.zero 15
             /\ mBufferOffset c1 = 2 /\ mSynced c1 = false
        else pwrs = repeat F32.zero 30
             /\ if sync_pulse_arrived odd
                then mSynced c1 = true /\ mBufferOffset c1 = mBufferOffset c
                else mSynced c1 = false
                     /\ mBufferOffset c1 = wrap32 (mBufferOffset c + 2)).
Proof.
  destruct c as [mode p cnt off f qp qf qr sy oq iq rp lg]. cbn [mMode mSynced].
  intros -> ->.
  unfold IncrementPrgrm_pwrs, sync_step. unfold_monad. cbn.
  destruct (off =? 0) eqn:E; cbn.
  - rewrite sync_flash_loop. cbn. do 2 eexists. split; [reflexivity|]. cbn.
    apply Z.eqb_eq in E. subst off. repeat split.
  - destruct (sync_pulse_arrived odd); cbn;
      do 2 eexists; (split; [reflexivity|]); cbn; repeat split.
Qed.

(** ** binary32 rounding *)

Lemma digits2_pos_bounds (m : positive) :
  2 ^ (Zpos (digits2_pos m) - 1) <= Zpos m < 2 ^ Zpos (digits2_pos m).
Proof.
  induction m as [m IH|m IH|]; cbn [digits2_pos].
  - rewrite Pos2Z.inj_succ. replace (Z.succ (Zpos (digits2_pos m)) - 1) with (Z.succ (Zpos (digits2_pos m) - 1)) by lia.
    rewrite !Z.pow_succ_r by lia. lia.
  - rewrite Pos2Z.inj_succ. replace (Z.succ (Zpos (digits2_pos m)) - 1) with (Z.succ (Zpos (digits2_pos m) - 1)) by lia.
    rewrite !Z.pow_succ_r by lia. lia.
  - cbn. lia.
Qed.

Lemma pow2_lt_mono (a b : Z) : 0 <= a -> 2 ^ a < 2 ^ b -> a < b.
Proof.
  intros Ha H. destruct (Z_lt_ge_dec a b) as [L|L]; [exact L|].
  destruct (Z_lt_ge_dec b 0) as [Lb|Lb].
  - rewrite (Z.pow_neg_r 2 b Lb) in H. pose proof (Z.pow_pos_nonneg 2 a). lia.
  - pose proof (Z.pow_le_mono_r 2 b a). lia.
Qed.

Lemma digits2_pos_unique (m : positive) (d : Z) :
  2 ^ (d - 1) <= Zpos m < 2 ^ d -> Zpos (digits2_pos m) = d.
Proof.
  intros [H1 H2]. pose proof (digits2_pos_bounds m) as [B1 B2].
  assert (0 < d).
  { destruct (Z_lt_ge_dec 0 d); [assumption|].
    assert (2 ^ d <= 1). { destruct (Z.eq_dec d 0) as [->|]; [cbn; lia|]. rewrite Z.pow_neg_r by lia. lia. }
    lia. }
  assert (Zpos (digits2_pos m) - 1 < d) by (apply pow2_lt_mono; lia).
  assert (d - 1 < Zpos (digits2_pos m)) by (apply pow2_lt_mono; lia).
  lia.
Qed.

Lemma iter_pos_nat {A} (f : A -> A) (p : positive) (x : A) :
  SpecFloat.iter_pos f p x = Nat.iter (Pos.to_nat p) f x.
Proof.
  revert x. induction p as [p IH|p IH|]; intro x; cbn [SpecFloat.iter_pos].
  - rewrite !IH. rewrite Pos2Nat.inj_xI. cbn [Nat.iter Nat.mul].
    rewrite Nat.add_0_r, <- Nat.iter_add, Nat.iter_succ_r. reflexivity.
  - rewrite !IH. rewrite Pos2Nat.inj_xO. cbn [Nat.mul].
    rewrite Nat.add_0_r, <- Nat.iter_add. reflexivity.
  - reflexivity.
Qed.



Lemma shr_1_spec r :
  0 <= shr_m r ->
  shr_m (shr_1 r) = shr_m r / 2
  /\ inexact (shr_1 r) = Z.odd (shr_m r) || inexact r.
Proof.
  destruct r as [m r s]. unfold inexact. cbn [shr_m shr_r shr_s]. intro Hm.
  destruct m as [|[p|p|]|]; cbn [shr_1 shr_m shr_r shr_s]; try lia.
  - split; reflexivity.
  - split; [apply (Z.div_unique _ 2 _ 1); lia | reflexivity].
  - split; [apply (Z.div_unique _ 2 _ 0); lia | reflexivity].
  - split; reflexivity.
Qed.

Lemma mod_pow2_succ (m n : Z) :
  0 <= n ->
  (m mod 2 ^ (Z.succ n) =? 0) = negb (Z.odd m) && ((m / 2) mod 2 ^ n =? 0).
Proof.
  intro Hn. rewrite Z.pow_succ_r by assumption.
  assert (0 < 2 ^ n) by (apply Z.pow_pos_nonneg; lia).
  rewrite Z.rem_mul_r by lia. rewrite Zmod_odd.
  pose proof (Z.mod_pos_bound (m / 2) (2 ^ n) H).
  destruct (Z.odd m); cbn [negb andb].
  - apply Z.eqb_neq. lia.
  - destruct ((m / 2) mod 2 ^ n =? 0) eqn:E.
    + apply Z.eqb_eq in E. apply Z.eqb_eq. lia.
    + apply Z.eqb_neq in E. apply Z.eqb_neq. lia.
Qed.

Lemma shr_iter_spec (n : nat) r :
  0 <= shr_m r ->
  shr_m (Nat.iter n shr_1 r) = shr_m r / 2 ^ Z.of_nat n
  /\ inexact (Nat.iter n shr_1 r) = inexact r || negb (shr_m r mod 2 ^ Z.of_nat n =? 0).
Proof.
  revert r. induction n as [|n IH]; intros r Hm.
  - cbn [Nat.iter Z.of_nat]. rewrite Z.pow_0_r, Z.div_1_r, Z.mod_1_r. cbn.
    rewrite orb_false_r. split; reflexivity.
  - rewrite Nat.iter_succ_r. destruct (shr_1_spec r Hm) as [H1 H2].
    destruct (IH (shr_1 r)) as [I1 I2].
    { rewrite H1. apply Z.div_pos; lia. }
    rewrite Nat2Z.inj_succ. split.
    + rewrite I1, H1. rewrite Z.pow_succ_r by lia.
      rewrite Z.div_div by (try lia; apply Z.pow_pos_nonneg; lia). reflexivity.
    + rewrite I2, H2, H1. rewrite mod_pow2_succ by lia.
      destruct (Z.odd (shr_m r)), (inexact r), (shr_m r / 2 mod 2 ^ Z.of_nat n =? 0);
        reflexivity.
Qed.

Lemma shr_spec r e k :
  0 <= shr_m r -> 0 <= k ->
  snd (shr r e k) = e + k
  /\ shr_m (fst (shr r e k)) = shr_m r / 2 ^ k
  /\ inexact (fst (shr r e k)) = inexact r || negb (shr_m r mod 2 ^ k =? 0).
Proof.
  intros Hm Hk. destruct k as [|p|p]; [| |lia].
  - cbn [shr fst snd]. rewrite Z.add_0_r, Z.pow_0_r, Z.div_1_r, Z.mod_1_r. cbn.
    rewrite orb_false_r. repeat split.
  - cbn [shr fst snd]. rewrite iter_pos_nat.
    destruct (shr_iter_spec (Pos.to_nat p) r Hm) as [H1 H2].
    rewrite positive_nat_Z in H1, H2. repeat split; assumption.
Qed.

Lemma shr_nonpos r e k : k <= 0 -> shr r e k = (r, e).
Proof. destruct k; [reflexivity|lia|reflexivity]. Qed.

Lemma round_nearest_even_bounds r :
  shr_m r <= round_nearest_even (shr_m r) (loc_of_shr_record r) <= shr_m r + 1
  /\ (inexact r = false ->
      round_nearest_even (shr_m r) (loc_of_shr_record r) = shr_m r).
Proof.
  destruct r as [m [|] [|]]; unfold inexact; cbn;
    try destruct (Z.even m); split; try lia; try discriminate; reflexivity.
Qed.



Lemma fexp_eq e : fexp 24 128 e = fexp32 e.
Proof. reflexivity. Qed.


Lemma div_pow2_bounds (m d k : Z) :
  0 <= k -> k <= d -> 2 ^ (d - 1) <= m < 2 ^ d ->
  m / 2 ^ k < 2 ^ (d - k) /\ (k < d -> 2 ^ (d - k - 1) <= m / 2 ^ k).
Proof.
  intros Hk Hd [H1 H2].
  assert (P : 0 < 2 ^ k) by (apply Z.pow_pos_nonneg; lia).
  split.
  - apply Z.div_lt_upper_bound; [exact P|].
    rewrite <- Z.pow_add_r by lia. replace (k + (d - k)) with d by lia. exact H2.
  - intro L. apply Z.div_le_lower_bound; [exact P|].
    rewrite <- Z.pow_add_r by lia. replace (k + (d - k - 1)) with (d - 1) by lia. exact H1.
Qed.

Lemma div_pow2_small (m d k : Z) :
  0 <= m < 2 ^ d -> 0 <= d -> d <= k -> m / 2 ^ k = 0.
Proof.
  intros H Hd Hk. apply Z.div_small. split; [lia|].
  pose proof (Z.pow_le_mono_r 2 d k). lia.
Qed.

Lemma round_aux_struct (s : bool) (mx : positive) (ex : Z) :
  let e' := fexp32 (Zpos (digits2_pos mx) + ex) in
  let k := e' - ex in
  0 <= k ->
  exists m',
    Zpos mx / 2 ^ k <= m' <= Zpos mx / 2 ^ k + 1
    /\ (Zpos mx mod 2 ^ k = 0 -> m' = Zpos mx / 2 ^ k)
    /\ m' <= 16777216
    /\ (-149 < e' -> 8388608 <= m')
    /\ binary_round_aux 24 128 s (Zpos mx) ex loc_Exact = pack s m' e'.
Proof.
  intros e' k Hk.
  pose proof (digits2_pos_bounds mx) as Hd.
  set (d := Zpos (digits2_pos mx)) in *.
  unfold binary_round_aux, shr_fexp. cbn [Zdigits2 shr_record_of_loc].
  rewrite fexp_eq. fold d. fold e'. fold k.
  set (r0 := {| shr_m := Zpos mx; shr_r := false; shr_s := false |}).
  destruct (shr_spec r0 ex k) as (S1 & S2 & S3); [cbn; lia | exact Hk |].
  destruct (shr r0 ex k) as [r1 e1]. cbn [fst snd] in S1, S2, S3.
  unfold r0 in S2, S3. cbn [shr_m] in S2, S3.
  change (inexact {| shr_m := Zpos mx; shr_r := false; shr_s := false |}) with false in S3.
  cbn [orb] in S3.
  replace (ex + k) with e' in S1 by (unfold k; lia). subst e1.
  destruct (round_nearest_even_bounds r1) as [R1 R2].
  set (m' := round_nearest_even (shr_m r1) (loc_of_shr_record r1)) in *.
  rewrite S2 in R1, R2.
  assert (Q0 : 0 <= Zpos mx / 2 ^ k) by (apply Z.div_pos; [lia | apply Z.pow_pos_nonneg; lia]).
  (* magnitude of the shifted mantissa *)
  assert (Hhi : Zpos mx / 2 ^ k < 16777216 /\ (-149 < e' -> 8388608 <= Zpos mx / 2 ^ k)
                /\ (e' = -149 -> Zpos mx / 2 ^ k < 8388608 \/ d + ex - 24 = -149)).
  { unfold fexp32 in e'.
    destruct (Z_le_gt_dec k d) as [Lk|Lk].
    - destruct (div_pow2_bounds (Zpos mx) d k Hk Lk Hd) as [B1 B2].
      assert (d - k <= 24) by lia.
      pose proof (Z.pow_le_mono_r 2 (d - k) 24 ltac:(lia) H) as P1.
      change (2 ^ 24) with 16777216 in P1.
      split; [lia|]. split.
      + intro He. assert (d - k = 24) by lia. assert (k < d) by lia.
        specialize (B2 H1). replace (d - k - 1) with 23 in B2 by lia.
        change (2 ^ 23) with 8388608 in B2. exact B2.
      + intro He. destruct (Z.eq_dec (d + ex - 24) (-149)) as [Eq|Ne]; [right; exact Eq|left].
        assert (d - k <= 23) by lia.
        pose proof (Z.pow_le_mono_r 2 (d - k) 23 ltac:(lia) H0) as P2.
        change (2 ^ 23) with 8388608 in P2. lia.
    - assert (Zpos mx / 2 ^ k = 0) as ->.
      { apply (div_pow2_small _ d); unfold d in *; lia. }
      split; [lia|]. split; intro; [lia|left; lia]. }
  destruct Hhi as (Hlt & Hnorm & Hsub).
  remember (Zpos mx / 2 ^ k) as q eqn:Eq_q.
  exists m'. split; [exact R1|]. split.
  { intro Hz. apply R2. rewrite S3, Hz. reflexivity. }
  split; [lia|]. split; [intro; specialize (Hnorm H); lia|].
  (* the second normalisation *)
  unfold pack. destruct (m' =? 0) eqn:E0.
  - apply Z.eqb_eq in E0. rewrite E0. cbn [Zdigits2 shr_record_of_loc].
    rewrite shr_nonpos; [reflexivity|].
    rewrite fexp_eq. unfold fexp32 in *. lia.
  - apply Z.eqb_neq in E0.
    destruct m' as [|p'|p'] eqn:Em; [congruence| |lia].
    cbn [Zdigits2 shr_record_of_loc]. rewrite fexp_eq.
    pose proof (digits2_pos_bounds p') as Hd'.
    set (d' := Zpos (digits2_pos p')) in *.
    destruct (Zpos p' =? 16777216) eqn:E1.
    + apply Z.eqb_eq in E1. injection E1 as ->.
      replace (fexp32 (d' + e') - e') with 1
        by (unfold d'; cbn [digits2_pos Pos.succ]; unfold fexp32 in *; lia).
      cbn [shr SpecFloat.iter_pos shr_1 fst snd shr_m].
      reflexivity.
    + apply Z.eqb_neq in E1.
      assert (D1 : d' <= 24).
      { assert (d' - 1 < 24); [|lia]. apply pow2_lt_mono; [unfold d'; lia|].
        change (2 ^ 24) with 16777216. lia. }
      assert (D2 : -149 < e' -> d' = 24).
      { intro He. specialize (Hnorm He).
        assert (23 < d'); [|lia]. apply pow2_lt_mono; [lia|].
        change (2 ^ 23) with 8388608. lia. }
      rewrite shr_nonpos; [cbn [shr_m]; reflexivity|].
      unfold fexp32 in *. lia.
Qed.




Lemma bounded_spec m e :
  bounded 24 128 m e = true <->
  fexp32 (Zpos (digits2_pos m) + e) = e /\ e <= 104.
Proof.
  unfold bounded, canonical_mantissa. rewrite fexp_eq.
  rewrite andb_true_iff, Z.eqb_eq, Z.leb_le.
  change (128 - 24) with 104. tauto.
Qed.

Lemma bounded_digits m e :
  bounded 24 128 m e = true ->
  -149 <= e <= 104
  /\ Zpos (digits2_pos m) <= 24
  /\ (-149 < e -> Zpos (digits2_pos m) = 24).
Proof.
  intro H. apply bounded_spec in H. destruct H as [H1 H2].
  unfold fexp32 in H1. lia.
Qed.

Lemma pow2_pos n : 0 <= n -> 0 < 2 ^ n.
Proof. intro. apply Z.pow_pos_nonneg; lia. Qed.

Lemma pow2_le a b : 0 <= a -> a <= b -> 2 ^ a <= 2 ^ b.
Proof. intros. apply Z.pow_le_mono_r; lia. Qed.

Lemma pow2_split a b : 0 <= a -> a <= b -> 2 ^ b = 2 ^ (b - a) * 2 ^ a.
Proof.
  intros. rewrite <- Z.pow_add_r by lia. f_equal. lia.
Qed.

Lemma fexp32_mono a b : a <= b -> fexp32 a <= fexp32 b.
Proof. unfold fexp32. lia. Qed.

(** The value of a packed mantissa. *)
Lemma pack_value s m e :
  0 <= m <= 16777216 -> -149 <= e -> (-149 < e -> 8388608 <= m) ->
  (pack s m e = S754_infinity s /\ 2 ^ 426 <= m * 2 ^ (e + 298))
  \/ (fin (pack s m e) = true /\ V (pack s m e) = cond_Zopp s (m * 2 ^ (e + 298))).
Proof.
  intros Hm He Hn. unfold pack.
  destruct (m =? 0) eqn:E0.
  - right. apply Z.eqb_eq in E0. subst m. split; [reflexivity|].
    destruct s; reflexivity.
  - apply Z.eqb_neq in E0. destruct (m =? 16777216) eqn:E1.
    + apply Z.eqb_eq in E1. subst m.
      destruct (e + 1 <=? 104) eqn:E2.
      * right. apply Z.leb_le in E2. split.
        -- cbn [fin]. apply bounded_spec. cbn [digits2_pos Pos.succ]. unfold fexp32. lia.
        -- cbn [V]. f_equal. replace (e + 1 + 298) with (Z.succ (e + 298)) by lia.
           rewrite Z.pow_succ_r by lia. lia.
      * left. apply Z.leb_gt in E2. split; [reflexivity|].
        rewrite (pow2_split 402 (e + 298)) by lia.
        pose proof (pow2_pos (e + 298 - 402) ltac:(lia)).
        change (2 ^ 426) with (16777216 * 2 ^ 402).
        pose proof (pow2_pos 402 ltac:(lia)). nia.
    + apply Z.eqb_neq in E1. destruct m as [|p|p]; [congruence| |lia].
      cbn [Z.to_pos].
      pose proof (digits2_pos_bounds p) as Hd.
      assert (D1 : Zpos (digits2_pos p) <= 24).
      { assert (Zpos (digits2_pos p) - 1 < 24); [|lia]. apply pow2_lt_mono; [lia|].
        change (2 ^ 24) with 16777216. lia. }
      assert (D2 : -149 < e -> Zpos (digits2_pos p) = 24).
      { intro L. specialize (Hn L).
        assert (23 < Zpos (digits2_pos p)); [|lia]. apply pow2_lt_mono; [lia|].
        change (2 ^ 23) with 8388608. lia. }
      destruct (e <=? 104) eqn:E2.
      * right. apply Z.leb_le in E2. split; [|reflexivity].
        cbn [fin]. apply bounded_spec. unfold fexp32. lia.
      * left. apply Z.leb_gt in E2. split; [reflexivity|].
        rewrite (pow2_split 403 (e + 298)) by lia.
        pose proof (pow2_pos (e + 298 - 403) ltac:(lia)).
        change (2 ^ 426) with (8388608 * 2 ^ 403).
        pose proof (pow2_pos 403 ltac:(lia)).
        specialize (Hn ltac:(lia)). nia.
Qed.

Lemma fin_V_bound x : fin x = true -> - 2 ^ 426 < V x < 2 ^ 426.
Proof.
  destruct x as [s|s| |s m e]; cbn [fin V]; try discriminate;
    try (intros _; pose proof (pow2_pos 426); lia).
  intro H. apply bounded_digits in H. destruct H as (He & Hd & _).
  pose proof (digits2_pos_bounds m) as [_ Hm].
  pose proof (pow2_le (Zpos (digits2_pos m)) 24 ltac:(lia) Hd) as P.
  change (2 ^ 24) with 16777216 in P.
  pose proof (pow2_le (e + 298) 402 ltac:(lia) ltac:(lia)).
  pose proof (pow2_pos (e + 298) ltac:(lia)).
  change (2 ^ 426) with (16777216 * 2 ^ 402).
  destruct s; cbn [cond_Zopp]; nia.
Qed.


Section RoundBounds.

Variables (mx : positive) (ex : Z) (m' : Z) (mb : positive) (eb : Z).

Let d := Zpos (digits2_pos mx).
Let e' := fexp32 (d + ex).
Let k := e' - ex.
Let q := Zpos mx / 2 ^ k.

Hypothesis Hk : 0 <= k.
Hypothesis Hex : -298 <= ex.
Hypothesis Hb : bounded 24 128 mb eb = true.
Hypothesis Hm1 : q <= m' <= q + 1.
Hypothesis Hm2 : Zpos mx mod 2 ^ k = 0 -> m' = q.
Hypothesis Hm3 : -149 < e' -> 8388608 <= m'.

Lemma round_scale : 2 ^ (e' + 298) = 2 ^ k * 2 ^ (ex + 298).
Proof. unfold k. rewrite <- Z.pow_add_r by (unfold k in Hk; lia). f_equal. lia. Qed.

Lemma round_divmod :
  Zpos mx = 2 ^ k * q + Zpos mx mod 2 ^ k /\ 0 <= Zpos mx mod 2 ^ k < 2 ^ k.
Proof.
  pose proof (pow2_pos k Hk). split.
  - unfold q. apply Z.div_mod. lia.
  - apply Z.mod_pos_bound. lia.
Qed.

Lemma round_up_le :
  Zpos mx * 2 ^ (ex + 298) <= Zpos mb * 2 ^ (eb + 298) ->
  m' * 2 ^ (e' + 298) <= Zpos mb * 2 ^ (eb + 298).
Proof.
  intro HX.
  pose proof (bounded_digits _ _ Hb) as (Heb & Hdb & _).
  pose proof (proj1 (bounded_spec _ _) Hb) as [Hcan _].
  pose proof (digits2_pos_bounds mx) as [Hd1 _]. fold d in Hd1.
  pose proof (digits2_pos_bounds mb) as [_ Hd2].
  set (db := Zpos (digits2_pos mb)) in *.
  pose proof (pow2_pos (ex + 298) ltac:(lia)) as PE.
  assert (A1 : d + ex <= db + eb).
  { assert (d - 1 + (ex + 298) < db + (eb + 298)); [|lia].
    assert (0 <= d - 1) by (unfold d; lia).
    assert (0 <= db) by (unfold db; lia).
    apply pow2_lt_mono; [lia|].
    rewrite (Z.pow_add_r 2 (d - 1)), (Z.pow_add_r 2 db) by lia.
    pose proof (pow2_pos (eb + 298) ltac:(lia)) as PB.
    apply Z.le_lt_trans with (Zpos mx * 2 ^ (ex + 298)).
    - apply Z.mul_le_mono_nonneg_r; lia.
    - apply Z.le_lt_trans with (Zpos mb * 2 ^ (eb + 298)); [exact HX|].
      apply Z.mul_lt_mono_pos_r; [exact PB|exact Hd2]. }
  assert (A2 : e' <= eb).
  { rewrite <- Hcan. apply fexp32_mono. exact A1. }
  rewrite (pow2_split (e' + 298) (eb + 298)) in * by (unfold e', fexp32 in *; lia).
  set (j := eb + 298 - (e' + 298)) in *.
  pose proof (pow2_pos j ltac:(unfold j; lia)) as PJ.
  pose proof (pow2_pos k Hk) as PK.
  rewrite round_scale in *.
  destruct round_divmod as [Dq Dr].
  assert (A3 : Zpos mx <= Zpos mb * 2 ^ j * 2 ^ k) by nia.
  assert (A4 : m' <= Zpos mb * 2 ^ j).
  { destruct (Z.eq_dec (Zpos mx mod 2 ^ k) 0) as [Z0|NZ].
    - rewrite (Hm2 Z0). nia.
    - assert (q < Zpos mb * 2 ^ j) by nia. lia. }
  rewrite !Z.mul_assoc. apply Z.mul_le_mono_nonneg_r; [lia|].
  apply Z.mul_le_mono_nonneg_r; lia.
Qed.

Lemma round_down_ge :
  Zpos mb * 2 ^ (eb + 298) <= Zpos mx * 2 ^ (ex + 298) ->
  Zpos mb * 2 ^ (eb + 298) <= m' * 2 ^ (e' + 298).
Proof.
  intro HX.
  pose proof (bounded_digits _ _ Hb) as (Heb & Hdb & _).
  pose proof (digits2_pos_bounds mb) as [_ Hd2].
  set (db := Zpos (digits2_pos mb)) in *.
  pose proof (pow2_pos (ex + 298) ltac:(lia)) as PE.
  pose proof (pow2_pos k Hk) as PK.
  destruct round_divmod as [Dq Dr].
  assert (He' : -149 <= e') by (unfold e', fexp32; lia).
  destruct (Z_le_gt_dec e' eb) as [L|L].
  - rewrite (pow2_split (e' + 298) (eb + 298)) in * by lia.
    set (j := eb + 298 - (e' + 298)) in *.
    pose proof (pow2_pos j ltac:(unfold j; lia)) as PJ.
    rewrite round_scale in *.
    assert (A3 : Zpos mb * 2 ^ j * 2 ^ k <= Zpos mx) by nia.
    assert (A4 : Zpos mb * 2 ^ j <= q) by nia.
    assert (A5 : Zpos mb * 2 ^ j <= m') by lia.
    rewrite !Z.mul_assoc. apply Z.mul_le_mono_nonneg_r; [lia|].
    apply Z.mul_le_mono_nonneg_r; lia.
  - specialize (Hm3 ltac:(lia)).
    pose proof (pow2_le db 24 ltac:(unfold db; lia) Hdb) as P24.
    change (2 ^ 24) with 16777216 in P24.
    rewrite (pow2_split (eb + 298) (e' + 298)) by lia.
    pose proof (pow2_pos (eb + 298) ltac:(lia)) as PB.
    assert (T2 : 2 <= 2 ^ (e' + 298 - (eb + 298))).
    { change 2 with (2 ^ 1) at 1. apply pow2_le; lia. }
    assert (A4 : Zpos mb <= m' * 2 ^ (e' + 298 - (eb + 298))) by nia.
    rewrite Z.mul_assoc. apply Z.mul_le_mono_nonneg_r; lia.
Qed.

End RoundBounds.


Lemma round_aux_between (s : bool) (mx : positive) (ex : Z) (lo hi : spec_float) :
  -298 <= ex ->
  0 <= fexp32 (Zpos (digits2_pos mx) + ex) - ex ->
  fin lo = true -> fin hi = true ->
  V lo <= cond_Zopp s (Zpos mx * 2 ^ (ex + 298)) <= V hi ->
  fin (binary_round_aux 24 128 s (Zpos mx) ex loc_Exact) = true
  /\ V lo <= V (binary_round_aux 24 128 s (Zpos mx) ex loc_Exact) <= V hi.
Proof.
  intros Hex Hk Hlo Hhi HX.
  destruct (round_aux_struct s mx ex Hk) as (m' & M1 & M2 & M3 & M4 & ->).
  set (e' := fexp32 (Zpos (digits2_pos mx) + ex)) in *.
  set (X := Zpos mx * 2 ^ (ex + 298)) in *.
  set (W := m' * 2 ^ (e' + 298)).
  assert (He' : -149 <= e') by (unfold e', fexp32; lia).
  assert (Hq : 0 <= Zpos mx / 2 ^ (e' - ex))
    by (apply Z.div_pos; [lia | apply pow2_pos; lia]).
  assert (HXpos : 0 < X) by (unfold X; pose proof (pow2_pos (ex + 298)); nia).
  assert (HW : 0 <= W) by (unfold W; pose proof (pow2_pos (e' + 298)); nia).
  assert (B : forall b, fin b = true ->
                (X <= V b -> W <= V b) /\ (V b <= X -> V b <= W)
                /\ (- X <= V b -> - W <= V b) /\ (V b <= - X -> V b <= - W)).
  { intros [sb|sb| |sb mb eb] Hb; cbn [fin V] in *; try discriminate;
      try (repeat split; lia).
    pose proof (pow2_pos (eb + 298)
                  ltac:(pose proof (bounded_digits _ _ Hb); lia)) as PB.
    pose proof (round_up_le mx ex m' mb eb Hk Hex Hb M1 M2) as U.
    pose proof (round_down_ge mx ex m' mb eb Hk Hex Hb M1 M2 M4) as L.
    fold e' in U, L. fold X in U, L. fold W in U, L.
    destruct sb; cbn [cond_Zopp]; repeat split; intros; try lia. }
  destruct (B lo Hlo) as (L1 & L2 & L3 & L4).
  destruct (B hi Hhi) as (H1 & H2 & H3 & H4).
  pose proof (fin_V_bound lo Hlo) as Blo.
  pose proof (fin_V_bound hi Hhi) as Bhi.
  destruct (pack_value s m' e') as [[_ Hinf]|[Hfin HV]]; [lia|lia|exact M4| |].
  - fold W in Hinf. exfalso. destruct s; cbn [cond_Zopp] in HX; lia.
  - split; [exact Hfin|]. rewrite HV. fold W.
    destruct s; cbn [cond_Zopp] in *; lia.
Qed.

(** [binary_round] first aligns the mantissa, then rounds. *)
Lemma iter_xO_pow2 (m p : positive) : Zpos (Pos.iter xO m p) = Zpos m * 2 ^ Zpos p.
Proof.
  rewrite (Pos.iter_swap_gen _ _ Zpos xO (Z.mul 2)) by reflexivity.
  change (Pos.iter (Z.mul 2) (Zpos m) p) with (Z.shiftl (Zpos m) (Zpos p)).
  apply Z.shiftl_mul_pow2. lia.
Qed.

Lemma shl_align_spec (mx : positive) (ex ex' : Z) :
  snd (shl_align mx ex ex') = Z.min ex ex'
  /\ Zpos (fst (shl_align mx ex ex')) = Zpos mx * 2 ^ (ex - Z.min ex ex').
Proof.
  unfold shl_align. destruct (ex' - ex) as [|p|p] eqn:E; cbn [fst snd].
  - split; [lia|]. replace (ex - Z.min ex ex') with 0 by lia. cbn. lia.
  - split; [lia|]. replace (ex - Z.min ex ex') with 0 by lia. cbn. lia.
  - split; [lia|]. rewrite iter_xO_pow2. f_equal. f_equal. lia.
Qed.

Lemma digits2_pos_shift (m : positive) (j : Z) (mz : positive) :
  0 <= j -> Zpos mz = Zpos m * 2 ^ j ->
  Zpos (digits2_pos mz) = Zpos (digits2_pos m) + j.
Proof.
  intros Hj E. apply digits2_pos_unique. rewrite E.
  pose proof (digits2_pos_bounds m) as [B1 B2].
  pose proof (pow2_pos j Hj).
  replace (Zpos (digits2_pos m) + j - 1) with (Zpos (digits2_pos m) - 1 + j) by lia.
  rewrite !Z.pow_add_r by lia. split.
  - apply Z.mul_le_mono_nonneg_r; lia.
  - apply Z.mul_lt_mono_pos_r; lia.
Qed.

Lemma binary_round_between (s : bool) (mx : positive) (ex : Z) (lo hi : spec_float) :
  -149 <= ex ->
  fin lo = true -> fin hi = true ->
  V lo <= cond_Zopp s (Zpos mx * 2 ^ (ex + 298)) <= V hi ->
  fin (binary_round 24 128 s mx ex) = true
  /\ V lo <= V (binary_round 24 128 s mx ex) <= V hi.
Proof.
  intros Hex Hlo Hhi HX. unfold binary_round. rewrite fexp_eq.
  set (e1 := fexp32 (Zpos (digits2_pos mx) + ex)).
  destruct (shl_align_spec mx ex e1) as [A1 A2].
  destruct (shl_align mx ex e1) as [mz ez]. cbn [fst snd] in A1, A2. subst ez.
  assert (He1 : -149 <= e1) by (unfold e1, fexp32; lia).
  assert (Hj : 0 <= ex - Z.min ex e1) by lia.
  pose proof (digits2_pos_shift mx _ mz Hj A2) as Hd.
  apply round_aux_between; try assumption; [lia| |].
  - rewrite Hd. replace (Zpos (digits2_pos mx) + (ex - Z.min ex e1) + Z.min ex e1)
      with (Zpos (digits2_pos mx) + ex) by lia.
    fold e1. lia.
  - rewrite A2. rewrite <- Z.mul_assoc, <- Z.pow_add_r by lia.
    replace (ex - Z.min ex e1 + (Z.min ex e1 + 298)) with (ex + 298) by lia.
    exact HX.
Qed.

Lemma binary_normalize_between (n : Z) (ex : Z) (lo hi : spec_float) :
  -149 <= ex ->
  fin lo = true -> fin hi = true ->
  V lo <= n * 2 ^ (ex + 298) <= V hi ->
  fin (binary_normalize 24 128 n ex false) = true
  /\ V lo <= V (binary_normalize 24 128 n ex false) <= V hi.
Proof.
  intros Hex Hlo Hhi HX. destruct n as [|p|p]; cbn [binary_normalize].
  - split; [reflexivity|]. cbn [V]. lia.
  - apply (binary_round_between false); assumption.
  - apply (binary_round_between true); try assumption.
    cbn [cond_Zopp]. rewrite <- Z.mul_opp_l. exact HX.
Qed.


Lemma V_finite s m e : V (S754_finite s m e) = cond_Zopp s (Zpos m * 2 ^ (e + 298)).
Proof. reflexivity. Qed.

Lemma cond_Zopp_mul s a b : cond_Zopp s a * b = cond_Zopp s (a * b).
Proof. destruct s; cbn [cond_Zopp]; lia. Qed.

Lemma aligned_value (m : positive) (e ez : Z) :
  -149 <= ez -> ez <= e ->
  Zpos (fst (shl_align m e ez)) * 2 ^ (ez + 298) = Zpos m * 2 ^ (e + 298).
Proof.
  intros H1 H2. destruct (shl_align_spec m e ez) as [_ ->].
  replace (Z.min e ez) with ez by lia.
  rewrite <- Z.mul_assoc, <- Z.pow_add_r by lia. f_equal. f_equal. lia.
Qed.

Lemma add_between (x y lo hi : spec_float) :
  fin x = true -> fin y = true -> fin lo = true -> fin hi = true ->
  V lo <= V x + V y <= V hi ->
  fin (SFadd 24 128 x y) = true /\ V lo <= V (SFadd 24 128 x y) <= V hi.
Proof.
  intros Hx Hy Hlo Hhi HV.
  destruct x as [sx|sx| |sx mx ex], y as [sy|sy| |sy my ey];
    cbn [fin] in Hx, Hy; try discriminate.
  - cbn [V] in HV. destruct sx, sy; cbn [SFadd fin V]; split; (reflexivity || lia).
  - cbn [SFadd]. cbn [V] in HV |- *. split; [cbn [fin]; assumption|lia].
  - cbn [SFadd]. cbn [V] in HV |- *. split; [cbn [fin]; assumption|lia].
  - cbn [SFadd].
    pose proof (bounded_digits _ _ Hx) as (Hex & _).
    pose proof (bounded_digits _ _ Hy) as (Hey & _).
    apply binary_normalize_between; try assumption; [lia|].
    rewrite Z.mul_add_distr_r, !cond_Zopp_mul, !aligned_value by lia.
    exact HV.
Qed.

Lemma sub_between (x y lo hi : spec_float) :
  fin x = true -> fin y = true -> fin lo = true -> fin hi = true ->
  V lo <= V x - V y <= V hi ->
  fin (SFsub 24 128 x y) = true /\ V lo <= V (SFsub 24 128 x y) <= V hi.
Proof.
  intros Hx Hy Hlo Hhi HV.
  destruct x as [sx|sx| |sx mx ex], y as [sy|sy| |sy my ey];
    cbn [fin] in Hx, Hy; try discriminate.
  - cbn [V] in HV. destruct sx, sy; cbn [SFsub fin V]; split; (reflexivity || lia).
  - cbn [SFsub]. cbn [V] in HV |- *. split; [cbn [fin]; assumption|].
    destruct sy; cbn [negb cond_Zopp] in *; lia.
  - cbn [SFsub]. cbn [V] in HV |- *. split; [cbn [fin]; assumption|lia].
  - cbn [SFsub].
    pose proof (bounded_digits _ _ Hx) as (Hex & _).
    pose proof (bounded_digits _ _ Hy) as (Hey & _).
    apply binary_normalize_between; try assumption; [lia|].
    rewrite Z.mul_sub_distr_r, !cond_Zopp_mul, !aligned_value by lia.
    exact HV.
Qed.

Lemma digits2_pos_mul (a b : positive) :
  Zpos (digits2_pos a) + Zpos (digits2_pos b) - 1 <= Zpos (digits2_pos (a * b)).
Proof.
  pose proof (digits2_pos_bounds a) as [A1 _].
  pose proof (digits2_pos_bounds b) as [B1 _].
  pose proof (digits2_pos_bounds (a * b)) as [_ C2].
  set (da := Zpos (digits2_pos a)) in *. set (db := Zpos (digits2_pos b)) in *.
  assert (0 <= da - 1) by (unfold da; lia). assert (0 <= db - 1) by (unfold db; lia).
  assert (da - 1 + (db - 1) < Zpos (digits2_pos (a * b))); [|lia].
  apply pow2_lt_mono; [lia|]. rewrite Z.pow_add_r by lia.
  rewrite Pos2Z.inj_mul in C2.
  pose proof (pow2_pos (da - 1) ltac:(lia)). pose proof (pow2_pos (db - 1) ltac:(lia)).
  apply Z.le_lt_trans with (Zpos a * Zpos b); [|exact C2].
  apply Z.mul_le_mono_nonneg; lia.
Qed.

Lemma mul_between (x y lo hi : spec_float) :
  fin x = true -> fin y = true -> fin lo = true -> fin hi = true ->
  V lo * 2 ^ 298 <= V x * V y <= V hi * 2 ^ 298 ->
  fin (SFmul 24 128 x y) = true /\ V lo <= V (SFmul 24 128 x y) <= V hi.
Proof.
  intros Hx Hy Hlo Hhi HV.
  pose proof (pow2_pos 298 ltac:(lia)) as PU.
  destruct x as [sx|sx| |sx mx ex], y as [sy|sy| |sy my ey];
    cbn [fin] in Hx, Hy; try discriminate;
    try (cbn [SFmul fin V]; cbn [V] in HV; split; [reflexivity|nia]).
  cbn [SFmul].
  pose proof (bounded_digits _ _ Hx) as (Hex & Hdx & Hnx).
  pose proof (bounded_digits _ _ Hy) as (Hey & Hdy & Hny).
  pose proof (digits2_pos_mul mx my) as Hd.
  apply round_aux_between; try assumption; [lia| |].
  - unfold fexp32.
    assert (0 < Zpos (digits2_pos mx)) by lia. assert (0 < Zpos (digits2_pos my)) by lia.
    lia.
  - rewrite !V_finite in HV.
    assert (E : cond_Zopp sx (Zpos mx * 2 ^ (ex + 298)) * cond_Zopp sy (Zpos my * 2 ^ (ey + 298))
                = cond_Zopp (xorb sx sy) (Zpos (mx * my) * 2 ^ (ex + ey + 298)) * 2 ^ 298).
    { replace (ex + ey + 298) with ((ex + 298) + (ey + 298) - 298) by lia.
      rewrite Pos2Z.inj_mul.
      assert (P : 2 ^ (ex + 298 + (ey + 298) - 298) * 2 ^ 298
                  = 2 ^ (ex + 298) * 2 ^ (ey + 298)).
      { rewrite <- !Z.pow_add_r by lia. f_equal. lia. }
      destruct sx, sy; cbn [cond_Zopp xorb]; nia. }
    rewrite E in HV. nia.
Qed.


Lemma canonical_lt (m1 m2 : positive) (e1 e2 : Z) :
  bounded 24 128 m1 e1 = true -> bounded 24 128 m2 e2 = true -> e1 < e2 ->
  Zpos m1 * 2 ^ (e1 + 298) < Zpos m2 * 2 ^ (e2 + 298).
Proof.
  intros H1 H2 L.
  pose proof (bounded_digits _ _ H1) as (He1 & Hd1 & _).
  pose proof (bounded_digits _ _ H2) as (He2 & _ & Hn2).
  specialize (Hn2 ltac:(lia)).
  pose proof (digits2_pos_bounds m1) as [_ B1].
  pose proof (digits2_pos_bounds m2) as [B2 _]. rewrite Hn2 in B2.
  change (2 ^ (24 - 1)) with 8388608 in B2.
  pose proof (pow2_le (Zpos (digits2_pos m1)) 24 ltac:(lia) Hd1) as P.
  change (2 ^ 24) with 16777216 in P.
  rewrite (pow2_split (e1 + 298) (e2 + 298)) by lia.
  pose proof (pow2_pos (e1 + 298) ltac:(lia)) as PE.
  assert (T2 : 2 <= 2 ^ (e2 + 298 - (e1 + 298))).
  { change 2 with (2 ^ 1) at 1. apply pow2_le; lia. }
  assert (Zpos m1 < Zpos m2 * 2 ^ (e2 + 298 - (e1 + 298))) by nia.
  rewrite Z.mul_assoc. apply Z.mul_lt_mono_pos_r; assumption.
Qed.

Lemma compare_V (x y : spec_float) :
  fin x = true -> fin y = true -> SFcompare x y = Some (V x ?= V y).
Proof.
  intros Hx Hy.
  destruct x as [sx|sx| |sx mx ex], y as [sy|sy| |sy my ey];
    cbn [fin] in Hx, Hy; try discriminate.
  - reflexivity.
  - cbn [SFcompare V]. f_equal.
    pose proof (pow2_pos (ey + 298) ltac:(pose proof (bounded_digits _ _ Hy); lia)).
    destruct sy; cbn [cond_Zopp]; symmetry; [apply Z.compare_gt_iff|apply Z.compare_lt_iff]; nia.
  - cbn [SFcompare V]. f_equal.
    pose proof (pow2_pos (ex + 298) ltac:(pose proof (bounded_digits _ _ Hx); lia)).
    destruct sx; cbn [cond_Zopp]; symmetry; [apply Z.compare_lt_iff|apply Z.compare_gt_iff]; nia.
  - cbn [SFcompare V]. f_equal.
    pose proof (bounded_digits _ _ Hx) as (Hex & _).
    pose proof (bounded_digits _ _ Hy) as (Hey & _).
    pose proof (pow2_pos (ex + 298) ltac:(lia)) as PX.
    pose proof (pow2_pos (ey + 298) ltac:(lia)) as PY.
    assert (Core : (match ex ?= ey with
                    | Lt => Lt | Gt => Gt | Eq => Pos.compare_cont Eq mx my end)
                   = (Zpos mx * 2 ^ (ex + 298) ?= Zpos my * 2 ^ (ey + 298))).
    { destruct (Z.compare_spec ex ey) as [E|L|G].
      - subst ey. change (Pos.compare_cont Eq mx my) with (Zpos mx ?= Zpos my).
        symmetry. destruct (Z.compare_spec (Zpos mx) (Zpos my)) as [E|L|G].
        + apply Z.compare_eq_iff. rewrite E. reflexivity.
        + apply Z.compare_lt_iff. apply Z.mul_lt_mono_pos_r; assumption.
        + apply Z.compare_gt_iff. apply Z.mul_lt_mono_pos_r; assumption.
      - symmetry. apply Z.compare_lt_iff. apply canonical_lt; assumption.
      - symmetry. apply Z.compare_gt_iff. apply canonical_lt; assumption. }
    destruct sx, sy; cbn [cond_Zopp].
    + rewrite Z.compare_opp.
      rewrite (Z.compare_antisym (Zpos mx * 2 ^ (ex + 298)) (Zpos my * 2 ^ (ey + 298))).
      rewrite <- Core.
      destruct (ex ?= ey); reflexivity.
    + symmetry. apply Z.compare_lt_iff. nia.
    + symmetry. apply Z.compare_gt_iff. nia.
    + exact Core.
Qed.


Lemma leb_V (x y : spec_float) :
  fin x = true -> fin y = true -> (SFleb x y = true <-> V x <= V y).
Proof.
  intros Hx Hy. unfold SFleb. rewrite (compare_V x y Hx Hy).
  destruct (Z.compare_spec (V x) (V y)); split; intro; try lia; try reflexivity;
    discriminate.
Qed.

Lemma ltb_V (x y : spec_float) :
  fin x = true -> fin y = true -> (SFltb x y = true <-> V x < V y).
Proof.
  intros Hx Hy. unfold SFltb. rewrite (compare_V x y Hx Hy).
  destruct (Z.compare_spec (V x) (V y)); split; intro; try lia; try reflexivity;
    discriminate.
Qed.

(** A binary32 number between two finite ones is finite. *)
Lemma fin_between (x lo hi : spec_float) :
  valid_binary 24 128 x = true -> fin lo = true -> fin hi = true ->
  SFleb lo x = true -> SFleb x hi = true ->
  fin x = true /\ V lo <= V x <= V hi.
Proof.
  intros Hv Hlo Hhi L1 L2.
  assert (Hx : fin x = true).
  { destruct x as [s|s| |s m e]; cbn [fin valid_binary]; try assumption; try reflexivity.
    - destruct s.
      + destruct lo; cbn in Hlo, L1; discriminate.
      + destruct hi; cbn in Hhi, L2; discriminate. }
  split; [exact Hx|]. split; apply leb_V; assumption.
Qed.

Lemma V_inj_finite (x : spec_float) s m e :
  fin x = true -> bounded 24 128 m e = true ->
  V x = V (S754_finite s m e) -> x = S754_finite s m e.
Proof.
  intros Hx Hb HV.
  pose proof (compare_V x (S754_finite s m e) Hx Hb) as C.
  rewrite HV, Z.compare_refl in C.
  pose proof (bounded_digits _ _ Hb) as (He & _).
  pose proof (pow2_pos (e + 298) ltac:(lia)) as P.
  destruct x as [sx|sx| |sx mx ex]; cbn [fin] in Hx; try discriminate.
  - cbn [V] in HV. destruct s; cbn [cond_Zopp] in HV; nia.
  - pose proof (bounded_digits _ _ Hx) as (Hex & _).
    pose proof (pow2_pos (ex + 298) ltac:(lia)) as PX.
    cbn [V] in HV.
    assert (sx = s) as -> by (destruct sx, s; cbn [cond_Zopp] in HV; try reflexivity; nia).
    cbn [SFcompare] in C.
    assert (E : match ex ?= e with
                | Eq => Pos.compare_cont Eq mx m | Lt => Lt | Gt => Gt end = Eq).
    { destruct s; injection C as C; [|exact C].
      destruct (ex ?= e); try discriminate.
      destruct (Pos.compare_cont Eq mx m); try discriminate; reflexivity. }
    destruct (Z.compare_spec ex e) as [-> | |]; try discriminate.
    apply Pos.compare_eq in E. subst. reflexivity.
Qed.

(** Rounding never produces a NaN from a non-negative mantissa. *)
Lemma shr_m_nonneg r e k : 0 <= shr_m r -> 0 <= shr_m (fst (shr r e k)).
Proof.
  intro H. destruct (Z_le_gt_dec k 0) as [L|L].
  - rewrite shr_nonpos by exact L. exact H.
  - destruct (shr_spec r e k H ltac:(lia)) as (_ & -> & _).
    apply Z.div_pos; [exact H | apply pow2_pos; lia].
Qed.

Lemma round_aux_not_nan s m e l :
  0 <= m -> binary_round_aux 24 128 s m e l <> S754_nan.
Proof.
  intro Hm. unfold binary_round_aux, shr_fexp.
  set (k1 := fexp 24 128 (Zdigits2 m + e) - e).
  pose proof (shr_m_nonneg (shr_record_of_loc m l) e k1) as N1.
  destruct (shr (shr_record_of_loc m l) e k1) as [r1 e1]. cbn [fst] in N1.
  assert (H1 : 0 <= shr_m r1).
  { apply N1. destruct l as [|[| |]]; exact Hm. }
  set (m2 := round_nearest_even (shr_m r1) (loc_of_shr_record r1)).
  assert (H2 : 0 <= m2) by (pose proof (round_nearest_even_bounds r1); unfold m2; lia).
  set (k2 := fexp 24 128 (Zdigits2 m2 + e1) - e1).
  pose proof (shr_m_nonneg (shr_record_of_loc m2 loc_Exact) e1 k2 H2) as N2.
  destruct (shr (shr_record_of_loc m2 loc_Exact) e1 k2) as [r2 e2]. cbn [fst] in N2.
  destruct (shr_m r2) as [|p|p]; [discriminate| |lia].
  destruct (e2 <=? 128 - 24); discriminate.
Qed.

Lemma div_not_nan (x : spec_float) sy my ey :
  fin x = true -> SFdiv 24 128 x (S754_finite sy my ey) <> S754_nan.
Proof.
  intro Hx. destruct x as [sx|sx| |sx mx ex]; cbn [fin] in Hx; try discriminate.
  cbn [SFdiv]. unfold SFdiv_core_binary.
  set (m' := match _ with Z0 => _ | Zpos _ => _ | Zneg _ => _ end).
  assert (Hm' : 0 <= m').
  { unfold m'. match goal with |- 0 <= match ?s with _ => _ end => destruct s end;
      try lia. apply Z.shiftl_nonneg. lia. }
  pose proof (Z.div_pos m' (Zpos my) Hm' ltac:(lia)) as Hq.
  unfold Z.div in Hq. destruct (Z.div_eucl m' (Zpos my)) as [q r]. cbn [fst] in Hq.
  apply round_aux_not_nan. exact Hq.
Qed.


Lemma PWR_CAP_eq : PWR_CAP = S754_finite false 16760439 (-24).
Proof. vm_compute. reflexivity. Qed.
Lemma PWR_MIN_eq : PWR_MIN = S754_finite false 10737418 (-30).
Proof. vm_compute. reflexivity. Qed.
Lemma PWR_MAX_eq : PWR_MAX = S754_finite false 8388608 (-23).
Proof. vm_compute. reflexivity. Qed.

Lemma SFcompare_antisym (x y : spec_float) :
  SFcompare y x = option_map CompOpp (SFcompare x y).
Proof.
  destruct x as [sx|sx| |sx mx ex], y as [sy|sy| |sy my ey]; cbn [SFcompare option_map];
    try reflexivity;
    try (destruct sx; reflexivity); try (destruct sy; reflexivity);
    try (destruct sx, sy; reflexivity).
  f_equal. rewrite (Z.compare_antisym ey ex).
  destruct sx, sy; try reflexivity;
    destruct (ey ?= ex); cbn [CompOpp]; try reflexivity;
    change (Pos.compare_cont Eq mx my) with (Pos.compare mx my);
    change (Pos.compare_cont Eq my mx) with (Pos.compare my mx);
    rewrite (Pos.compare_antisym my mx);
    destruct (Pos.compare my mx); reflexivity.
Qed.

Lemma SFltb_false_leb (x y : spec_float) :
  x <> S754_nan -> y <> S754_nan -> SFltb x y = false -> SFleb y x = true.
Proof.
  intros Hx Hy H. unfold SFltb, SFleb in *. rewrite (SFcompare_antisym x y).
  destruct (SFcompare x y) as [[| |]|] eqn:E; cbn; try reflexivity; try discriminate.
  destruct x, y; cbn in E; congruence.
Qed.

Lemma SFltb_MAX_CAP (c : spec_float) :
  SFltb PWR_MAX c = true -> SFltb PWR_CAP c = true.
Proof.
  rewrite PWR_CAP_eq, PWR_MAX_eq. unfold SFltb.
  destruct c as [s|s| |s m e]; cbn [SFcompare]; try discriminate.
  - destruct s; auto.
  - destruct s; [discriminate|].
    destruct (Z.compare_spec (-23) e) as [E|L|G]; intro H; try discriminate.
    + subst e. reflexivity.
    + destruct (Z.compare_spec (-24) e); (reflexivity || lia).
Qed.

Lemma clamp_range (x : spec_float) :
  x <> S754_nan ->
  F32.leb PWR_MIN (ClampPwr (if F32.gtb x PWR_CAP then PWR_CAP else x)) = true
  /\ F32.leb (ClampPwr (if F32.gtb x PWR_CAP then PWR_CAP else x)) PWR_CAP = true.
Proof.
  intro Hn.
  set (c := if F32.gtb x PWR_CAP then PWR_CAP else x).
  assert (Hc : c <> S754_nan /\ SFltb PWR_CAP c = false).
  { unfold c, F32.gtb. destruct (SFltb PWR_CAP x) eqn:E.
    - split; [rewrite PWR_CAP_eq; discriminate|vm_compute; reflexivity].
    - split; assumption. }
  destruct Hc as [Hc1 Hc2].
  assert (N1 : PWR_MIN <> S754_nan) by (rewrite PWR_MIN_eq; discriminate).
  assert (N2 : PWR_CAP <> S754_nan) by (rewrite PWR_CAP_eq; discriminate).
  unfold ClampPwr, F32.ltb, F32.gtb, F32.leb.
  destruct (SFltb c PWR_MIN) eqn:E1.
  - split; vm_compute; reflexivity.
  - destruct (SFltb PWR_MAX c) eqn:E2.
    + apply SFltb_MAX_CAP in E2. congruence.
    + split; apply SFltb_false_leb; assumption.
Qed.


Lemma const_m127 : fin (F32.of_Z (-127)) = true /\ V (F32.of_Z (-127)) = -127 * 2 ^ 298.
Proof. split; vm_compute; reflexivity. Qed.
Lemma const_0 : fin F32.zero = true /\ V F32.zero = 0.
Proof. split; reflexivity. Qed.
Lemma const_1 : fin (F32.of_Z 1) = true /\ V (F32.of_Z 1) = 1 * 2 ^ 298.
Proof. split; vm_compute; reflexivity. Qed.
Lemma const_128 : fin (F32.of_Z 128) = true /\ V (F32.of_Z 128) = 128 * 2 ^ 298.
Proof. split; vm_compute; reflexivity. Qed.
Lemma const_255 : fin (F32.of_Z 255) = true /\ V (F32.of_Z 255) = 255 * 2 ^ 298.
Proof. split; vm_compute; reflexivity. Qed.
Lemma const_256 : fin (F32.of_Z 256) = true /\ V (F32.of_Z 256) = 256 * 2 ^ 298.
Proof. split; vm_compute; reflexivity. Qed.

Lemma yFixed_eq : yFixed = F32.of_Z 256.
Proof. vm_compute. reflexivity. Qed.
Lemma alpha_eq : alpha = F32.of_Z 128.
Proof. vm_compute. reflexivity. Qed.
Lemma PWR_MAX_one : PWR_MAX = F32.of_Z 1.
Proof. vm_compute. reflexivity. Qed.

Section Feedback.

Variables y p : spec_float.
Hypothesis Vy : valid_binary 24 128 y = true.
Hypothesis Vp : valid_binary 24 128 p = true.
Hypothesis Y0 : F32.leb F32.zero y = true.
Hypothesis Y1 : F32.leb y (F32.of_Z 255) = true.
Hypothesis P0 : F32.leb F32.zero p = true.
Hypothesis P1 : F32.leb p (F32.of_Z 1) = true.

Lemma feedback_den_range :
  fin (UpdatePower_den y p) = true
  /\ V (F32.of_Z 1) <= V (UpdatePower_den y p) <= V (F32.of_Z 256).
Proof.
  destruct const_m127 as [F127 V127], const_0 as [F0 V0], const_1 as [F1 V1],
    const_128 as [F128 V128], const_255 as [F255 V255], const_256 as [F256 V256].
  destruct (fin_between y _ _ Vy F0 F255 Y0 Y1) as [Fy By].
  destruct (fin_between p _ _ Vp F0 F1 P0 P1) as [Fp Bp].
  unfold UpdatePower_den. rewrite alpha_eq.
  change TARGET_IMG_INTENSITY with 128.
  unfold F32.add, F32.mul, F32.sub. change F32.prec with 24. change F32.emax with 128.
  destruct (sub_between (F32.of_Z 128) y (F32.of_Z (-127)) (F32.of_Z 128)) as [Fc Bc];
    try assumption; [lia|].
  destruct (mul_between (SFsub 24 128 (F32.of_Z 128) y) p (F32.of_Z (-127)) (F32.of_Z 128))
    as [Fd Bd]; try assumption.
  { rewrite V127, V128, V0, V1 in *.
    set (U := 2 ^ 298) in *. assert (0 < U) by (apply pow2_pos; lia). clearbody U. nia. }
  apply add_between; try assumption.
  rewrite V127, V128, V1, V256 in *. lia.
Qed.

Lemma feedback_num_fin : fin (UpdatePower_num y p) = true.
Proof.
  destruct const_0 as [F0 V0], const_1 as [F1 V1],
    const_255 as [F255 V255], const_256 as [F256 V256].
  destruct (fin_between y _ _ Vy F0 F255 Y0 Y1) as [Fy By].
  destruct (fin_between p _ _ Vp F0 F1 P0 P1) as [Fp Bp].
  unfold UpdatePower_num. rewrite yFixed_eq, PWR_MAX_one.
  unfold F32.mul, F32.sub. change F32.prec with 24. change F32.emax with 128.
  destruct (sub_between (F32.of_Z 256) y (F32.of_Z 1) (F32.of_Z 256)) as [Fa Ba];
    try assumption; [lia|].
  destruct (mul_between (SFsub 24 128 (F32.of_Z 256) y) p F32.zero (F32.of_Z 256))
    as [Fb Bb]; try assumption.
  { rewrite V0, V1, V256 in *.
    set (U := 2 ^ 298) in *. assert (0 < U) by (apply pow2_pos; lia). clearbody U. nia. }
  apply (mul_between _ _ F32.zero (F32.of_Z 256)); try assumption.
  rewrite V0, V1, V256 in *.
  set (U := 2 ^ 298) in *. assert (0 < U) by (apply pow2_pos; lia). clearbody U. nia.
Qed.

Lemma feedback_quotient_defined :
  F32.ltb F32.zero (UpdatePower_den y p) = true
  /\ F32.div (UpdatePower_num y p) (UpdatePower_den y p) <> S754_nan.
Proof.
  destruct feedback_den_range as [Fd [Bd _]].
  pose proof feedback_num_fin as Fn.
  destruct const_1 as [_ V1]. rewrite V1 in Bd.
  pose proof (pow2_pos 298 ltac:(lia)) as PU.
  split.
  - unfold F32.ltb. apply ltb_V; [reflexivity|assumption|]. cbn [F32.zero V]. lia.
  - destruct (UpdatePower_den y p) as [s|s| |s m e]; cbn [fin V] in *; try discriminate;
      try lia.
    unfold F32.div. apply div_not_nan. exact Fn.
Qed.

Lemma feedback_clamped :
  F32.leb PWR_MIN (ClampPwr (UpdatePower y p)) = true
  /\ F32.leb (ClampPwr (UpdatePower y p)) PWR_CAP = true.
Proof.
  unfold UpdatePower. apply clamp_range. apply feedback_quotient_defined.
Qed.

End Feedback.


Lemma SFleb_not_gt (x y : spec_float) : SFleb x y = true -> SFltb y x = false.
Proof.
  unfold SFleb, SFltb. rewrite (SFcompare_antisym x y).
  destruct (SFcompare x y) as [[| |]|]; cbn; congruence.
Qed.

(** Rounding a value that is a binary32 number returns that number. *)
Lemma round_aux_exact s (mx : positive) (ex : Z) m e :
  -298 <= ex ->
  0 <= fexp32 (Zpos (digits2_pos mx) + ex) - ex ->
  bounded 24 128 m e = true ->
  Zpos mx * 2 ^ (ex + 298) = Zpos m * 2 ^ (e + 298) ->
  binary_round_aux 24 128 s (Zpos mx) ex loc_Exact = S754_finite s m e.
Proof.
  intros Hex Hk Hb HX.
  destruct (round_aux_between s mx ex (S754_finite s m e) (S754_finite s m e))
    as [Fr Br]; try assumption.
  { cbn [V]. rewrite HX. lia. }
  apply V_inj_finite; [assumption|assumption|lia].
Qed.

Lemma mul_pow2_exact (x : spec_float) (j : Z) s m e :
  x = S754_finite false 8388608 (j - 23) ->
  bounded 24 128 m e = true -> bounded 24 128 m (e + j) = true ->
  -149 <= j - 23 <= 104 ->
  SFmul 24 128 x (S754_finite s m e) = S754_finite s m (e + j)
  /\ SFmul 24 128 (S754_finite s m e) x = S754_finite s m (e + j).
Proof.
  intros -> Hb Hb' Hj.
  pose proof (bounded_digits _ _ Hb) as (He & _).
  pose proof (bounded_digits _ _ Hb') as (He' & _).
  assert (Hx : fin (S754_finite false 8388608 (j - 23)) = true).
  { cbn [fin]. apply bounded_spec. cbn [digits2_pos Pos.succ]. unfold fexp32. lia. }
  assert (HV : V (S754_finite false 8388608 (j - 23)) * V (S754_finite s m e)
               = V (S754_finite s m (e + j)) * 2 ^ 298).
  { cbn [V cond_Zopp].
    replace (j - 23 + 298) with (j + 275) by lia.
    assert (E1 : 8388608 * 2 ^ (j + 275) = 2 ^ (j + 298)).
    { change 8388608 with (2 ^ 23). rewrite <- Z.pow_add_r by lia. f_equal. lia. }
    assert (E2 : 2 ^ (e + j + 298) * 2 ^ 298 = 2 ^ (j + 298) * 2 ^ (e + 298)).
    { rewrite <- !Z.pow_add_r by lia. f_equal. lia. }
    destruct s; cbn [cond_Zopp]; nia. }
  split.
  - destruct (mul_between (S754_finite false 8388608 (j - 23)) (S754_finite s m e)
                (S754_finite s m (e + j)) (S754_finite s m (e + j))) as [Fr Br];
      try assumption; [lia|].
    apply V_inj_finite; [assumption|assumption|lia].
  - destruct (mul_between (S754_finite s m e) (S754_finite false 8388608 (j - 23))
                (S754_finite s m (e + j)) (S754_finite s m (e + j))) as [Fr Br];
      try assumption; [lia|].
    apply V_inj_finite; [assumption|assumption|lia].
Qed.

Lemma div_128_exact (m : positive) (e : Z) :
  bounded 24 128 m e = true -> -142 <= e ->
  SFdiv 24 128 (S754_finite false m (e + 7)) (S754_finite false 8388608 (-16))
  = S754_finite false m e.
Proof.
  intros Hb He.
  pose proof (bounded_digits _ _ Hb) as (He' & _ & Hd). specialize (Hd ltac:(lia)).
  cbn [SFdiv xorb]. unfold SFdiv_core_binary. cbn [Zdigits2]. rewrite Hd.
  change (Zpos (digits2_pos 8388608)) with 24.
  rewrite fexp_eq.
  replace (Z.min (fexp32 (24 + (e + 7) - (24 + -16))) (e + 7 - -16)) with (e - 1)
    by (unfold fexp32; lia).
  replace (e + 7 - -16 - (e - 1)) with 24 by lia.
  rewrite Z.shiftl_mul_pow2 by lia.
  assert (Hq : Z.div_eucl (Zpos m * 2 ^ 24) 8388608 = (Zpos m~0, 0)).
  { pose proof (Z.div_eucl_eq (Zpos m * 2 ^ 24) 8388608 ltac:(lia)) as E.
    pose proof (Z.mod_pos_bound (Zpos m * 2 ^ 24) 8388608 ltac:(lia)) as B.
    unfold Z.modulo in B.
    destruct (Z.div_eucl (Zpos m * 2 ^ 24) 8388608) as [q r].
    change (2 ^ 24) with 16777216 in E.
    assert (q = 2 * Zpos m) by lia. assert (r = 0) by lia. subst. reflexivity. }
  rewrite Hq. change (new_location 8388608 0) with loc_Exact.
  apply round_aux_exact; try lia.
  - cbn [digits2_pos]. rewrite Pos2Z.inj_succ, Hd. unfold fexp32. lia.
  - exact Hb.
  - change (Zpos m~0) with (2 * Zpos m).
    replace (e + 298) with (Z.succ (e - 1 + 298)) by lia.
    rewrite Z.pow_succ_r by lia. lia.
Qed.

Lemma UpdatePower_at_target (p : spec_float) :
  valid_binary 24 128 p = true ->
  F32.leb PWR_MIN p = true -> F32.leb p PWR_MAX = true ->
  UpdatePower (F32.of_Z TARGET_IMG_INTENSITY) p
  = if F32.gtb p PWR_CAP then PWR_CAP else p.
Proof.
  intros Vp L1 L2.
  unfold F32.leb in L1, L2. rewrite PWR_MIN_eq in L1. rewrite PWR_MAX_eq in L2.
  destruct p as [s|s| |s m e]; try (destruct s; discriminate); try discriminate.
  destruct s; [discriminate|].
  cbn [valid_binary] in Vp.
  assert (He : -30 <= e <= -23).
  { unfold SFleb in L1, L2. cbn [SFcompare] in L1, L2.
    destruct (Z.compare_spec (-30) e), (Z.compare_spec e (-23)); try discriminate; lia. }
  pose proof (bounded_digits _ _ Vp) as (_ & _ & Hd). specialize (Hd ltac:(lia)).
  assert (Vp7 : bounded 24 128 m (e + 7) = true).
  { apply bounded_spec. rewrite Hd. unfold fexp32. lia. }
  unfold UpdatePower.
  assert (Hnum : UpdatePower_num (F32.of_Z TARGET_IMG_INTENSITY) (S754_finite false m e)
                 = S754_finite false m (e + 7)).
  { unfold UpdatePower_num.
    replace (F32.sub yFixed (F32.of_Z TARGET_IMG_INTENSITY))
      with (S754_finite false 8388608 (7 - 23)) by (vm_compute; reflexivity).
    rewrite PWR_MAX_eq. unfold F32.mul. change F32.prec with 24. change F32.emax with 128.
    rewrite (proj1 (mul_pow2_exact _ 7 false m e eq_refl Vp Vp7 ltac:(lia))).
    replace (e + 7) with (e + 7 + 0) at 2 by lia.
    apply (mul_pow2_exact _ 0 false m (e + 7) eq_refl Vp7); [|lia].
    replace (e + 7 + 0) with (e + 7) by lia. exact Vp7. }
  assert (Hden : UpdatePower_den (F32.of_Z TARGET_IMG_INTENSITY) (S754_finite false m e)
                 = S754_finite false 8388608 (-16)).
  { unfold UpdatePower_den.
    replace (F32.sub (F32.of_Z TARGET_IMG_INTENSITY) (F32.of_Z TARGET_IMG_INTENSITY))
      with (S754_zero false) by (vm_compute; reflexivity).
    change (F32.mul (S754_zero false) (S754_finite false m e)) with (S754_zero false).
    vm_compute. reflexivity. }
  rewrite Hnum, Hden. unfold F32.div. change F32.prec with 24. change F32.emax with 128.
  rewrite div_128_exact by (assumption || lia).
  reflexivity.
Qed.

(** ** Supporting lemmas for the claims *)

Lemma int_of_uint_small n : 0 <= n < 2 ^ 31 -> int_of_uint n = n.
Proof.
  intro H. unfold int_of_uint. destruct (n <? 2 ^ 31) eqn:E; [reflexivity|].
  apply Z.ltb_ge in E. lia.
Qed.

Lemma wrap32_small n : 0 <= n < 2 ^ 32 -> wrap32 n = n.
Proof. intro H. unfold wrap32. apply Z.mod_small. exact H. Qed.

Lemma nth_error_array_set_eq {A} (a : list A) i v :
  (i < length a)%nat -> nth_error (array_set a i v) i = Some v.
Proof.
  revert i. induction a as [|x a IH]; intros [|i] H; cbn in *; try lia; auto.
  apply IH. lia.
Qed.

Lemma nth_error_array_set_neq {A} (a : list A) i j v :
  i <> j -> nth_error (array_set a i v) j = nth_error a j.
Proof.
  revert i j. induction a as [|x a IH]; intros [|i] [|j] H; cbn; try congruence; auto.
Qed.

Lemma pulse_widths_length pwrs : length (pulse_widths pwrs) = length pwrs.
Proof. unfold pulse_widths. apply length_map. Qed.

Lemma pulse_widths_nth pwrs n :
  nth_error (pulse_widths pwrs) n =
  option_map (fun p => F32.to_ushort (F32.mul PW_MAX p)) (nth_error pwrs n).
Proof. unfold pulse_widths. apply nth_error_map. Qed.

Lemma prgrm_ok_tables mode c :
  mode <> MULTI -> mMode c = mode -> mPrgrm c = prgrm_of_mode mode off_prgrm ->
  prgrm_ok c.
Proof.
  intros Hm Hmode Hp. unfold prgrm_ok. rewrite Hp, Hmode.
  destruct mode; try congruence; cbn;
    (split; [discriminate|]); (split; [|intro; try discriminate; lia]);
    repeat constructor; unfold NO_LASER_DIODES; cbn; lia.
Qed.

Lemma prgrm_ok_step odd even c c' :
  prgrm_ok c -> IncrementPrgrm odd even c = Some (tt, c') -> prgrm_ok c'.
Proof.
  intros Hok H. apply IncrementPrgrm_record in H.
  destruct H as (pwrs & c1 & _ & _ & _ & _ & Hm & Hp & _).
  unfold prgrm_ok in *. rewrite Hm, Hp. exact Hok.
Qed.

Lemma for_loop_undefined {A} (body : nat -> A -> M A) c i :
  (forall n a a' c', body n a c = Some (a', c') -> c' = c) ->
  (forall a, body i a c = None) ->
  forall count first a,
    (first <= i < first + count)%nat -> for_loop first count body a c = None.
Proof.
  intros Hst Hi. induction count as [|n IH]; intros first a Hr; [lia|].
  rewrite for_loop_S. unfold bind.
  destruct (Nat.eq_dec first i) as [->|Hne].
  - rewrite Hi. reflexivity.
  - destruct (body first a c) as [[a1 c1]|] eqn:E; [|reflexivity].
    apply Hst in E. subst c1. apply IH. lia.
Qed.

(** [SetMode] when the guard lets the call through. *)
Lemma SetMode_accepted mode c :
  negb (mSynced c) && negb (MODE_eqb mode SYNC || MODE_eqb mode WARMUP || MODE_eqb mode OFF)
  = false ->
  exists c',
    SetMode mode c = Some (tt, c')
    /\ mMode c' = mode
    /\ mPrgrmCount c' = 0
    /\ mFid c' = mFid c /\ mOutputQueue c' = mOutputQueue c
    /\ mLog c' = mLog c ++ [LOG_MODE (MODE_value mode)]
    /\ (if MODE_eqb mode SYNC
        then mBufferOffset c' = 0 /\ mPrgrm c' = off_prgrm /\ mSynced c' = false
             /\ mPwrBuffer c' = mPwrBuffer c /\ mFrmBuffer c' = mFrmBuffer c
             /\ mRotBuffer c' = mRotBuffer c
        else mBufferOffset c' = mBufferOffset c
             /\ mPrgrm c' = prgrm_of_mode mode off_prgrm
             /\ mSynced c' = mSynced c
             /\ mPwrBuffer c' = [] /\ mFrmBuffer c' = [] /\ mRotBuffer c' = []).
Proof.
  destruct c as [m p cnt off f qp qf qr sy oq iq rp lg]. cbn [mSynced]. intro G.
  unfold SetMode. unfold bind at 1. unfold gets at 1. cbn [mSynced]. rewrite G.
  destruct mode; unfold_monad; cbn; eexists; (split; [reflexivity|]); cbn; repeat split.
Qed.

Lemma field_step_multi_second odd even pwrs c :
  mPrgrm c = multi_prgrm -> mPrgrmCount c = 1 ->
  field_step odd even 1 pwrs c = None.
Proof.
  destruct c as [mode p cnt off f qp qf qr sy oq iq rp lg]. cbn [mPrgrm mPrgrmCount].
  intros -> ->.
  unfold field_step. unfold_monad. cbn.
  change (Z.to_nat (wrap32 (1 mod 8))) with 1%nat.
  repeat match goal with
         | |- context [match ?x with _ => _ end] =>
             lazymatch x with
             | context [match _ with _ => _ end] => fail
             | context [for_loop] => fail
             | _ => destruct x eqn:?
             end
         end; try reflexivity;
    (rewrite (for_loop_undefined _ _ 14%nat);
     [reflexivity
     | intros; eapply weights_loop_state; eassumption
     | reflexivity
     | unfold NO_LASER_DIODES; lia]).
Qed.

(** ** The example states and the installed programs *)
Lemma sync_start_reached :
  SetMode SYNC initial_controller = Some (tt, sync_start_controller).
Proof. vm_compute. reflexivity. Qed.

Lemma synced_reached :
  (IncrementPrgrm zero_means zero_means;; IncrementPrgrm bright_means zero_means)
    sync_start_controller = Some (tt, synced_controller).
Proof. vm_compute. reflexivity. Qed.

Lemma sync_waiting_reached :
  IncrementPrgrm zero_means zero_means sync_start_controller
  = Some (tt, sync_waiting_controller).
Proof. vm_compute. reflexivity. Qed.

Lemma wle_running_reached :
  (SetMode WLE;; IncrementPrgrm zero_means zero_means) synced_controller
  = Some (tt, wle_running_controller).
Proof. vm_compute. reflexivity. Qed.

Lemma lsci_start_reached :
  SetMode LSCI synced_controller = Some (tt, lsci_start_controller).
Proof. vm_compute. reflexivity. Qed.

Lemma initial_prgrm_ok : prgrm_ok initial_controller.
Proof. apply (prgrm_ok_tables OFF); [discriminate|reflexivity|reflexivity]. Qed.

(** Every mode but MULTI installs a program that [IncrementPrgrm] reads
    inside its vectors. *)
Lemma SetMode_prgrm_ok mode c c' :
  mode <> MULTI -> prgrm_ok c -> SetMode mode c = Some (tt, c') -> prgrm_ok c'.
Proof.
  intros Hm Hok E.
  destruct (negb (mSynced c)
            && negb (MODE_eqb mode SYNC || MODE_eqb mode WARMUP || MODE_eqb mode OFF)) eqn:G.
  - unfold SetMode in E. unfold bind at 1 in E. unfold gets at 1 in E.
    rewrite G in E. unfold ret in E. injection E as <-. exact Hok.
  - destruct (SetMode_accepted mode c G) as (c0 & E0 & Hmode & _ & _ & _ & _ & Hr).
    rewrite E0 in E. injection E as <-.
    apply (prgrm_ok_tables mode); [assumption|assumption|].
    destruct mode; cbn [MODE_eqb] in Hr; tauto.
Qed.

(** One hundred LSCI frames after sync with buffer offset 2: the rotation
    queue holds the bootstrap power one hundred times. *)
Example lsci_hundred_frames_bootstrap :
  option_map mRotBuffer
    (state_after (run_frames (repeat (bright_means, bright_means) 100))
                 lsci_start_controller)
  = Some (repeat (F32.lit 2 10) 100).
Proof. vm_compute. reflexivity. Qed.

Lemma to_ushort_PW_LSCI : F32.to_ushort PW_LSCI = 7000.
Proof. vm_compute. reflexivity. Qed.

Lemma frame_ids_increasing (f : Z) (n : nat) (first : nat) :
  StronglySorted Z.lt (map (fun k => f + Z.of_nat k) (seq first n)).
Proof.
  revert first. induction n as [|n IH]; intro first; cbn; constructor.
  - apply IH.
  - apply Forall_forall. intros x Hx. apply in_map_iff in Hx.
    destruct Hx as (k & <- & Hk). apply in_seq in Hk. lia.
Qed.

Lemma const_14000 : fin PW_MAX = true /\ V PW_MAX = 14000 * 2 ^ 298.
Proof. split; vm_compute; reflexivity. Qed.

(** The conversion of a power in [0,1] needs no clamp. *)
Lemma pulse_width_range (p : F32.float) :
  F32.valid p = true -> F32.leb F32.zero p = true -> F32.leb p (F32.of_Z 1) = true ->
  exists z,
    F32.trunc (F32.mul PW_MAX p) = Some z
    /\ F32.to_ushort (F32.mul PW_MAX p) = z
    /\ 0 <= z <= 14000.
Proof.
  intros Vp P0 P1.
  destruct const_0 as [F0 V0], const_1 as [F1 V1], const_14000 as [F14 V14].
  destruct (fin_between p _ _ Vp F0 F1 P0 P1) as [Fp Bp].
  pose proof (pow2_pos 298 ltac:(lia)) as PU.
  destruct (mul_between PW_MAX p F32.zero PW_MAX) as [Fr Br]; try assumption.
  { rewrite V0, V1, V14 in *. set (U := 2 ^ 298) in *. clearbody U. nia. }
  unfold F32.mul. change F32.prec with 24. change F32.emax with 128.
  rewrite V0, V14 in Br.
  assert (R : forall z, 0 <= z <= 14000 -> F32.int_of_Z_opt (Some z) mod 2 ^ 16 = z).
  { intros z Hz. unfold F32.int_of_Z_opt.
    change (- 2 ^ 31) with (-2147483648). change (2 ^ 31) with 2147483648.
    destruct (Z.leb_spec (-2147483648) z); [|lia].
    destruct (Z.ltb_spec z 2147483648); [|lia]. cbn [andb].
    apply Z.mod_small. change (2 ^ 16) with 65536. lia. }
  unfold F32.to_ushort, F32.to_int.
  destruct (SFmul 24 128 PW_MAX p) as [s|s| |s m e]; cbn [fin V] in *; try discriminate.
  - exists 0. cbn [F32.trunc]. split; [reflexivity|]. split; [apply R; lia|lia].
  - pose proof (bounded_digits _ _ Fr) as (He & _).
    pose proof (pow2_pos (e + 298) ltac:(lia)) as PE.
    destruct s; cbn [cond_Zopp] in Br; [nia|].
    cbn [F32.trunc cond_Zopp].
    assert (Hz : 0 <= match e with
                      | Zneg k => Z.shiftr (Zpos m) (Zpos k)
                      | _ => Z.shiftl (Zpos m) e
                      end <= 14000).
    { destruct e as [|k|k].
      - cbn [Z.shiftl]. change (2 ^ (0 + 298)) with (2 ^ 298) in Br. nia.
      - rewrite Z.shiftl_mul_pow2 by lia.
        rewrite (Z.pow_add_r 2 (Zpos k) 298) in Br by lia.
        pose proof (pow2_pos (Zpos k) ltac:(lia)). nia.
      - rewrite Z.shiftr_div_pow2 by lia.
        pose proof (pow2_pos (Zpos k) ltac:(lia)) as PK.
        assert (E : 2 ^ 298 = 2 ^ (Zneg k + 298) * 2 ^ Zpos k).
        { rewrite <- Z.pow_add_r by lia. f_equal. lia. }
        rewrite E in Br.
        assert (Zpos m <= 14000 * 2 ^ Zpos k) by nia.
        split; [apply Z.div_pos; lia|].
        apply Z.div_le_upper_bound; lia. }
    eexists. split; [reflexivity|]. split; [apply R; exact Hz|exact Hz].
Qed.

Lemma MODE_eqb_eq a b : MODE_eqb a b = true -> a = b.
Proof. destruct a, b; cbn; congruence. Qed.

(** * The claims *)

(** C1. The claim asks every step of every program table to carry 15
    weights in [0,1], so that reading weights 0..14 stays inside the
    vector. The tables of WLE, PSE, LSCI, SSFDI, WARMUP and OFF do; the
    second step of the MULTI table has 14 weights (all of them in [0,1]),
    and the first frame played in MULTI mode reads past its end, whatever
    the channel means are. *)
Theorem C1_multi_step_has_14_weights (c : LightController) (odd even : bgr) :
  mSynced c = true ->
  forallb step_ok (wle_prgrm ++ pse_prgrm ++ lsci_prgrm ++ ssfdi_prgrm
                   ++ warmup_prgrm ++ off_prgrm) = true
  /\ map (fun step => length (fst step)) multi_prgrm
     = [15; 14; 15; 15; 15; 15; 15; 15]%nat
  /\ forallb (fun step => forallb weight_ok (fst step)) multi_prgrm = true
  /\ (SetMode MULTI;; IncrementPrgrm odd even) c = None.
Proof.
  intro Hs. split; [vm_compute; reflexivity|]. split; [reflexivity|].
  split; [vm_compute; reflexivity|].
  destruct (SetMode_accepted MULTI c) as (c0 & E0 & Hm & Hc & _ & _ & _ & _ & Hp & Hsy & _).
  { rewrite Hs. reflexivity. }
  unfold bind at 1. rewrite E0.
  unfold IncrementPrgrm, IncrementPrgrm_pwrs. unfold bind at 1 2 3. unfold gets.
  rewrite Hm, Hsy, Hs. cbn [MODE_eqb negb andb].
  rewrite for_loop_S. unfold bind at 1.
  destruct (field_step odd even 0 _ c0) as [[p1 c1]|] eqn:E1; [|reflexivity].
  pose proof (keeps_field_step _ _ _ _ _ _ _ E1) as (_ & Hp1 & _).
  pose proof (field_step_effect _ _ _ _ _ _ _ E1) as (Hc1 & _).
  rewrite for_loop_S. unfold bind at 1.
  rewrite field_step_multi_second; [reflexivity| |].
  - rewrite Hp1, Hp. reflexivity.
  - rewrite Hc1, Hc. reflexivity.
Qed.

Lemma C1_multi_step_has_14_weights_witness :
  mSynced synced_controller = true
  /\ (SetMode MULTI;; IncrementPrgrm zero_means zero_means) synced_controller = None.
Proof.
  split; [reflexivity|].
  apply (C1_multi_step_has_14_weights synced_controller zero_means zero_means).
  reflexivity.
Defined.

(** C2, as stated, fails: on the first LSCI frame the outbound pulse width
    at index 14 (diode 14, odd field) is 0, not 7000; only index 29 is
    forced to PW_LSCI. *)
Lemma C2_counterexample_odd_field_not_forced :
  exists c' rec,
    SetMode LSCI synced_controller = Some (tt, lsci_start_controller)
    /\ IncrementPrgrm zero_means zero_means lsci_start_controller = Some (tt, c')
    /\ mOutputQueue c' = mOutputQueue lsci_start_controller ++ [rec]
    /\ nth_error (pws rec) 14 = Some 0
    /\ nth_error (pws rec) 14 <> Some 7000
    /\ nth_error (pws rec) 29 = Some 7000.
Proof.
  do 2 eexists. split; [reflexivity|]. split; [vm_compute; reflexivity|].
  cbn. repeat split. discriminate.
Qed.

(** C2, amended. On every per-frame invocation while the mode is LSCI
    (with the LSCI program installed) the outbound pulse width at index 29,
    the high-coherence channel of the even field, equals PW_LSCI = 7000,
    whatever powers the feedback loop computed. Index 14, the same diode
    on the odd field, is not overwritten: it is the pulse width converted
    from the power computed for that diode. *)
Theorem C2_lsci_even_field_width (c : LightController) (odd even : bgr) :
  mMode c = LSCI -> mPrgrm c = lsci_prgrm ->
  exists pwrs c1 c' rec,
    IncrementPrgrm_pwrs odd even c = Some (pwrs, c1)
    /\ IncrementPrgrm odd even c = Some (tt, c')
    /\ mOutputQueue c' = mOutputQueue c ++ [rec]
    /\ nth_error (pws rec) 29 = Some 7000
    /\ nth_error (pws rec) 14 =
         option_map (fun p => F32.to_ushort (F32.mul PW_MAX p)) (nth_error pwrs 14).
Proof.
  intros Hm Hp.
  destruct (IncrementPrgrm_defined odd even c) as (c' & E).
  { apply (prgrm_ok_tables LSCI); [discriminate|assumption|assumption]. }
  destruct (IncrementPrgrm_record _ _ _ _ E) as (pwrs & c1 & E1 & Hlen & Hq & _).
  exists pwrs, c1, c'. eexists. split; [exact E1|]. split; [exact E|].
  split; [exact Hq|]. rewrite Hm. unfold sent_widths. cbn [pws MODE_eqb].
  rewrite to_ushort_PW_LSCI. split.
  - apply nth_error_array_set_eq. rewrite pulse_widths_length. lia.
  - rewrite nth_error_array_set_neq by lia. apply pulse_widths_nth.
Qed.

Lemma C2_lsci_even_field_width_witness :
  mMode lsci_start_controller = LSCI
  /\ mPrgrm lsci_start_controller = lsci_prgrm
  /\ exists c' rec,
      IncrementPrgrm bright_means bright_means lsci_start_controller = Some (tt, c')
      /\ mOutputQueue c' = mOutputQueue lsci_start_controller ++ [rec]
      /\ nth_error (pws rec) 29 = Some 7000.
Proof.
  split; [reflexivity|]. split; [reflexivity|].
  destruct (C2_lsci_even_field_width lsci_start_controller bright_means bright_means)
    as (pwrs & c1 & c' & rec & _ & E & Hq & H29 & _); [reflexivity..|].
  exists c', rec. repeat split; assumption.
Defined.

(** C3. The claim expects the rotation feedback to take over from the
    bootstrap power 0.2 once enough observations have accumulated, and to
    stay in charge on every later frame. The gate compares the program
    counter with [mBufferOffset - 20] in unsigned arithmetic: with the
    buffer offset 2 the threshold is 2^32 - 18, so on every LSCI frame that
    starts with a program counter outside [2^32 - 20, 2^32 - 3] (the
    counter is below 2^32 - 18 when the gate is read) the bootstrap power
    0.2 is what the rotation queue and the rotation mount receive, and the
    red mean of the even field is not used. *)
Theorem C3_rotation_feedback_gated_off (c : LightController) (odd even : bgr) :
  mMode c = LSCI -> mPrgrm c = lsci_prgrm -> mBufferOffset c = 2 ->
  0 <= mPrgrmCount c < 2 ^ 32 ->
  ~ (2 ^ 32 - 20 <= mPrgrmCount c <= 2 ^ 32 - 3) ->
  wrap32 (mBufferOffset c - 10 * 2) = 4294967278
  /\ exists c',
      IncrementPrgrm odd even c = Some (tt, c')
      /\ mRotBuffer c' = mRotBuffer c ++ [F32.lit 2 10]
      /\ mRotnPositions c' = mRotnPositions c ++ [Power2RotnAngle (F32.lit 2 10)].
Proof.
  intros Hm Hp Ho Hc Hout.
  split; [rewrite Ho; vm_compute; reflexivity|].
  destruct (IncrementPrgrm_defined odd even c) as (c' & E).
  { apply (prgrm_ok_tables LSCI); [discriminate|assumption|assumption]. }
  exists c'. split; [exact E|].
  unfold IncrementPrgrm, bind in E.
  destruct (IncrementPrgrm_pwrs odd even c) as [[pwrs c1]|] eqn:E1; [|discriminate].
  destruct (keeps_IncrementPrgrm_pwrs _ _ _ _ _ E1) as (K1 & _).
  destruct (IncrementPrgrm_pwrs_fields _ _ _ _ _ ltac:(rewrite Hm; reflexivity)
              ltac:(rewrite Hm; reflexivity) E1) as (F1 & F2 & F3 & F4 & _).
  destruct (IncrementPrgrm_send_rotation even pwrs c1 c' ltac:(congruence) E) as (R1 & R2).
  assert (G : rotation_gate c1 = false).
  { unfold rotation_gate. rewrite F1, F2, Ho. apply Z.leb_gt.
    change (wrap32 (2 - 10 * 2)) with 4294967278.
    unfold wrap32.
    change (2 ^ 32) with 4294967296 in *.
    destruct (Z_lt_ge_dec (mPrgrmCount c + 1) 4294967296) as [L|L].
    - rewrite (Z.mod_small (mPrgrmCount c + 1)) by lia.
      destruct (Z_lt_ge_dec (mPrgrmCount c + 2) 4294967296) as [L2|L2].
      + rewrite Z.mod_small by lia. lia.
      + replace (mPrgrmCount c + 1 + 1) with 4294967296 by lia. cbn. lia.
    - replace (mPrgrmCount c + 1) with 4294967296 by lia. cbn. lia. }
  unfold rotation_power in R1, R2. rewrite G in R1, R2.
  rewrite R1, R2, F3, F4. split; reflexivity.
Qed.

Lemma C3_rotation_feedback_gated_off_witness :
  mMode lsci_start_controller = LSCI
  /\ mPrgrm lsci_start_controller = lsci_prgrm
  /\ mBufferOffset lsci_start_controller = 2
  /\ 0 <= mPrgrmCount lsci_start_controller < 2 ^ 32
  /\ ~ (2 ^ 32 - 20 <= mPrgrmCount lsci_start_controller <= 2 ^ 32 - 3)
  /\ exists c',
      IncrementPrgrm bright_means bright_means lsci_start_controller = Some (tt, c')
      /\ mRotBuffer c' = mRotBuffer lsci_start_controller ++ [F32.lit 2 10]
      /\ mRotnPositions c' =
           mRotnPositions lsci_start_controller ++ [Power2RotnAngle (F32.lit 2 10)].
Proof.
  assert (H1 : 0 <= mPrgrmCount lsci_start_controller < 2 ^ 32) by (cbn; lia).
  assert (H2 : ~ (2 ^ 32 - 20 <= mPrgrmCount lsci_start_controller <= 2 ^ 32 - 3))
    by (cbn; lia).
  split; [reflexivity|]. split; [reflexivity|]. split; [reflexivity|].
  split; [exact H1|]. split; [exact H2|].
  apply (C3_rotation_feedback_gated_off lsci_start_controller bright_means bright_means
           eq_refl eq_refl eq_refl H1 H2).
Defined.

(** C4. For every observed mean [y] in [0, 255] and every prior power [p]
    in [0, 1] (binary32 numbers) the feedback computation is well
    defined: alpha is (256 - 128) * PWR_MAX = 128, the denominator
    (TARGET_IMG_INTENSITY - y) * p + alpha, computed in binary32, is
    strictly positive, the quotient is not a NaN, and the clamped result
    ClampPwr(UpdatePower(y, p)) lies in [PWR_MIN, 0.999]. *)
Theorem C4_feedback_within_bounds (y p : F32.float) :
  F32.valid y = true -> F32.valid p = true ->
  F32.leb F32.zero y = true -> F32.leb y (F32.of_Z MAX_IMG_INTENSITY) = true ->
  F32.leb F32.zero p = true -> F32.leb p (F32.of_Z 1) = true ->
  alpha = F32.of_Z 128
  /\ F32.ltb F32.zero (UpdatePower_den y p) = true
  /\ F32.div (UpdatePower_num y p) (UpdatePower_den y p) <> S754_nan
  /\ F32.leb PWR_MIN (ClampPwr (UpdatePower y p)) = true
  /\ F32.leb (ClampPwr (UpdatePower y p)) PWR_CAP = true
  /\ PWR_MIN = F32.lit_double 1 100 /\ PWR_CAP = F32.lit 999 1000.
Proof.
  intros Vy Vp Y0 Y1 P0 P1.
  split; [exact alpha_eq|].
  destruct (feedback_quotient_defined y p Vy Vp Y0 Y1 P0 P1) as [H1 H2].
  destruct (feedback_clamped y p Vy Vp Y0 Y1 P0 P1) as [H3 H4].
  repeat split; assumption.
Qed.

Lemma C4_feedback_within_bounds_witness :
  F32.valid (F32.of_Z 255) = true /\ F32.valid (F32.of_Z 1) = true
  /\ F32.leb F32.zero (F32.of_Z 255) = true
  /\ F32.leb (F32.of_Z 255) (F32.of_Z MAX_IMG_INTENSITY) = true
  /\ F32.leb F32.zero (F32.of_Z 1) = true /\ F32.leb (F32.of_Z 1) (F32.of_Z 1) = true
  /\ F32.ltb F32.zero (UpdatePower_den (F32.of_Z 255) (F32.of_Z 1)) = true
  /\ F32.leb PWR_MIN (ClampPwr (UpdatePower (F32.of_Z 255) (F32.of_Z 1))) = true
  /\ F32.leb (ClampPwr (UpdatePower (F32.of_Z 255) (F32.of_Z 1))) PWR_CAP = true.
Proof.
  assert (A1 : F32.valid (F32.of_Z 255) = true) by (vm_compute; reflexivity).
  assert (A2 : F32.valid (F32.of_Z 1) = true) by (vm_compute; reflexivity).
  assert (A3 : F32.leb F32.zero (F32.of_Z 255) = true) by (vm_compute; reflexivity).
  assert (A4 : F32.leb (F32.of_Z 255) (F32.of_Z MAX_IMG_INTENSITY) = true)
    by (vm_compute; reflexivity).
  assert (A5 : F32.leb F32.zero (F32.of_Z 1) = true) by (vm_compute; reflexivity).
  assert (A6 : F32.leb (F32.of_Z 1) (F32.of_Z 1) = true) by (vm_compute; reflexivity).
  destruct (C4_feedback_within_bounds (F32.of_Z 255) (F32.of_Z 1) A1 A2 A3 A4 A5 A6)
    as (_ & H1 & _ & H3 & H4 & _).
  repeat split; assumption.
Defined.

(** C5, as stated, fails: the prior power PWR_MAX = 1.0 lies in
    [PWR_MIN, PWR_MAX], and with the observed mean at the target the update
    returns 0.999, not 1.0. *)
Lemma C5_counterexample_cap :
  F32.leb PWR_MIN PWR_MAX = true
  /\ F32.leb PWR_MAX PWR_MAX = true
  /\ UpdatePower (F32.of_Z TARGET_IMG_INTENSITY) PWR_MAX = PWR_CAP
  /\ UpdatePower (F32.of_Z TARGET_IMG_INTENSITY) PWR_MAX <> PWR_MAX.
Proof.
  split; [vm_compute; reflexivity|]. split; [vm_compute; reflexivity|].
  split; [vm_compute; reflexivity|]. vm_compute. discriminate.
Qed.

(** C5, amended. For every prior power [p] in [PWR_MIN, PWR_MAX] and with
    the observed mean equal to TARGET_IMG_INTENSITY = 128, the feedback
    update returns exactly [p] when [p] is at most 0.999, and returns 0.999
    when [p] is above 0.999: an observation at the target is a fixed point
    of the update law up to its cap. *)
Theorem C5_target_is_fixed_point (p : F32.float) :
  F32.valid p = true ->
  F32.leb PWR_MIN p = true -> F32.leb p PWR_MAX = true ->
  (F32.leb p PWR_CAP = true -> UpdatePower (F32.of_Z TARGET_IMG_INTENSITY) p = p)
  /\ (F32.gtb p PWR_CAP = true ->
      UpdatePower (F32.of_Z TARGET_IMG_INTENSITY) p = PWR_CAP).
Proof.
  intros Vp L1 L2. rewrite (UpdatePower_at_target p Vp L1 L2). split.
  - intro L. unfold F32.gtb. rewrite (SFleb_not_gt _ _ L). reflexivity.
  - intros ->. reflexivity.
Qed.

Lemma C5_target_is_fixed_point_witness :
  F32.valid PWR_START = true
  /\ F32.leb PWR_MIN PWR_START = true /\ F32.leb PWR_START PWR_MAX = true
  /\ F32.leb PWR_START PWR_CAP = true
  /\ UpdatePower (F32.of_Z TARGET_IMG_INTENSITY) PWR_START = PWR_START.
Proof.
  assert (A1 : F32.valid PWR_START = true) by (vm_compute; reflexivity).
  assert (A2 : F32.leb PWR_MIN PWR_START = true) by (vm_compute; reflexivity).
  assert (A3 : F32.leb PWR_START PWR_MAX = true) by (vm_compute; reflexivity).
  assert (A4 : F32.leb PWR_START PWR_CAP = true) by (vm_compute; reflexivity).
  split; [exact A1|]. split; [exact A2|]. split; [exact A3|]. split; [exact A4|].
  exact (proj1 (C5_target_is_fixed_point PWR_START A1 A2 A3) A4).
Defined.

(** C6. While the mode is SYNC and the sync flag is clear, an invocation
    with buffer offset 0 sets the power of the 15 diodes to 1.0 on the odd
    field and to 0 on the even field (pulse widths 14000 and 0), sets the
    buffer offset to 2 and advances the program counter by 2. An
    invocation with a buffer offset other than 0 tests whether the mean
    (B+G+R)/3 of the odd field exceeds 40, which is the binary32 comparison
    [((b + g) + r) / 3.f > 40.f] of the three odd-field means, written out
    in the statement: if it holds, the sync flag is latched and the buffer
    offset keeps its value; if it does not, the buffer offset and the
    program counter advance by 2. The program counter advances by 2 on the
    latching invocation as well. The counters are [unsigned int]: "advance
    by 2" is [+= 2] modulo 2^32, which is [+ 2] below 2^32 - 2. *)
Theorem C6_sync_procedure (c : LightController) (odd even : bgr) :
  mMode c = SYNC -> mSynced c = false ->
  exists pwrs c1 c',
    IncrementPrgrm_pwrs odd even c = Some (pwrs, c1)
    /\ IncrementPrgrm odd even c = Some (tt, c')
    /\ mOutputQueue c' =
         mOutputQueue c ++ [{| fid := int_of_uint (mFid c); pws := pulse_widths pwrs |}]
    /\ mPrgrmCount c' = wrap32 (mPrgrmCount c + 2)
    /\ (0 <= mPrgrmCount c < 2 ^ 32 - 2 -> mPrgrmCount c' = mPrgrmCount c + 2)
    /\ if mBufferOffset c =? 0
       then pwrs = repeat (F32.of_Z 1) 15 ++ repeat F32.zero 15
            /\ pulse_widths pwrs = repeat 14000 15 ++ repeat 0 15
            /\ mBufferOffset c' = 2
            /\ mSynced c' = false
       else if F32.gtb (F32.div (F32.add (F32.add (chn0 odd) (chn1 odd)) (chn2 odd))
                                (F32.of_Z 3))
                       (F32.of_Z 40)
            then mSynced c' = true
                 /\ mBufferOffset c' = mBufferOffset c
            else mSynced c' = false
                 /\ mBufferOffset c' = wrap32 (mBufferOffset c + 2)
                 /\ (0 <= mBufferOffset c < 2 ^ 32 - 2 ->
                     mBufferOffset c' = mBufferOffset c + 2).
Proof.
  intros Hm Hs.
  destruct (IncrementPrgrm_pwrs_sync odd even c Hm Hs) as (pwrs & c1 & E & Hc & Hb).
  destruct (IncrementPrgrm_send_spec even pwrs c1)
    as (c' & E' & S1 & _ & _ & _ & S5 & S6 & S7 & _).
  destruct (keeps_IncrementPrgrm_pwrs _ _ _ _ _ E) as (K1 & _ & K3 & K4 & _).
  exists pwrs, c1, c'. split; [exact E|].
  split; [unfold IncrementPrgrm, bind; rewrite E; exact E'|].
  split.
  { rewrite S1, K3, K4, K1, Hm. reflexivity. }
  rewrite S5, S6, S7, Hc.
  split; [reflexivity|]. split; [intro; apply wrap32_small; lia|].
  destruct (mBufferOffset c =? 0).
  - destruct Hb as (-> & -> & ->). repeat split.
  - destruct Hb as (_ & Hb).
    change (F32.gtb (F32.div (F32.add (F32.add (chn0 odd) (chn1 odd)) (chn2 odd))
                             (F32.of_Z 3)) (F32.of_Z 40))
      with (sync_pulse_arrived odd).
    destruct (sync_pulse_arrived odd).
    + destruct Hb as (-> & ->). split; reflexivity.
    + destruct Hb as (-> & ->). repeat split. intro. apply wrap32_small. lia.
Qed.

Lemma C6_sync_procedure_witness :
  (mMode sync_start_controller = SYNC
   /\ mSynced sync_start_controller = false
   /\ exists c',
       IncrementPrgrm zero_means zero_means sync_start_controller = Some (tt, c')
       /\ mBufferOffset c' = 2 /\ mPrgrmCount c' = 2 /\ mSynced c' = false)
  /\ (mMode sync_waiting_controller = SYNC
      /\ mSynced sync_waiting_controller = false
      /\ mBufferOffset sync_waiting_controller = 2
      /\ mPrgrmCount sync_waiting_controller = 2)
  /\ (exists c',
        IncrementPrgrm {| chn0 := F32.zero; chn1 := F32.zero; chn2 := F32.of_Z 123 |}
                       zero_means sync_waiting_controller = Some (tt, c')
        /\ mSynced c' = true /\ mBufferOffset c' = 2 /\ mPrgrmCount c' = 4)
  /\ (exists c',
        IncrementPrgrm {| chn0 := F32.of_Z 120; chn1 := F32.zero; chn2 := F32.zero |}
                       zero_means sync_waiting_controller = Some (tt, c')
        /\ mSynced c' = false /\ mBufferOffset c' = 4 /\ mPrgrmCount c' = 4).
Proof.
  split.
  { split; [reflexivity|]. split; [reflexivity|].
    destruct (C6_sync_procedure sync_start_controller zero_means zero_means)
      as (pwrs & c1 & c' & _ & E & _ & H2 & _ & H); [reflexivity..|].
    exists c'. split; [exact E|].
    cbn in H. destruct H as (_ & _ & H1 & H3). repeat split; assumption. }
  split; [repeat split; reflexivity|].
  split.
  - destruct (C6_sync_procedure sync_waiting_controller
                {| chn0 := F32.zero; chn1 := F32.zero; chn2 := F32.of_Z 123 |} zero_means)
      as (pwrs & c1 & c' & _ & E & _ & H2 & _ & H); [reflexivity..|].
    exists c'. split; [exact E|].
    vm_compute in H. destruct H as (H1 & H3). repeat split; assumption.
  - destruct (C6_sync_procedure sync_waiting_controller
                {| chn0 := F32.of_Z 120; chn1 := F32.zero; chn2 := F32.zero |} zero_means)
      as (pwrs & c1 & c' & _ & E & _ & H2 & _ & H); [reflexivity..|].
    exists c'. split; [exact E|].
    vm_compute in H. destruct H as (H1 & H3 & _). repeat split; assumption.
Defined.

(** C7. While the sync flag is false, [SetMode] called with WLE, PSE,
    LSCI, MULTI or SSFDI returns at once and leaves the whole state as it
    was: mode, program, program counter, buffer offset, sync flag, frame
    id and the three feedback queues, and also the positions sent to the
    rotation mount and the log, so no rotation command is issued and no
    record is logged. *)
Theorem C7_SetMode_ignored_before_sync (c : LightController) (mode : MODE) :
  mSynced c = false ->
  In mode [WLE; PSE; LSCI; MULTI; SSFDI] ->
  SetMode mode c = Some (tt, c).
Proof.
  intros Hs Hin. unfold SetMode. unfold bind at 1. unfold gets at 1. rewrite Hs.
  cbn in Hin. decompose [or] Hin; subst; try contradiction; reflexivity.
Qed.

Lemma C7_SetMode_ignored_before_sync_witness :
  mSynced initial_controller = false
  /\ In LSCI [WLE; PSE; LSCI; MULTI; SSFDI]
  /\ SetMode LSCI initial_controller = Some (tt, initial_controller).
Proof.
  split; [reflexivity|]. split; [cbn; auto|].
  apply (C7_SetMode_ignored_before_sync initial_controller LSCI); [reflexivity|cbn; auto].
Defined.

(** C8, as stated, fails: two consecutive invocations of a synchronized
    controller whose frame id is 2^31 - 1 enqueue records with frame ids
    2147483647 and -2147483648, which do not increase. *)
Lemma C8_counterexample_frame_id_wraps :
  exists c' r1 r2,
    run_frames [(zero_means, zero_means); (zero_means, zero_means)] late_controller
      = Some (tt, c')
    /\ mSynced late_controller = true
    /\ mOutputQueue c' = mOutputQueue late_controller ++ [r1; r2]
    /\ fid r1 = 2147483647
    /\ fid r2 = -2147483648
    /\ ~ fid r1 < fid r2.
Proof.
  do 3 eexists. split; [vm_compute; reflexivity|].
  split; [reflexivity|]. split; [reflexivity|]. cbn. repeat split. lia.
Qed.

(** C8, amended. Every invocation of the per-frame operation that reads
    the installed program inside its vectors (every table but MULTI's
    gives such a program, and the SYNC and WARMUP branches are included)
    enqueues exactly one outbound record, whose frame id is the
    controller's frame id, and then increments the frame id by 1; hence N
    consecutive invocations that start at frame id [f] with
    [f + N <= 2^31] enqueue exactly N records, with the strictly
    increasing frame ids f, f+1, ..., f+N-1. *)
Theorem C8_one_record_per_frame (frames : list (bgr * bgr)) (c : LightController) :
  prgrm_ok c ->
  0 <= mFid c ->
  mFid c + Z.of_nat (length frames) <= 2 ^ 31 ->
  exists c' recs,
    run_frames frames c = Some (tt, c')
    /\ mOutputQueue c' = mOutputQueue c ++ recs
    /\ length recs = length frames
    /\ map fid recs = map (fun k => mFid c + Z.of_nat k) (seq 0 (length frames))
    /\ StronglySorted Z.lt (map fid recs)
    /\ mFid c' = mFid c + Z.of_nat (length frames).
Proof.
  revert c. induction frames as [|[odd even] frames IH]; intros c Hok Hf Hn.
  - exists c, []. cbn. rewrite app_nil_r, Z.add_0_r. repeat split. constructor.
  - cbn [length] in Hn. rewrite Nat2Z.inj_succ in Hn.
    destruct (IncrementPrgrm_defined odd even c Hok) as (c1 & E1).
    pose proof (prgrm_ok_step _ _ _ _ Hok E1) as Hok1.
    destruct (IncrementPrgrm_record _ _ _ _ E1) as (pwrs & c0 & _ & _ & Hq & Hfid & _).
    rewrite wrap32_small in Hfid by lia.
    destruct (IH c1 Hok1) as (c' & recs & E & Hq' & Hlen & Hids & _ & Hf'); [lia..|].
    exists c'. eexists (_ :: recs).
    split; [cbn [run_frames]; unfold bind; rewrite E1; exact E|].
    split; [rewrite Hq', Hq, <- app_assoc; reflexivity|].
    split; [cbn; congruence|].
    assert (Hmap : map fid ({| fid := int_of_uint (mFid c);
                               pws := sent_widths (mMode c) pwrs |} :: recs)
                   = map (fun k => mFid c + Z.of_nat k) (seq 0 (length ((odd, even) :: frames)))).
    { cbn [map length seq fid]. rewrite int_of_uint_small by lia.
      rewrite Z.add_0_r. f_equal. rewrite Hids, Hfid.
      rewrite <- seq_shift, map_map. apply map_ext. intro k. lia. }
    split; [exact Hmap|]. split; [rewrite Hmap; apply frame_ids_increasing|].
    rewrite Hf', Hfid. cbn [length]. lia.
Qed.

Lemma C8_one_record_per_frame_witness :
  prgrm_ok synced_controller
  /\ 0 <= mFid synced_controller
  /\ mFid synced_controller + Z.of_nat (length [(zero_means, bright_means)]) <= 2 ^ 31
  /\ exists c' recs,
      run_frames [(zero_means, bright_means)] synced_controller = Some (tt, c')
      /\ mOutputQueue c' = mOutputQueue synced_controller ++ recs
      /\ length recs = 1%nat
      /\ map fid recs = [2].
Proof.
  assert (H0 : prgrm_ok synced_controller).
  { unfold prgrm_ok. cbn. split; [discriminate|]. split; [|discriminate].
    repeat constructor. }
  assert (H1 : 0 <= mFid synced_controller) by (cbn; lia).
  assert (H2 : mFid synced_controller
               + Z.of_nat (length [(zero_means, bright_means)]) <= 2 ^ 31) by (cbn; lia).
  split; [exact H0|]. split; [exact H1|]. split; [exact H2|].
  destruct (C8_one_record_per_frame [(zero_means, bright_means)] synced_controller H0 H1 H2)
    as (c' & recs & E & Hq & Hl & Hm & _).
  exists c', recs. repeat split; assumption.
Defined.

(** C9, as stated, fails: on the second WLE frame after sync the power of
    diode 0 is 1/3 (in binary32), the outbound pulse width is 4666, and
    round(PW_MAX * power) is 4667. *)
Lemma C9_counterexample_truncation :
  exists pwrs c1 c' rec p,
    IncrementPrgrm_pwrs zero_means zero_means wle_running_controller = Some (pwrs, c1)
    /\ IncrementPrgrm zero_means zero_means wle_running_controller = Some (tt, c')
    /\ mOutputQueue c' = mOutputQueue wle_running_controller ++ [rec]
    /\ nth_error pwrs 0 = Some p
    /\ nth_error (pws rec) 0 = Some 4666
    /\ spec_pulse_width p = Some 4667.
Proof.
  do 5 eexists. split; [vm_compute; reflexivity|]. split; [vm_compute; reflexivity|].
  split; [reflexivity|]. split; [reflexivity|]. split; reflexivity.
Qed.

(** C9, amended. On every frame (played from a program that is read
    inside its vectors) each of the 30 outbound pulse widths is the
    product PW_MAX * power of the corresponding per-diode power converted
    to [unsigned short], that is truncated toward zero and not rounded to
    the nearest integer (in LSCI mode index 29 is then overwritten by
    PW_LSCI); the code applies no clamp, and for a power in [0,1] the
    pulse width lies in [0, PW_MAX = 14000]. In particular, after
    sync with buffer offset 2, the first WLE invocation with all-zero
    channel means emits the power PWR_START = 0.2 on both fields, giving
    the pulse widths 2800 for diode 0 and 2380 for diode 1. *)
Theorem C9_pulse_widths_truncate :
  (forall c odd even,
      prgrm_ok c ->
      exists pwrs c1 c' rec,
        IncrementPrgrm_pwrs odd even c = Some (pwrs, c1)
        /\ length pwrs = 30%nat
        /\ IncrementPrgrm odd even c = Some (tt, c')
        /\ mOutputQueue c' = mOutputQueue c ++ [rec]
        /\ length (pws rec) = 30%nat
        /\ forall n p,
            nth_error pwrs n = Some p ->
            (mMode c = LSCI -> n <> 29%nat) ->
            nth_error (pws rec) n = Some (F32.to_ushort (F32.mul PW_MAX p)))
  /\ (forall p,
         F32.valid p = true -> F32.leb F32.zero p = true ->
         F32.leb p (F32.of_Z 1) = true ->
         exists z,
           F32.trunc (F32.mul PW_MAX p) = Some z
           /\ F32.to_ushort (F32.mul PW_MAX p) = z
           /\ 0 <= z <= 14000)
  /\ (forall c,
         mSynced c = true -> mBufferOffset c = 2 ->
         exists c0 pwrs c1 c' rec,
           SetMode WLE c = Some (tt, c0)
           /\ IncrementPrgrm_pwrs zero_means zero_means c0 = Some (pwrs, c1)
           /\ mPwrBuffer c1 = [PWR_START; PWR_START]
           /\ IncrementPrgrm zero_means zero_means c0 = Some (tt, c')
           /\ mOutputQueue c' = mOutputQueue c ++ [rec]
           /\ nth_error (pws rec) 0 = Some 2800
           /\ nth_error (pws rec) 1 = Some 2380
           /\ nth_error (pws rec) 15 = Some 2800
           /\ nth_error (pws rec) 16 = Some 2380).
Proof.
  split; [|split].
  - intros c odd even Hok.
    destruct (IncrementPrgrm_defined odd even c Hok) as (c' & E).
    destruct (IncrementPrgrm_record _ _ _ _ E) as (pwrs & c1 & E1 & Hlen & Hq & _).
    exists pwrs, c1, c'. eexists. split; [exact E1|]. split; [exact Hlen|].
    split; [exact E|]. split; [exact Hq|]. cbn [pws]. unfold sent_widths.
    destruct (MODE_eqb (mMode c) LSCI) eqn:Em.
    + apply MODE_eqb_eq in Em. split.
      * rewrite array_set_length, pulse_widths_length. exact Hlen.
      * intros n p Hn Hm. rewrite nth_error_array_set_neq by (specialize (Hm Em); lia).
        rewrite pulse_widths_nth, Hn. reflexivity.
    + split.
      * rewrite pulse_widths_length. exact Hlen.
      * intros n p Hn _. rewrite pulse_widths_nth, Hn. reflexivity.
  - exact pulse_width_range.
  - intros c Hs Ho.
    destruct (SetMode_accepted WLE c) as (c0 & E0 & Hm & Hc & Hf & Hq & _ & Hr).
    { rewrite Hs. reflexivity. }
    cbn [MODE_eqb] in Hr. destruct Hr as (Hb & Hp & Hsy & Q1 & Q2 & Q3).
    destruct c0 as [mode0 p0 cnt0 off0 f0 qp0 qf0 qr0 sy0 oq0 iq0 rp0 lg0].
    cbn [mMode mPrgrm mPrgrmCount mBufferOffset mFid mPwrBuffer mFrmBuffer mRotBuffer
         mSynced mOutputQueue prgrm_of_mode] in *.
    subst mode0 cnt0 off0 p0 qp0 qf0 qr0 sy0 oq0. rewrite Ho, Hs in *.
    exists {| mMode := WLE; mPrgrm := wle_prgrm; mPrgrmCount := 0; mBufferOffset := 2;
              mFid := f0; mPwrBuffer := []; mFrmBuffer := []; mRotBuffer := [];
              mSynced := true; mOutputQueue := mOutputQueue c; mInputQueue := iq0;
              mRotnPositions := rp0; mLog := lg0 |}.
    destruct (IncrementPrgrm_defined zero_means zero_means
                {| mMode := WLE; mPrgrm := wle_prgrm; mPrgrmCount := 0; mBufferOffset := 2;
                   mFid := f0; mPwrBuffer := []; mFrmBuffer := []; mRotBuffer := [];
                   mSynced := true; mOutputQueue := mOutputQueue c; mInputQueue := iq0;
                   mRotnPositions := rp0; mLog := lg0 |}) as (c' & E).
    { apply (prgrm_ok_tables WLE); [discriminate|reflexivity|reflexivity]. }
    destruct (IncrementPrgrm_record _ _ _ _ E) as (pwrs & c1 & E1 & _ & Hq' & _).
    exists pwrs, c1, c'. eexists.
    split; [exact E0|]. split; [exact E1|].
    assert (X : IncrementPrgrm_pwrs zero_means zero_means
                  {| mMode := WLE; mPrgrm := wle_prgrm; mPrgrmCount := 0; mBufferOffset := 2;
                     mFid := f0; mPwrBuffer := []; mFrmBuffer := []; mRotBuffer := [];
                     mSynced := true; mOutputQueue := mOutputQueue c; mInputQueue := iq0;
                     mRotnPositions := rp0; mLog := lg0 |}
                = Some (map (F32.mul PWR_START) (fst (hd ([], MONO) wle_prgrm)
                                                   ++ fst (hd ([], MONO) wle_prgrm)),
                        {| mMode := WLE; mPrgrm := wle_prgrm; mPrgrmCount := 2;
                           mBufferOffset := 2;
                           mFid := f0; mPwrBuffer := [PWR_START; PWR_START];
                           mFrmBuffer := []; mRotBuffer := [];
                           mSynced := true; mOutputQueue := mOutputQueue c; mInputQueue := iq0;
                           mRotnPositions := rp0; mLog := lg0 |})).
    { vm_compute. reflexivity. }
    rewrite X in E1. injection E1 as <- <-.
    split; [reflexivity|]. split; [exact E|]. split; [exact Hq'|].
    cbn [pws mMode]. repeat split; vm_compute; reflexivity.
Qed.

Lemma C9_pulse_widths_truncate_witness :
  mSynced synced_controller = true
  /\ mBufferOffset synced_controller = 2
  /\ exists c0 c' rec,
      SetMode WLE synced_controller = Some (tt, c0)
      /\ IncrementPrgrm zero_means zero_means c0 = Some (tt, c')
      /\ mOutputQueue c' = mOutputQueue synced_controller ++ [rec]
      /\ nth_error (pws rec) 0 = Some 2800
      /\ nth_error (pws rec) 1 = Some 2380.
Proof.
  split; [reflexivity|]. split; [reflexivity|].
  destruct C9_pulse_widths_truncate as (_ & _ & H).
  destruct (H synced_controller eq_refl eq_refl)
    as (c0 & pwrs & c1 & c' & rec & E0 & _ & _ & E & Hq & H0 & H1 & _).
  exists c0, c', rec. repeat split; assumption.
Defined.

(** C10, as stated, fails: a call that changes the mode from WLE to SYNC
    returns with the emitted-power queue still holding its two entries. *)
Lemma C10_counterexample_sync_keeps_queues :
  exists c',
    SetMode SYNC wle_running_controller = Some (tt, c')
    /\ mMode wle_running_controller = WLE
    /\ mMode c' = SYNC
    /\ mPwrBuffer c' = [PWR_START; PWR_START]
    /\ mPwrBuffer c' <> [].
Proof.
  eexists. split; [reflexivity|]. cbn. repeat split. discriminate.
Qed.

(** C10, amended. After every call to [SetMode] that is not ignored (the
    sync flag is set, or the mode is SYNC, WARMUP or OFF) the program
    counter is 0; when the new mode is not SYNC the three feedback queues
    are empty as well, and when it is SYNC they are left as they were:
    entering SYNC resets the buffer offset, installs the OFF program and
    clears the sync flag instead. *)
Theorem C10_SetMode_resets (c : LightController) (mode : MODE) :
  mSynced c = true \/ In mode [SYNC; WARMUP; OFF] ->
  exists c',
    SetMode mode c = Some (tt, c')
    /\ mMode c' = mode
    /\ mPrgrmCount c' = 0
    /\ (mode <> SYNC ->
        mPwrBuffer c' = [] /\ mFrmBuffer c' = [] /\ mRotBuffer c' = [])
    /\ (mode = SYNC ->
        mPwrBuffer c' = mPwrBuffer c /\ mFrmBuffer c' = mFrmBuffer c
        /\ mRotBuffer c' = mRotBuffer c
        /\ mBufferOffset c' = 0 /\ mPrgrm c' = off_prgrm /\ mSynced c' = false).
Proof.
  intro G.
  destruct (SetMode_accepted mode c) as (c' & E & Hm & Hc & _ & _ & _ & Hq).
  { destruct G as [->|Hin]; [reflexivity|].
    cbn in Hin. decompose [or] Hin; subst; try contradiction;
      destruct (mSynced c); reflexivity. }
  exists c'. split; [exact E|]. split; [exact Hm|]. split; [exact Hc|].
  destruct mode; cbn in Hq; (split; [intro Hn|intro He]);
    try discriminate; try congruence; tauto.
Qed.

Lemma C10_SetMode_resets_witness :
  (mSynced wle_running_controller = true \/ In OFF [SYNC; WARMUP; OFF])
  /\ exists c',
      SetMode OFF wle_running_controller = Some (tt, c')
      /\ mMode c' = OFF
      /\ mPrgrmCount c' = 0
      /\ mPwrBuffer c' = [] /\ mFrmBuffer c' = [] /\ mRotBuffer c' = [].
Proof.
  split; [left; reflexivity|].
  destruct (C10_SetMode_resets wle_running_controller OFF (or_introl eq_refl))
    as (c' & E & Hm & Hc & Hq & _).
  exists c'. split; [exact E|]. split; [exact Hm|]. split; [exact Hc|].
  apply Hq. discriminate.
Defined.

(** * Further properties *)

(** ** Rounding of quotients *)

Lemma shr_record_of_loc_m m l : shr_m (shr_record_of_loc m l) = m.
Proof. destruct l as [|[| |]]; reflexivity. Qed.

Lemma inexact_of_loc m : inexact (shr_record_of_loc m loc_Exact) = false.
Proof. reflexivity. Qed.

(** [round_aux_struct] for a mantissa that comes with a location. *)
Lemma round_aux_struct_loc (s : bool) (mx : positive) (ex : Z) (l : location) :
  let e' := fexp32 (Zpos (digits2_pos mx) + ex) in
  let k := e' - ex in
  0 <= k ->
  exists m',
    Zpos mx / 2 ^ k <= m' <= Zpos mx / 2 ^ k + 1
    /\ (Zpos mx mod 2 ^ k = 0 -> l = loc_Exact -> m' = Zpos mx / 2 ^ k)
    /\ m' <= 16777216
    /\ (-149 < e' -> 8388608 <= m')
    /\ binary_round_aux 24 128 s (Zpos mx) ex l = pack s m' e'.
Proof.
  intros e' k Hk.
  pose proof (digits2_pos_bounds mx) as Hd.
  set (d := Zpos (digits2_pos mx)) in *.
  unfold binary_round_aux, shr_fexp. cbn [Zdigits2].
  rewrite fexp_eq. fold d. fold e'. fold k.
  set (r0 := shr_record_of_loc (Zpos mx) l).
  assert (Hr0 : shr_m r0 = Zpos mx) by apply shr_record_of_loc_m.
  destruct (shr_spec r0 ex k) as (S1 & S2 & S3); [rewrite Hr0; lia | exact Hk |].
  destruct (shr r0 ex k) as [r1 e1]. cbn [fst snd] in S1, S2, S3.
  rewrite Hr0 in S2, S3.
  replace (ex + k) with e' in S1 by (unfold k; lia). subst e1.
  destruct (round_nearest_even_bounds r1) as [R1 R2].
  set (m' := round_nearest_even (shr_m r1) (loc_of_shr_record r1)) in *.
  rewrite S2 in R1, R2.
  assert (Q0 : 0 <= Zpos mx / 2 ^ k) by (apply Z.div_pos; [lia | apply Z.pow_pos_nonneg; lia]).
  assert (Hhi : Zpos mx / 2 ^ k < 16777216 /\ (-149 < e' -> 8388608 <= Zpos mx / 2 ^ k)
                /\ (e' = -149 -> Zpos mx / 2 ^ k < 8388608 \/ d + ex - 24 = -149)).
  { unfold fexp32 in e'.
    destruct (Z_le_gt_dec k d) as [Lk|Lk].
    - destruct (div_pow2_bounds (Zpos mx) d k Hk Lk Hd) as [B1 B2].
      assert (d - k <= 24) by lia.
      pose proof (Z.pow_le_mono_r 2 (d - k) 24 ltac:(lia) H) as P1.
      change (2 ^ 24) with 16777216 in P1.
      split; [lia|]. split.
      + intro He. assert (d - k = 24) by lia. assert (k < d) by lia.
        specialize (B2 H1). replace (d - k - 1) with 23 in B2 by lia.
        change (2 ^ 23) with 8388608 in B2. exact B2.
      + intro He. destruct (Z.eq_dec (d + ex - 24) (-149)) as [Eq|Ne]; [right; exact Eq|left].
        assert (d - k <= 23) by lia.
        pose proof (Z.pow_le_mono_r 2 (d - k) 23 ltac:(lia) H0) as P2.
        change (2 ^ 23) with 8388608 in P2. lia.
    - assert (Zpos mx / 2 ^ k = 0) as ->.
      { apply (div_pow2_small _ d); unfold d in *; lia. }
      split; [lia|]. split; intro; [lia|left; lia]. }
  destruct Hhi as (Hlt & Hnorm & Hsub).
  remember (Zpos mx / 2 ^ k) as q eqn:Eq_q.
  exists m'. split; [exact R1|]. split.
  { intros Hz ->. apply R2. rewrite S3, Hz. reflexivity. }
  split; [lia|]. split; [intro; specialize (Hnorm H); lia|].
  unfold pack. destruct (m' =? 0) eqn:E0.
  - apply Z.eqb_eq in E0. rewrite E0. cbn [Zdigits2 shr_record_of_loc].
    rewrite shr_nonpos; [reflexivity|].
    rewrite fexp_eq. unfold fexp32 in *. lia.
  - apply Z.eqb_neq in E0.
    destruct m' as [|p'|p'] eqn:Em; [congruence| |lia].
    cbn [Zdigits2 shr_record_of_loc]. rewrite fexp_eq.
    pose proof (digits2_pos_bounds p') as Hd'.
    set (d' := Zpos (digits2_pos p')) in *.
    destruct (Zpos p' =? 16777216) eqn:E1.
    + apply Z.eqb_eq in E1. injection E1 as ->.
      replace (fexp32 (d' + e') - e') with 1
        by (unfold d'; cbn [digits2_pos Pos.succ]; unfold fexp32 in *; lia).
      cbn [shr SpecFloat.iter_pos shr_1 fst snd shr_m].
      reflexivity.
    + apply Z.eqb_neq in E1.
      assert (D1 : d' <= 24).
      { assert (d' - 1 < 24); [|lia]. apply pow2_lt_mono; [unfold d'; lia|].
        change (2 ^ 24) with 16777216. lia. }
      assert (D2 : -149 < e' -> d' = 24).
      { intro He. specialize (Hnorm He).
        assert (23 < d'); [|lia]. apply pow2_lt_mono; [lia|].
        change (2 ^ 23) with 8388608. lia. }
      rewrite shr_nonpos; [cbn [shr_m]; reflexivity|].
      unfold fexp32 in *. lia.
Qed.

(** A quotient mantissa of 0 can still round up to the least subnormal. *)
Lemma round_aux_zero_loc (s : bool) (ex : Z) (l : location) :
  0 <= fexp32 ex - ex ->
  exists m', 0 <= m' <= 1
    /\ (l = loc_Exact -> m' = 0)
    /\ binary_round_aux 24 128 s 0 ex l = pack s m' (-149).
Proof.
  intro Hk. assert (He : fexp32 ex = -149) by (unfold fexp32 in *; lia).
  unfold binary_round_aux, shr_fexp. cbn [Zdigits2]. rewrite fexp_eq.
  replace (0 + ex) with ex by lia. rewrite He.
  set (r0 := shr_record_of_loc 0 l).
  assert (Hr0 : shr_m r0 = 0) by apply shr_record_of_loc_m.
  destruct (shr_spec r0 ex (-149 - ex)) as (S1 & S2 & S3); [rewrite Hr0; lia | lia |].
  destruct (shr r0 ex (-149 - ex)) as [r1 e1]. cbn [fst snd] in S1, S2, S3.
  rewrite Hr0 in S2, S3. rewrite Z.div_0_l in S2 by (apply Z.pow_nonzero; lia).
  replace (ex + (-149 - ex)) with (-149) in S1 by lia. subst e1.
  destruct (round_nearest_even_bounds r1) as [R1 R2].
  set (m' := round_nearest_even (shr_m r1) (loc_of_shr_record r1)) in *.
  rewrite S2 in R1, R2.
  exists m'. split; [lia|]. split.
  { intros ->. apply R2. rewrite S3. rewrite Z.mod_0_l by (apply Z.pow_nonzero; lia).
    reflexivity. }
  assert (Hm : m' = 0 \/ m' = 1) by lia.
  destruct Hm as [-> | ->]; reflexivity.
Qed.

Lemma fin_valid x : fin x = true -> valid_binary 24 128 x = true.
Proof. destruct x; cbn; congruence. Qed.



Lemma Zdigits2_nonneg q : 0 <= q -> 0 <= Zdigits2 q.
Proof. destruct q; cbn; lia. Qed.

Lemma Zdigits2_lower (q t : Z) :
  0 <= q -> (0 < t -> 2 ^ (t - 1) <= q) -> t <= Zdigits2 q.
Proof.
  intros Hq Ht. destruct (Z_le_gt_dec t 0) as [L|L].
  - pose proof (Zdigits2_nonneg q Hq). lia.
  - specialize (Ht ltac:(lia)). pose proof (pow2_pos (t - 1) ltac:(lia)).
    destruct q as [|p|p]; try lia. cbn [Zdigits2].
    pose proof (digits2_pos_bounds p) as [_ Hp].
    assert (t - 1 < Zpos (digits2_pos p)); [|lia].
    apply pow2_lt_mono; lia.
Qed.

Lemma Zdigits2_upper (q : Z) : 0 < q -> 2 ^ (Zdigits2 q - 1) <= q.
Proof.
  destruct q as [|p|p]; try lia. intros _. apply digits2_pos_bounds.
Qed.

Section RoundQuotient.

Variables (N D : Z) (e : Z) (m' : Z) (mb : positive) (eb : Z).

Let q := N / D.
Let e'' := fexp32 (Zdigits2 q + e).
Let k := e'' - e.
Let q' := q / 2 ^ k.

Hypothesis HN : 0 < N.
Hypothesis HD : 0 < D.
Hypothesis Hk : 0 <= k.
Hypothesis He : -298 <= e.
Hypothesis Hb : bounded 24 128 mb eb = true.
Hypothesis Hm1 : q' <= m' <= q' + 1.
Hypothesis Hm2 : N mod (D * 2 ^ k) = 0 -> m' = q'.
Hypothesis Hm3 : -149 < e'' -> 8388608 <= m'.

Lemma quot_scale : 2 ^ (e'' + 298) = 2 ^ k * 2 ^ (e + 298).
Proof. unfold k. rewrite <- Z.pow_add_r by (unfold k in Hk; lia). f_equal. lia. Qed.

Lemma quot_nonneg : 0 <= q.
Proof. unfold q. apply Z.div_pos; lia. Qed.

Lemma quot_floor : q' = N / (D * 2 ^ k).
Proof.
  unfold q', q. pose proof (pow2_pos k Hk). rewrite Z.div_div by lia. reflexivity.
Qed.

Lemma quot_divmod :
  N = (D * 2 ^ k) * q' + N mod (D * 2 ^ k) /\ 0 <= N mod (D * 2 ^ k) < D * 2 ^ k.
Proof.
  pose proof (pow2_pos k Hk). assert (0 < D * 2 ^ k) by nia. split.
  - rewrite quot_floor. apply Z.div_mod. lia.
  - apply Z.mod_pos_bound. lia.
Qed.

Lemma quot_up_le :
  N * 2 ^ (e + 298) <= Zpos mb * 2 ^ (eb + 298) * D ->
  m' * 2 ^ (e'' + 298) <= Zpos mb * 2 ^ (eb + 298).
Proof.
  intro HX.
  pose proof (bounded_digits _ _ Hb) as (Heb & Hdb & _).
  pose proof (proj1 (bounded_spec _ _) Hb) as [Hcan _].
  pose proof (digits2_pos_bounds mb) as [_ Hd2].
  set (db := Zpos (digits2_pos mb)) in *.
  pose proof (pow2_pos (e + 298) ltac:(lia)) as PE.
  pose proof (pow2_pos (eb + 298) ltac:(lia)) as PB.
  pose proof quot_nonneg as Hq.
  assert (QD : q * D <= N).
  { unfold q. rewrite Z.mul_comm. apply Z.mul_div_le. lia. }
  assert (A2 : e'' <= eb).
  { destruct (Z.eq_dec q 0) as [Z0|NZ].
    - unfold k, e'' in *. rewrite Z0 in *. cbn [Zdigits2] in *. unfold fexp32 in *. lia.
    - rewrite <- Hcan. apply fexp32_mono.
      pose proof (Zdigits2_upper q ltac:(lia)) as Hd1.
      set (d := Zdigits2 q) in *.
      assert (0 < d).
      { unfold d. destruct q; try lia. cbn. lia. }
      assert (d - 1 + (e + 298) < db + (eb + 298)); [|lia].
      apply pow2_lt_mono; [lia|].
      rewrite (Z.pow_add_r 2 (d - 1)), (Z.pow_add_r 2 db) by (unfold db; lia).
      apply Z.le_lt_trans with (q * 2 ^ (e + 298)).
      + apply Z.mul_le_mono_nonneg_r; lia.
      + apply Z.le_lt_trans with (Zpos mb * 2 ^ (eb + 298)).
        * assert (q * 2 ^ (e + 298) * D <= Zpos mb * 2 ^ (eb + 298) * D) by nia.
          nia.
        * apply Z.mul_lt_mono_pos_r; [exact PB|exact Hd2]. }
  assert (He'' : -149 <= e'') by (unfold e'', fexp32; lia).
  rewrite (pow2_split (e'' + 298) (eb + 298)) in * by lia.
  set (j := eb + 298 - (e'' + 298)) in *.
  pose proof (pow2_pos j ltac:(unfold j; lia)) as PJ.
  pose proof (pow2_pos k Hk) as PK.
  rewrite quot_scale in *.
  destruct quot_divmod as [Dq Dr].
  assert (A3 : N <= Zpos mb * 2 ^ j * (D * 2 ^ k)) by nia.
  assert (A4 : m' <= Zpos mb * 2 ^ j).
  { destruct (Z.eq_dec (N mod (D * 2 ^ k)) 0) as [Z0|NZ].
    - rewrite (Hm2 Z0). nia.
    - assert (q' < Zpos mb * 2 ^ j) by nia. lia. }
  rewrite !Z.mul_assoc. apply Z.mul_le_mono_nonneg_r; [lia|].
  apply Z.mul_le_mono_nonneg_r; lia.
Qed.

Lemma quot_down_ge :
  Zpos mb * 2 ^ (eb + 298) * D <= N * 2 ^ (e + 298) ->
  Zpos mb * 2 ^ (eb + 298) <= m' * 2 ^ (e'' + 298).
Proof.
  intro HX.
  pose proof (bounded_digits _ _ Hb) as (Heb & Hdb & _).
  pose proof (digits2_pos_bounds mb) as [_ Hd2].
  set (db := Zpos (digits2_pos mb)) in *.
  pose proof (pow2_pos (e + 298) ltac:(lia)) as PE.
  pose proof (pow2_pos k Hk) as PK.
  destruct quot_divmod as [Dq Dr].
  assert (He'' : -149 <= e'') by (unfold e'', fexp32; lia).
  destruct (Z_le_gt_dec e'' eb) as [L|L].
  - rewrite (pow2_split (e'' + 298) (eb + 298)) in * by lia.
    set (j := eb + 298 - (e'' + 298)) in *.
    pose proof (pow2_pos j ltac:(unfold j; lia)) as PJ.
    rewrite quot_scale in *.
    assert (A3 : Zpos mb * 2 ^ j * (D * 2 ^ k) <= N) by nia.
    assert (A4 : Zpos mb * 2 ^ j <= q').
    { rewrite quot_floor. apply Z.div_le_lower_bound; [nia|]. lia. }
    assert (A5 : Zpos mb * 2 ^ j <= m') by lia.
    rewrite !Z.mul_assoc. apply Z.mul_le_mono_nonneg_r; [lia|].
    apply Z.mul_le_mono_nonneg_r; lia.
  - specialize (Hm3 ltac:(lia)).
    pose proof (pow2_le db 24 ltac:(unfold db; lia) Hdb) as P24.
    change (2 ^ 24) with 16777216 in P24.
    rewrite (pow2_split (eb + 298) (e'' + 298)) by lia.
    pose proof (pow2_pos (eb + 298) ltac:(lia)) as PB.
    assert (T2 : 2 <= 2 ^ (e'' + 298 - (eb + 298))).
    { change 2 with (2 ^ 1) at 1. apply pow2_le; lia. }
    assert (A4 : Zpos mb <= m' * 2 ^ (e'' + 298 - (eb + 298))) by nia.
    rewrite Z.mul_assoc. apply Z.mul_le_mono_nonneg_r; lia.
Qed.

End RoundQuotient.

Lemma new_location_exact (n r : Z) : r = 0 -> new_location n r = loc_Exact.
Proof.
  intros ->. unfold new_location, new_location_even, new_location_odd.
  destruct (Z.even n); reflexivity.
Qed.

(** The quotient mantissa, its exponent and its location, as
    [SFdiv_core_binary] prepares them for rounding. *)
Lemma div_core_spec (m1 m2 : positive) (e1 e2 : Z) :
  exists sft,
    0 <= sft
    /\ e1 - e2 - sft
       = Z.min (fexp32 (Zpos (digits2_pos m1) + e1 - (Zpos (digits2_pos m2) + e2))) (e1 - e2)
    /\ SFdiv_core_binary 24 128 (Zpos m1) e1 (Zpos m2) e2
       = ((Zpos m1 * 2 ^ sft) / Zpos m2, e1 - e2 - sft,
          new_location (Zpos m2) ((Zpos m1 * 2 ^ sft) mod Zpos m2))
    /\ 0 <= fexp32 (Zdigits2 ((Zpos m1 * 2 ^ sft) / Zpos m2) + (e1 - e2 - sft))
            - (e1 - e2 - sft).
Proof.
  set (d1 := Zpos (digits2_pos m1)). set (d2 := Zpos (digits2_pos m2)).
  set (t := d1 + e1 - (d2 + e2)).
  set (e' := Z.min (fexp32 t) (e1 - e2)).
  exists (e1 - e2 - e').
  assert (Hs : 0 <= e1 - e2 - e') by (unfold e'; lia).
  split; [exact Hs|]. split; [lia|].
  set (sft := e1 - e2 - e') in *.
  assert (Hm : match sft with
               | 0 => Zpos m1
               | Zpos _ => Z.shiftl (Zpos m1) sft
               | Zneg _ => 0
               end = Zpos m1 * 2 ^ sft).
  { destruct sft as [|p|p] eqn:E; [rewrite Z.pow_0_r; lia | | lia].
    rewrite Z.shiftl_mul_pow2 by lia. reflexivity. }
  split.
  - unfold SFdiv_core_binary. cbn [Zdigits2]. rewrite fexp_eq.
    fold d1 d2 t e' sft. rewrite Hm.
    unfold Z.div, Z.modulo.
    destruct (Z.div_eucl (Zpos m1 * 2 ^ sft) (Zpos m2)) as [q r].
    replace (e1 - e2 - sft) with e' by (unfold sft; lia). reflexivity.
  - replace (e1 - e2 - sft) with e' by (unfold sft; lia).
    assert (e' <= fexp32 (Zdigits2 (Zpos m1 * 2 ^ sft / Zpos m2) + e')); [|lia].
    apply Z.le_trans with (fexp32 t); [unfold e'; lia|]. apply fexp32_mono.
    pose proof (pow2_pos sft Hs) as PS.
    assert (d1 - d2 + sft <= Zdigits2 (Zpos m1 * 2 ^ sft / Zpos m2)).
    { apply Zdigits2_lower; [apply Z.div_pos; nia|]. intro Ht.
      apply Z.div_le_lower_bound; [lia|].
      pose proof (digits2_pos_bounds m1) as [B1 _]. fold d1 in B1.
      pose proof (digits2_pos_bounds m2) as [_ B2]. fold d2 in B2.
      assert (0 < d1) by (unfold d1; lia). assert (0 < d2) by (unfold d2; lia).
      apply Z.le_trans with (2 ^ d2 * 2 ^ (d1 - d2 + sft - 1)).
      - apply Z.mul_le_mono_nonneg_r; [apply Z.pow_nonneg|]; lia.
      - rewrite <- Z.pow_add_r by lia.
        replace (d2 + (d1 - d2 + sft - 1)) with ((d1 - 1) + sft) by lia.
        rewrite Z.pow_add_r by lia.
        apply Z.mul_le_mono_nonneg_r; lia. }
    unfold t, sft in *. lia.
Qed.


(** The quotient by a positive number stays between two numbers of the
    format that enclose the exact quotient. *)
Lemma div_between (x lo hi : spec_float) (my : positive) (ey : Z) :
  fin x = true -> bounded 24 128 my ey = true -> fin lo = true -> fin hi = true ->
  V lo * V (S754_finite false my ey) <= V x * 2 ^ 298 <= V hi * V (S754_finite false my ey) ->
  fin (SFdiv 24 128 x (S754_finite false my ey)) = true
  /\ V lo <= V (SFdiv 24 128 x (S754_finite false my ey)) <= V hi.
Proof.
  intros Hx Hy Hlo Hhi HX.
  pose proof (bounded_digits _ _ Hy) as (Hey & _ & _).
  pose proof (pow2_pos (ey + 298) ltac:(lia)) as PY.
  pose proof (pow2_pos 298 ltac:(lia)) as PU.
  cbn [V cond_Zopp] in HX.
  destruct x as [sx|sx| |sx mx ex]; cbn [fin] in Hx; try discriminate.
  - cbn [SFdiv V]. split; [reflexivity|]. cbn [V] in HX. nia.
  - pose proof (bounded_digits _ _ Hx) as (Hex & _ & _).
    cbn [SFdiv].
    destruct (div_core_spec mx my ex ey) as (sft & Hs & He' & -> & Hk).
    rewrite xorb_false_r.
    set (N := Zpos mx * 2 ^ sft) in *. set (D := Zpos my) in *.
    set (e := ex - ey - sft) in *.
    pose proof (pow2_pos sft Hs) as PS.
    assert (HN : 0 < N) by (unfold N; nia).
    assert (HD : 0 < D) by (unfold D; lia).
    assert (Hq : 0 <= N / D) by (apply Z.div_pos; lia).
    assert (He : -253 <= e) by (unfold fexp32 in He'; lia).
    set (e'' := fexp32 (Zdigits2 (N / D) + e)) in *.
    set (k := e'' - e) in *.
    pose proof (pow2_pos k Hk) as PK.
    assert (He'' : -149 <= e'') by (unfold e'', fexp32; lia).
    (* the rounded mantissa *)
    assert (S : exists m',
               N / D / 2 ^ k <= m' <= N / D / 2 ^ k + 1
               /\ (N mod (D * 2 ^ k) = 0 -> m' = N / D / 2 ^ k)
               /\ m' <= 16777216
               /\ (-149 < e'' -> 8388608 <= m')
               /\ binary_round_aux 24 128 sx (N / D) e (new_location D (N mod D))
                  = pack sx m' e'').
    { assert (Hex0 : N mod (D * 2 ^ k) = 0 -> N mod D = 0 /\ (N / D) mod 2 ^ k = 0).
      { rewrite Z.rem_mul_r by lia.
        pose proof (Z.mod_pos_bound N D HD). pose proof (Z.mod_pos_bound (N / D) (2 ^ k) PK).
        intro. split; nia. }
      destruct (N / D) as [|p|p] eqn:Eq; [| |lia].
      - cbn [Zdigits2] in *. replace (0 + e) with e in * by lia.
        destruct (round_aux_zero_loc sx e (new_location D (N mod D)) Hk)
          as (m' & B & Bx & R).
        assert (e'' = -149) by (unfold e'', k, fexp32 in *; lia).
        exists m'. rewrite Z.div_0_l by lia. split; [lia|]. split.
        { intro Hz. apply Bx. apply new_location_exact. apply Hex0, Hz. }
        split; [lia|]. split; [lia|]. rewrite R. congruence.
      - cbn [Zdigits2] in *.
        destruct (round_aux_struct_loc sx p e (new_location D (N mod D)) Hk)
          as (m' & B1 & B2 & B3 & B4 & R).
        exists m'. split; [exact B1|]. split.
        { intro Hz. destruct (Hex0 Hz) as [Z1 Z2].
          apply B2; [exact Z2 | apply new_location_exact, Z1]. }
        split; [exact B3|]. split; [exact B4|]. exact R. }
    destruct S as (m' & M1 & M2 & M3 & M4 & ->).
    assert (Hq' : 0 <= N / D / 2 ^ k) by (apply Z.div_pos; lia).
    set (X := N * 2 ^ (e + 298)).
    set (W := m' * 2 ^ (e'' + 298)).
    pose proof (pow2_pos (e + 298) ltac:(lia)) as PE.
    pose proof (pow2_pos (e'' + 298) ltac:(lia)) as PE''.
    assert (HXpos : 0 < X) by (unfold X; nia).
    assert (HW : 0 <= W) by (unfold W; nia).
    (* the hypothesis in terms of X and D *)
    assert (HXY : Zpos mx * 2 ^ (ex + 298) * 2 ^ 298 = X * 2 ^ (ey + 298)).
    { unfold X, N. rewrite <- !Z.mul_assoc. f_equal.
      rewrite <- !Z.pow_add_r by lia. f_equal. unfold e. lia. }
    assert (HX' : V lo * D <= cond_Zopp sx X <= V hi * D).
    { cbn [V] in HX. unfold D.
      assert (E : cond_Zopp sx (Zpos mx * 2 ^ (ex + 298)) * 2 ^ 298
                  = cond_Zopp sx X * 2 ^ (ey + 298)).
      { rewrite !cond_Zopp_mul. f_equal. exact HXY. }
      rewrite E in HX. rewrite !Z.mul_assoc in HX.
      split; [apply (Z.mul_le_mono_pos_r _ _ (2 ^ (ey + 298)) PY); lia
             |apply (Z.mul_le_mono_pos_r _ _ (2 ^ (ey + 298)) PY); lia]. }
    assert (B : forall b, fin b = true ->
                  (X <= V b * D -> W <= V b) /\ (V b * D <= X -> V b <= W)
                  /\ (- X <= V b * D -> - W <= V b) /\ (V b * D <= - X -> V b <= - W)).
    { intros [sb|sb| |sb mb eb] Hb; cbn [fin V] in *; try discriminate;
        try (repeat split; nia).
      pose proof (pow2_pos (eb + 298)
                    ltac:(pose proof (bounded_digits _ _ Hb); lia)) as PB.
      pose proof (quot_up_le N D e m' mb eb HN HD Hk ltac:(lia) Hb M1 M2) as U.
      pose proof (quot_down_ge N D e m' mb eb HN HD Hk ltac:(lia) Hb M1 M2 M4) as L.
      fold e'' in U, L. fold X in U, L. fold W in U, L.
      destruct sb; cbn [cond_Zopp]; repeat split; intros; try nia. }
    destruct (B lo Hlo) as (L1 & L2 & L3 & L4).
    destruct (B hi Hhi) as (H1 & H2 & H3 & H4).
    pose proof (fin_V_bound lo Hlo) as Blo.
    pose proof (fin_V_bound hi Hhi) as Bhi.
    destruct (pack_value sx m' e'') as [[_ Hinf]|[Hfin HV]]; [lia|lia|exact M4| |].
    + fold W in Hinf. exfalso. destruct sx; cbn [cond_Zopp] in HX'; lia.
    + split; [exact Hfin|]. rewrite HV. fold W.
      destruct sx; cbn [cond_Zopp] in *; lia.
Qed.

#[global] Arguments BMC_position : simpl never.

(** ** Ranges of the feedback law, the rotation angle and the device position *)

Lemma unit_power_fin x :
  unit_power x = true -> fin x = true /\ 0 <= V x <= 1 * 2 ^ 298.
Proof.
  unfold unit_power. rewrite !andb_true_iff. intros [[Vx L0] L1].
  destruct const_0 as [F0 V0], const_1 as [F1 V1].
  destruct (fin_between x _ _ Vx F0 F1 L0 L1) as [Fx Bx]. rewrite V0, V1 in Bx. auto.
Qed.


Lemma intensity_ok_fin x :
  intensity_ok x = true -> fin x = true /\ 0 <= V x <= 255 * 2 ^ 298.
Proof.
  unfold intensity_ok. rewrite !andb_true_iff. intros [[Vx L0] L1].
  destruct const_0 as [F0 V0], const_255 as [F1 V1].
  destruct (fin_between x _ _ Vx F0 F1 L0 L1) as [Fx Bx]. rewrite V0, V1 in Bx. auto.
Qed.

Lemma fin_intensity_ok x :
  fin x = true -> 0 <= V x <= 255 * 2 ^ 298 -> intensity_ok x = true.
Proof.
  intros Fx Bx. destruct const_0 as [F0 V0], const_255 as [F1 V1].
  unfold intensity_ok, F32.valid, F32.leb. rewrite !andb_true_iff. repeat split.
  - apply fin_valid, Fx.
  - apply leb_V; [exact F0|exact Fx|]. rewrite V0. lia.
  - apply leb_V; [exact Fx|exact F1|]. change MAX_IMG_INTENSITY with 255. rewrite V1. lia.
Qed.

Lemma const_45 : fin (F32.of_Z 45) = true /\ V (F32.of_Z 45) = 45 * 2 ^ 298.
Proof. split; vm_compute; reflexivity. Qed.
Lemma const_265 : fin (F32.of_Z 265) = true /\ V (F32.of_Z 265) = 265 * 2 ^ 298.
Proof. split; vm_compute; reflexivity. Qed.
Lemma const_310 : fin (F32.of_Z 310) = true /\ V (F32.of_Z 310) = 310 * 2 ^ 298.
Proof. split; vm_compute; reflexivity. Qed.
Lemma const_4000 : fin (F32.of_Z 4000) = true /\ V (F32.of_Z 4000) = 4000 * 2 ^ 298.
Proof. split; vm_compute; reflexivity. Qed.
Lemma const_1060000 :
  fin (F32.of_Z 1060000) = true /\ V (F32.of_Z 1060000) = 1060000 * 2 ^ 298.
Proof. split; vm_compute; reflexivity. Qed.
Lemma const_1240000 :
  fin (F32.of_Z 1240000) = true /\ V (F32.of_Z 1240000) = 1240000 * 2 ^ 298.
Proof. split; vm_compute; reflexivity. Qed.

Lemma Power2RotnAngle_between p :
  fin p = true -> 0 <= V p <= 1 * 2 ^ 298 ->
  fin (Power2RotnAngle p) = true
  /\ 265 * 2 ^ 298 <= V (Power2RotnAngle p) <= 310 * 2 ^ 298.
Proof.
  intros Fp Bp.
  destruct const_0 as [F0 V0], const_45 as [F45 V45], const_265 as [F265 V265],
    const_310 as [F310 V310].
  pose proof (pow2_pos 298 ltac:(lia)) as PU.
  unfold Power2RotnAngle. change (wrap32 (ROT_ANG_MAX - ROT_ANG_MIN)) with 45.
  change ROT_ANG_MIN with 265.
  unfold F32.add, F32.mul. change F32.prec with 24. change F32.emax with 128.
  destruct (mul_between (F32.of_Z 45) p F32.zero (F32.of_Z 45)) as [Fm Bm]; try assumption.
  { rewrite V0, V45. set (U := 2 ^ 298) in *. clearbody U. nia. }
  rewrite V0, V45 in Bm.
  destruct (add_between (SFmul 24 128 (F32.of_Z 45) p) (F32.of_Z 265)
              (F32.of_Z 265) (F32.of_Z 310)) as [Fa Ba]; try assumption.
  { rewrite V265, V310. lia. }
  rewrite V265, V310 in Ba. auto.
Qed.

Lemma unit_power_angle_ok p : unit_power p = true -> angle_ok (Power2RotnAngle p) = true.
Proof.
  intro Hp. destruct (unit_power_fin p Hp) as [Fp Bp].
  destruct (Power2RotnAngle_between p Fp Bp) as [Fa Ba].
  destruct const_265 as [F265 V265], const_310 as [F310 V310].
  unfold angle_ok, F32.valid, F32.leb. rewrite !andb_true_iff. repeat split.
  - apply fin_valid, Fa.
  - apply leb_V; [exact F265|exact Fa|]. change ROT_ANG_MIN with 265. rewrite V265. lia.
  - apply leb_V; [exact Fa|exact F310|]. change ROT_ANG_MAX with 310. rewrite V310. lia.
Qed.

(** The integer part of a non-negative number between two integers. *)
Lemma trunc_between (x : spec_float) (a b : Z) :
  fin x = true -> 0 <= a -> a * 2 ^ 298 <= V x <= b * 2 ^ 298 ->
  exists z, F32.trunc x = Some z /\ a <= z <= b.
Proof.
  intros Fx Ha Bx. pose proof (pow2_pos 298 ltac:(lia)) as PU.
  destruct x as [s|s| |s m e]; cbn [fin V] in *; try discriminate.
  - exists 0. split; [reflexivity|]. nia.
  - pose proof (bounded_digits _ _ Fx) as (He & _).
    pose proof (pow2_pos (e + 298) ltac:(lia)) as PE.
    destruct s; cbn [cond_Zopp] in Bx; [nia|].
    cbn [F32.trunc cond_Zopp]. eexists. split; [reflexivity|].
    destruct e as [|k|k].
    + cbn [Z.shiftl]. change (2 ^ (0 + 298)) with (2 ^ 298) in Bx. nia.
    + rewrite Z.shiftl_mul_pow2 by lia.
      rewrite (Z.pow_add_r 2 (Zpos k) 298) in Bx by lia.
      pose proof (pow2_pos (Zpos k) ltac:(lia)). nia.
    + rewrite Z.shiftr_div_pow2 by lia.
      pose proof (pow2_pos (Zpos k) ltac:(lia)) as PK.
      assert (E : 2 ^ 298 = 2 ^ (Zneg k + 298) * 2 ^ Zpos k).
      { rewrite <- Z.pow_add_r by lia. f_equal. lia. }
      rewrite E in Bx.
      assert (a * 2 ^ Zpos k <= Zpos m <= b * 2 ^ Zpos k) by nia.
      split; [apply Z.div_le_lower_bound; lia|apply Z.div_le_upper_bound; lia].
Qed.

Lemma BMC_position_between x :
  fin x = true -> 265 * 2 ^ 298 <= V x <= 310 * 2 ^ 298 ->
  1060000 <= BMC_position x <= 1240000.
Proof.
  intros Fx Bx.
  destruct const_4000 as [F4 V4], const_1060000 as [Fl Vl], const_1240000 as [Fh Vh].
  pose proof (pow2_pos 298 ltac:(lia)) as PU.
  unfold BMC_position, F32.to_int. change POS_SF with 4000.
  unfold F32.mul. change F32.prec with 24. change F32.emax with 128.
  destruct (mul_between x (F32.of_Z 4000) (F32.of_Z 1060000) (F32.of_Z 1240000))
    as [Fm Bm]; try assumption.
  { rewrite V4, Vl, Vh. set (U := 2 ^ 298) in *. clearbody U. nia. }
  rewrite Vl, Vh in Bm.
  destruct (trunc_between _ 1060000 1240000 Fm ltac:(lia) Bm) as (z & -> & Hz).
  unfold F32.int_of_Z_opt.
  change (- 2 ^ 31) with (-2147483648). change (2 ^ 31) with 2147483648.
  destruct (Z.leb_spec (-2147483648) z); [|lia].
  destruct (Z.ltb_spec z 2147483648); [|lia]. cbn [andb]. exact Hz.
Qed.

(** [ClampPwr] on anything but a NaN. *)
Lemma ClampPwr_bounds (x : spec_float) :
  x <> S754_nan ->
  F32.leb PWR_MIN (ClampPwr x) = true /\ F32.leb (ClampPwr x) PWR_MAX = true.
Proof.
  intro Hn.
  assert (N1 : PWR_MIN <> S754_nan) by (rewrite PWR_MIN_eq; discriminate).
  assert (N2 : PWR_MAX <> S754_nan) by (rewrite PWR_MAX_eq; discriminate).
  unfold ClampPwr, F32.ltb, F32.gtb, F32.leb.
  destruct (SFltb x PWR_MIN) eqn:E1; [split; vm_compute; reflexivity|].
  destruct (SFltb PWR_MAX x) eqn:E2; [split; vm_compute; reflexivity|].
  split; apply SFltb_false_leb; assumption.
Qed.

Lemma ClampPwr_cases x :
  ClampPwr x = PWR_MIN \/ ClampPwr x = PWR_MAX
  \/ (ClampPwr x = x /\ F32.ltb x PWR_MIN = false /\ F32.gtb x PWR_MAX = false).
Proof.
  unfold ClampPwr. destruct (F32.ltb x PWR_MIN); [auto|].
  destruct (F32.gtb x PWR_MAX); auto.
Qed.

Lemma ClampPwr_fixed x :
  F32.ltb x PWR_MIN = false -> F32.gtb x PWR_MAX = false -> ClampPwr x = x.
Proof. unfold ClampPwr. intros -> ->. reflexivity. Qed.




(** ** The operations as functions of the state *)


Lemma for_loop_pure {A} (body : nat -> A -> M A) (g : nat -> A -> option A) :
  (forall n a c, body n a c = option_map (fun a' => (a', c)) (g n a)) ->
  forall count first a c,
    for_loop first count body a c = option_map (fun a' => (a', c)) (iter_opt g first count a).
Proof.
  intros Hb. induction count as [|n IH]; intros first a c.
  - reflexivity.
  - rewrite for_loop_S. unfold bind. rewrite Hb. cbn [iter_opt].
    destruct (g first a) as [a'|]; cbn [option_map]; [apply IH|reflexivity].
Qed.

Lemma iter_opt_inv {A} (P : A -> Prop) (g : nat -> A -> option A) :
  (forall n a a', P a -> g n a = Some a' -> P a') ->
  forall count first a a', P a -> iter_opt g first count a = Some a' -> P a'.
Proof.
  intros Hg. induction count as [|n IH]; intros first a a' Ha H; cbn [iter_opt] in H.
  - injection H as <-. exact Ha.
  - destruct (g first a) as [a1|] eqn:E; [|discriminate].
    eapply IH; [eapply Hg; eassumption|exact H].
Qed.

#[global] Arguments iter_opt : simpl never.
#[global] Arguments assign_powers : simpl never.

Ltac weights_loop_pure :=
  match goal with
  | |- context [for_loop 0 NO_LASER_DIODES ?body ?a ?c] =>
      match body with
      | context [F32.mul ?newPwr _] =>
          match body with
          | context [nth_error ?p ?idx] =>
              match body with
              | context [(?f * NO_LASER_DIODES + _)%nat] =>
                  rewrite (for_loop_pure body (assign_weight p idx f newPwr));
                  [| let n := fresh in let a := fresh in let c := fresh in
                     intros n a c; unfold assign_weight, lift, ret, undefined;
                     destruct (nth_error p idx) as [[? ?]|]; cbn; [|reflexivity];
                     match goal with
                     | |- context [nth_error ?l n] => destruct (nth_error l n); cbn
                     end; [|reflexivity];
                     match goal with
                     | |- context [F32.gtb ?w ?z] => destruct (F32.gtb w z)
                     end; reflexivity ]
              end
          end
      end
  end.

Lemma field_step_eq odd even f pwrs c :
  field_step odd even f pwrs c = field_result odd even f pwrs c.
Proof.
  destruct c as [mode p cnt off fi qp qf qr sy oq iq rp lg].
  unfold field_step, field_result. unfold_monad. cbn.
  destruct (Z.of_nat (length p) =? 0); cbn; [reflexivity|].
  destruct (off <=? cnt); cbn.
  - destruct (nth_error p (Z.to_nat (wrap32 (wrap32 (cnt - off) mod Z.of_nat (length p)))))
      as [step|]; cbn; [|reflexivity].
    destruct qp as [|x qp]; cbn;
      (destruct (full_pass_count (Z.of_nat (length p)) off <=? cnt); cbn;
       [destruct qf as [|y qf]; cbn|]);
      weights_loop_pure; unfold assign_powers;
      match goal with
      | |- context [iter_opt ?g ?a ?b ?x] => destruct (iter_opt g a b x)
      end; reflexivity.
  - (destruct (full_pass_count (Z.of_nat (length p)) off <=? cnt); cbn;
       [destruct qf as [|y qf]; cbn|]);
      weights_loop_pure; unfold assign_powers;
      match goal with
      | |- context [iter_opt ?g ?a ?b ?x] => destruct (iter_opt g a b x)
      end; reflexivity.
Qed.

Lemma IncrementPrgrm_send_eq even pwrs c :
  IncrementPrgrm_send even pwrs c = Some (tt, send_result even pwrs c).
Proof.
  destruct c as [mode p cnt off fi qp qf qr sy oq iq rp lg].
  unfold IncrementPrgrm_send, send_result, sent_widths, rotation_step, rotation_power,
    rotation_gate, inbound_log.
  unfold_monad. cbn.
  destruct (MODE_eqb mode LSCI); cbn.
  - destruct (wrap32 (off - 20) <=? cnt); cbn;
      [destruct qr as [|x qr]; cbn|];
      (destruct iq as [|e iq]; cbn; [|destruct (in_fid e =? FID_ERROR); cbn]);
      rewrite <- ?app_assoc; reflexivity.
  - destruct iq as [|e iq]; cbn; [|destruct (in_fid e =? FID_ERROR); cbn];
      rewrite <- ?app_assoc; reflexivity.
Qed.

Lemma IncrementPrgrm_eq odd even c :
  IncrementPrgrm odd even c
  = match IncrementPrgrm_pwrs odd even c with
    | Some (pwrs, c1) => Some (tt, send_result even pwrs c1)
    | None => None
    end.
Proof.
  unfold IncrementPrgrm, bind.
  destruct (IncrementPrgrm_pwrs odd even c) as [[pwrs c1]|]; [|reflexivity].
  apply IncrementPrgrm_send_eq.
Qed.

Lemma SetMode_eq mode c :
  SetMode mode c
  = Some (tt, if SetMode_allowed mode c then SetMode_result mode c else c).
Proof.
  destruct c as [m p cnt off f qp qf qr sy oq iq rp lg].
  unfold SetMode, SetMode_allowed, SetMode_result. unfold_monad. cbn.
  destruct sy, mode; reflexivity.
Qed.

(** The first half of the per-frame operation in its three branches. *)
Lemma IncrementPrgrm_pwrs_fields_eq odd even c :
  MODE_eqb (mMode c) SYNC && negb (mSynced c) = false ->
  MODE_eqb (mMode c) WARMUP = false ->
  IncrementPrgrm_pwrs odd even c
  = match field_result odd even 0 (repeat F32.zero (2 * NO_LASER_DIODES)) c with
    | Some (pwrs, c1) => field_result odd even 1 pwrs c1
    | None => None
    end.
Proof.
  intros Hs Hw. unfold IncrementPrgrm_pwrs. unfold bind at 1 2. unfold gets.
  rewrite Hs, Hw. rewrite for_loop_S. unfold bind at 1. rewrite field_step_eq.
  destruct (field_result odd even 0 _ c) as [[p1 c1]|]; [|reflexivity].
  rewrite for_loop_S. unfold bind at 1. rewrite field_step_eq.
  destruct (field_result odd even 1 p1 c1) as [[p2 c2]|]; reflexivity.
Qed.

Lemma IncrementPrgrm_pwrs_warmup_eq odd even c :
  mMode c = WARMUP -> mPrgrm c = warmup_prgrm ->
  IncrementPrgrm_pwrs odd even c
  = Some (repeat (F32.of_Z 1) (2 * NO_LASER_DIODES),
          set_mPrgrmCount (wrap32 (mPrgrmCount c + 2)) c).
Proof.
  destruct c as [m p cnt off f qp qf qr sy oq iq rp lg]. cbn [mMode mPrgrm].
  intros -> ->. reflexivity.
Qed.

Lemma IncrementPrgrm_pwrs_sync_eq odd even c :
  mMode c = SYNC -> mSynced c = false ->
  IncrementPrgrm_pwrs odd even c
  = Some (if mBufferOffset c =? 0
          then (repeat (F32.of_Z 1) 15 ++ repeat F32.zero 15,
                set_mPrgrmCount (wrap32 (mPrgrmCount c + 2)) (set_mBufferOffset 2 c))
          else if sync_pulse_arrived odd
               then (repeat F32.zero 30,
                     set_mPrgrmCount (wrap32 (mPrgrmCount c + 2))
                       (set_mLog (mLog c ++ [LOG_SYNCED; LOG_BUFF (mBufferOffset c)])
                          (set_mSynced true c)))
               else (repeat F32.zero 30,
                     set_mPrgrmCount (wrap32 (mPrgrmCount c + 2))
                       (set_mBufferOffset (wrap32 (mBufferOffset c + 2)) c))).
Proof.
  destruct c as [mode p cnt off f qp qf qr sy oq iq rp lg]. cbn [mMode mSynced].
  intros -> ->.
  unfold IncrementPrgrm_pwrs, sync_step. unfold_monad. cbn.
  destruct (off =? 0) eqn:E; cbn.
  - rewrite sync_flash_loop. cbn. apply Z.eqb_eq in E. subst off. reflexivity.
  - destruct (sync_pulse_arrived odd); cbn; rewrite <- ?app_assoc; reflexivity.
Qed.

(** ** The feedback law and the rotation mount *)

Lemma const_510 : fin (F32.of_Z 510) = true /\ V (F32.of_Z 510) = 510 * 2 ^ 298.
Proof. split; vm_compute; reflexivity. Qed.
Lemma const_765 : fin (F32.of_Z 765) = true /\ V (F32.of_Z 765) = 765 * 2 ^ 298.
Proof. split; vm_compute; reflexivity. Qed.
Lemma const_3 :
  F32.of_Z 3 = S754_finite false 12582912 (-22)
  /\ bounded 24 128 12582912 (-22) = true
  /\ V (F32.of_Z 3) = 3 * 2 ^ 298.
Proof. repeat split; vm_compute; reflexivity. Qed.

(** The mean of the three channel means, as [select_intensity] and
    [sync_pulse_arrived] compute it. *)
Lemma mono_mean_between (b g r : spec_float) :
  intensity_ok b = true -> intensity_ok g = true -> intensity_ok r = true ->
  fin (F32.div (F32.add (F32.add b g) r) (F32.of_Z 3)) = true
  /\ 0 <= V (F32.div (F32.add (F32.add b g) r) (F32.of_Z 3)) <= 255 * 2 ^ 298.
Proof.
  intros Hb Hg Hr.
  destruct (intensity_ok_fin b Hb) as [Fb Bb], (intensity_ok_fin g Hg) as [Fg Bg],
    (intensity_ok_fin r Hr) as [Fr Br].
  destruct const_0 as [F0 V0], const_255 as [F255 V255], const_510 as [F510 V510],
    const_765 as [F765 V765], const_3 as (E3 & B3 & V3).
  pose proof (pow2_pos 298 ltac:(lia)) as PU.
  unfold F32.div, F32.add. change F32.prec with 24. change F32.emax with 128.
  destruct (add_between b g F32.zero (F32.of_Z 510)) as [F1 B1]; try assumption.
  { rewrite V0, V510. lia. }
  rewrite V0, V510 in B1.
  destruct (add_between (SFadd 24 128 b g) r F32.zero (F32.of_Z 765)) as [F2 B2];
    try assumption.
  { rewrite V0, V765. lia. }
  rewrite V0, V765 in B2.
  rewrite E3.
  destruct (div_between (SFadd 24 128 (SFadd 24 128 b g) r) F32.zero (F32.of_Z 255)
              12582912 (-22)) as [F3 B3']; try assumption.
  { rewrite <- E3, V0, V255, V3. set (U := 2 ^ 298) in *. clearbody U. nia. }
  rewrite V0, V255 in B3'. auto.
Qed.

Lemma select_intensity_ok chnl vals :
  means_ok vals = true -> intensity_ok (select_intensity chnl vals) = true.
Proof.
  unfold means_ok. rewrite !andb_true_iff. intros [[Hb Hg] Hr].
  destruct chnl; cbn [select_intensity]; try assumption.
  destruct (mono_mean_between _ _ _ Hb Hg Hr) as [Fm Bm].
  apply fin_intensity_ok; assumption.
Qed.

Lemma UpdatePower_no_prior y :
  intensity_ok y = true -> UpdatePower y F32.zero = F32.zero.
Proof.
  intro Hy. destruct (intensity_ok_fin y Hy) as [Fy By].
  destruct const_0 as [F0 V0], const_1 as [F1 V1], const_128 as [F128 V128],
    const_256 as [F256 V256], const_m127 as [Fm Vm].
  pose proof (pow2_pos 298 ltac:(lia)) as PU.
  unfold UpdatePower, UpdatePower_num, UpdatePower_den.
  rewrite yFixed_eq, alpha_eq, PWR_MAX_one. change TARGET_IMG_INTENSITY with 128.
  unfold F32.sub, F32.mul, F32.add, F32.div.
  change F32.prec with 24. change F32.emax with 128.
  destruct (sub_between (F32.of_Z 256) y (F32.of_Z 1) (F32.of_Z 256)) as [Fa Ba];
    try assumption; [rewrite V1, V256; lia|]. rewrite V1 in Ba.
  destruct (sub_between (F32.of_Z 128) y (F32.of_Z (-127)) (F32.of_Z 128)) as [Fc _];
    try assumption; [rewrite Vm, V128; lia|].
  destruct (SFsub 24 128 (F32.of_Z 256) y) as [sa|sa| |sa ma ea]; cbn [fin V] in *;
    try discriminate; [lia|].
  assert (sa = false) as ->.
  { destruct sa; [|reflexivity]. cbn [cond_Zopp] in Ba.
    pose proof (bounded_digits _ _ Fa) as (He & _).
    pose proof (pow2_pos (ea + 298) ltac:(lia)). nia. }
  destruct (SFsub 24 128 (F32.of_Z 128) y) as [sc|sc| |sc mc ec]; cbn [fin] in Fc;
    try discriminate; destruct sc; vm_compute; reflexivity.
Qed.

(** X1. [ClampPwr] returns a value in [PWR_MIN, PWR_MAX] for every input
    that is not a NaN, the two infinities included. *)
Theorem X1_ClampPwr_range (pwr : F32.float) :
  pwr <> S754_nan ->
  F32.leb PWR_MIN (ClampPwr pwr) = true /\ F32.leb (ClampPwr pwr) PWR_MAX = true.
Proof. intro Hn. destruct (ClampPwr_bounds pwr Hn) as [L1 L2]. split; assumption. Qed.

Lemma X1_ClampPwr_range_witness :
  S754_infinity false <> S754_nan
  /\ ClampPwr (S754_infinity false) = PWR_MAX
  /\ F32.leb PWR_MIN (ClampPwr (S754_infinity false)) = true
  /\ F32.leb (ClampPwr (S754_infinity false)) PWR_MAX = true.
Proof.
  assert (H : S754_infinity false <> S754_nan) by discriminate.
  split; [exact H|]. split; [vm_compute; reflexivity|].
  exact (X1_ClampPwr_range (S754_infinity false) H).
Defined.

(** X2. [ClampPwr] is idempotent, and it does not repair a NaN: the
    result is a NaN exactly when the input is one (both comparisons with
    a NaN are false, so the input is returned). *)
Theorem X2_ClampPwr_idempotent (pwr : F32.float) :
  ClampPwr (ClampPwr pwr) = ClampPwr pwr
  /\ (ClampPwr pwr = S754_nan <-> pwr = S754_nan).
Proof.
  split.
  - destruct (ClampPwr_cases pwr) as [E | [E | (E & L1 & L2)]]; rewrite E.
    + vm_compute; reflexivity.
    + vm_compute; reflexivity.
    + apply ClampPwr_fixed; assumption.
  - split.
    + destruct (ClampPwr_cases pwr) as [E | [E | (E & _)]]; rewrite E.
      * rewrite PWR_MIN_eq. discriminate.
      * rewrite PWR_MAX_eq. discriminate.
      * trivial.
    + intros ->. reflexivity.
Qed.

(** X3. When no prior power is available (the queue of emitted powers is
    empty, so that [prevPwr] keeps its initial value 0), the update is 0 for
    every mean in [0, 255], and the clamp turns it into PWR_MIN. *)
Theorem X3_UpdatePower_without_prior_power (prevIntensity : F32.float) :
  intensity_ok prevIntensity = true ->
  UpdatePower prevIntensity F32.zero = F32.zero
  /\ ClampPwr (UpdatePower prevIntensity F32.zero) = PWR_MIN.
Proof.
  intro Hy.
  rewrite (UpdatePower_no_prior _ Hy). split; [reflexivity|]. vm_compute. reflexivity.
Qed.

Lemma X3_UpdatePower_without_prior_power_witness :
  intensity_ok (F32.of_Z 200) = true
  /\ ClampPwr (UpdatePower (F32.of_Z 200) F32.zero) = PWR_MIN.
Proof.
  assert (H : intensity_ok (F32.of_Z 200) = true) by (vm_compute; reflexivity).
  split; [exact H|].
  exact (proj2 (X3_UpdatePower_without_prior_power (F32.of_Z 200) H)).
Defined.

(** X4. For every power in [0, 1] the rotation angle computed by
    [Power2RotnAngle] is a number in [ROT_ANG_MIN, ROT_ANG_MAX] = [265, 310];
    power 0 gives 265 and power 1 gives 310. *)
Theorem X4_Power2RotnAngle_within_limits (power : F32.float) :
  unit_power power = true ->
  F32.valid (Power2RotnAngle power) = true
  /\ F32.leb (F32.of_Z ROT_ANG_MIN) (Power2RotnAngle power) = true
  /\ F32.leb (Power2RotnAngle power) (F32.of_Z ROT_ANG_MAX) = true
  /\ Power2RotnAngle F32.zero = F32.of_Z ROT_ANG_MIN
  /\ Power2RotnAngle (F32.of_Z 1) = F32.of_Z ROT_ANG_MAX.
Proof.
  intro Hp. pose proof (unit_power_angle_ok power Hp) as H.
  unfold angle_ok in H. rewrite !andb_true_iff in H. destruct H as [[H1 H2] H3].
  repeat split; try assumption; vm_compute; reflexivity.
Qed.

Lemma X4_Power2RotnAngle_within_limits_witness :
  unit_power PWR_START = true
  /\ F32.leb (F32.of_Z ROT_ANG_MIN) (Power2RotnAngle PWR_START) = true
  /\ F32.leb (Power2RotnAngle PWR_START) (F32.of_Z ROT_ANG_MAX) = true.
Proof.
  assert (H : unit_power PWR_START = true) by (vm_compute; reflexivity).
  split; [exact H|].
  destruct (X4_Power2RotnAngle_within_limits PWR_START H) as (_ & H2 & H3 & _).
  split; assumption.
Defined.

(** X5. [RotationMount::SetPosition] converts the angle to device units
    as [int(position * POS_SF)]: for the angle of any power in [0, 1] the
    value handed to the motor lies in [265 * 4000, 310 * 4000], and the
    conversion never leaves the range of [int]. *)
Theorem X5_SetPosition_device_units (power : F32.float) :
  unit_power power = true ->
  1060000 <= BMC_position (Power2RotnAngle power) <= 1240000
  /\ F32.trunc (F32.mul (Power2RotnAngle power) (F32.of_Z POS_SF))
     = Some (BMC_position (Power2RotnAngle power)).
Proof.
  intro Hp. destruct (unit_power_fin power Hp) as [Fp Bp].
  destruct (Power2RotnAngle_between power Fp Bp) as [Fa Ba].
  pose proof (BMC_position_between _ Fa Ba) as H. split; [exact H|].
  unfold BMC_position, F32.to_int in *.
  destruct (F32.trunc _) as [z|]; cbn [F32.int_of_Z_opt] in *.
  - destruct ((- 2 ^ 31 <=? z) && (z <? 2 ^ 31)); [reflexivity|].
    change (- 2 ^ 31) with (-2147483648) in H. lia.
  - change (- 2 ^ 31) with (-2147483648) in H. lia.
Qed.

Lemma X5_SetPosition_device_units_witness :
  unit_power (F32.lit 1 10) = true
  /\ BMC_position (Power2RotnAngle (F32.lit 1 10)) = 1078000
  /\ 1060000 <= BMC_position (Power2RotnAngle (F32.lit 1 10)) <= 1240000.
Proof.
  assert (H : unit_power (F32.lit 1 10) = true) by (vm_compute; reflexivity).
  split; [exact H|]. split; [vm_compute; reflexivity|].
  exact (proj1 (X5_SetPosition_device_units (F32.lit 1 10) H)).
Defined.

(** X6. The intensity that drives the feedback is in [0, 255] for every
    channel selector when the three channel means are: in particular the
    MONO value [(b + g + r) / 3.f], computed in binary32 with three
    roundings, never exceeds 255 and is never a NaN. *)
Theorem X6_select_intensity_in_range (chnl : IMG_CHNL) (vals : bgr) :
  means_ok vals = true ->
  F32.valid (select_intensity chnl vals) = true
  /\ F32.leb F32.zero (select_intensity chnl vals) = true
  /\ F32.leb (select_intensity chnl vals) (F32.of_Z MAX_IMG_INTENSITY) = true.
Proof.
  intro H. pose proof (select_intensity_ok chnl vals H) as K.
  unfold intensity_ok in K. rewrite !andb_true_iff in K. tauto.
Qed.

Lemma X6_select_intensity_in_range_witness :
  means_ok {| chn0 := F32.of_Z 255; chn1 := F32.of_Z 255; chn2 := F32.of_Z 255 |} = true
  /\ F32.leb (select_intensity MONO
                {| chn0 := F32.of_Z 255; chn1 := F32.of_Z 255; chn2 := F32.of_Z 255 |})
             (F32.of_Z MAX_IMG_INTENSITY) = true.
Proof.
  assert (H : means_ok {| chn0 := F32.of_Z 255; chn1 := F32.of_Z 255;
                          chn2 := F32.of_Z 255 |} = true) by (vm_compute; reflexivity).
  split; [exact H|].
  exact (proj2 (proj2 (X6_select_intensity_in_range MONO _ H))).
Defined.

(** ** Mode changes and counters *)

Lemma wrap32_add2 n : wrap32 (wrap32 (n + 1) + 1) = wrap32 (n + 2).
Proof.
  unfold wrap32. rewrite Z.add_mod_idemp_l by (apply Z.pow_nonzero; lia).
  f_equal. lia.
Qed.

Lemma field_result_frame odd even f pwrs c pwrs' c' :
  field_result odd even f pwrs c = Some (pwrs', c') ->
  mMode c' = mMode c /\ mPrgrm c' = mPrgrm c
  /\ mPrgrmCount c' = wrap32 (mPrgrmCount c + 1)
  /\ mBufferOffset c' = mBufferOffset c /\ mFid c' = mFid c
  /\ mRotBuffer c' = mRotBuffer c /\ mSynced c' = mSynced c
  /\ mOutputQueue c' = mOutputQueue c /\ mInputQueue c' = mInputQueue c
  /\ mRotnPositions c' = mRotnPositions c.
Proof.
  unfold field_result.
  destruct (Z.of_nat (length (mPrgrm c)) =? 0); [discriminate|].
  destruct (if mBufferOffset c <=? mPrgrmCount c then _ else _) as [[[qp1 qf1] lg1]|];
    [|discriminate].
  destruct (assign_powers _ _ _ _ _) as [pw|]; [|discriminate].
  intro H. injection H as <- <-. cbn. repeat split.
Qed.

(** What the first half of [IncrementPrgrm] leaves alone, in every branch. *)
Lemma IncrementPrgrm_pwrs_counters odd even c pwrs c1 :
  IncrementPrgrm_pwrs odd even c = Some (pwrs, c1) ->
  mPrgrmCount c1 = wrap32 (mPrgrmCount c + 2)
  /\ mRotBuffer c1 = mRotBuffer c
  /\ mRotnPositions c1 = mRotnPositions c
  /\ (mSynced c = true -> mSynced c1 = true /\ mBufferOffset c1 = mBufferOffset c)
  /\ (mMode c <> SYNC -> mSynced c1 = mSynced c /\ mBufferOffset c1 = mBufferOffset c).
Proof.
  intro E.
  destruct (MODE_eqb (mMode c) SYNC && negb (mSynced c)) eqn:Hs.
  - apply andb_true_iff in Hs. destruct Hs as [Hm Hsy].
    apply MODE_eqb_eq in Hm. apply negb_true_iff in Hsy.
    rewrite (IncrementPrgrm_pwrs_sync_eq odd even c Hm Hsy) in E.
    destruct (mBufferOffset c =? 0); [|destruct (sync_pulse_arrived odd)];
      injection E as <- <-; destruct c; cbn in *; subst;
      repeat split; try discriminate; congruence.
  - destruct (MODE_eqb (mMode c) WARMUP) eqn:Hw.
    + unfold IncrementPrgrm_pwrs in E. unfold bind at 1 2 in E. unfold gets in E.
      rewrite Hs, Hw in E. unfold warmup_step in E. unfold bind at 1 in E.
      destruct (for_loop _ _ _ _ c) as [[pw c2]|] eqn:El; [|discriminate].
      assert (c2 = c).
      { eapply for_loop_state; [|exact El]. intros n a c0 a' c0' Hb.
        unfold at_index, lift, bind, gets, ret, undefined in Hb.
        split_branches_in Hb. congruence. }
      subst c2. unfold bind, modify, ret in E. cbn in E. injection E as <- <-.
      destruct c; cbn. repeat split; intros; repeat split; auto.
    + rewrite (IncrementPrgrm_pwrs_fields_eq odd even c Hs Hw) in E.
      destruct (field_result odd even 0 _ c) as [[p1 c2]|] eqn:E1; [|discriminate].
      apply field_result_frame in E1, E.
      destruct E1 as (_ & _ & A3 & A4 & _ & A6 & A7 & _ & _ & A10).
      destruct E as (_ & _ & B3 & B4 & _ & B6 & B7 & _ & _ & B10).
      rewrite B3, A3, wrap32_add2, B6, A6, B10, A10, B7, A7, B4, A4.
      repeat split; assumption.
Qed.

(** X7. Entering SYNC withdraws the permission to illuminate: a call of
    [SetMode] with WLE, PSE, LSCI, MULTI or SSFDI that follows
    [SetMode(SYNC)] is ignored, from every state, synchronized or not. *)
Theorem X7_SetMode_after_SYNC_ignored (c : LightController) (mode : MODE) :
  In mode [WLE; PSE; LSCI; MULTI; SSFDI] ->
  (SetMode SYNC;; SetMode mode) c = SetMode SYNC c
  /\ exists c', SetMode SYNC c = Some (tt, c')
                /\ GetMode c' = Some (SYNC, c')
                /\ GetSyncStatus c' = Some (false, c').
Proof.
  intro Hin. unfold bind at 1. rewrite (SetMode_eq SYNC c).
  change (SetMode_allowed SYNC c) with (mSynced c || true || false || false).
  rewrite orb_true_r. cbn [orb].
  split.
  - rewrite SetMode_eq.
    assert (SetMode_allowed mode (SetMode_result SYNC c) = false) as ->; [|reflexivity].
    cbn in Hin. decompose [or] Hin; subst; try contradiction; reflexivity.
  - eexists. split; [reflexivity|]. split; reflexivity.
Qed.

Lemma X7_SetMode_after_SYNC_ignored_witness :
  In LSCI [WLE; PSE; LSCI; MULTI; SSFDI]
  /\ (SetMode SYNC;; SetMode LSCI) synced_controller = SetMode SYNC synced_controller.
Proof.
  assert (H : In LSCI [WLE; PSE; LSCI; MULTI; SSFDI]) by (cbn; auto).
  split; [exact H|]. exact (proj1 (X7_SetMode_after_SYNC_ignored synced_controller LSCI H)).
Defined.

(** X8. [SetMode] never queues a command for the light modulation
    controller, never takes a record from the receive queue and never
    changes the frame id. It moves the rotation mount only when SSFDI is
    entered, to the angle of full power (310 degrees), and it logs one
    MODE record for every call that is not ignored. *)
Theorem X8_SetMode_collaborators (c : LightController) (mode : MODE) :
  exists c',
    SetMode mode c = Some (tt, c')
    /\ mFid c' = mFid c
    /\ mOutputQueue c' = mOutputQueue c
    /\ mInputQueue c' = mInputQueue c
    /\ mRotnPositions c' =
         mRotnPositions c
         ++ (if SetMode_allowed mode c && MODE_eqb mode SSFDI
             then [F32.of_Z ROT_ANG_MAX] else [])
    /\ mLog c' =
         mLog c ++ (if SetMode_allowed mode c then [LOG_MODE (MODE_value mode)] else []).
Proof.
  rewrite SetMode_eq. eexists. split; [reflexivity|].
  destruct (SetMode_allowed mode c); cbn [andb].
  - unfold SetMode_result. cbn.
    destruct (MODE_eqb mode SSFDI); rewrite ?app_nil_r; repeat split.
  - rewrite !app_nil_r. repeat split.
Qed.

(** X9. In every mode and on every branch, an invocation of
    [IncrementPrgrm] that is defined advances the program counter by 2
    modulo 2^32, leaves the mode and the installed program as they were,
    never clears the sync flag, and changes the buffer offset only while
    the SYNC procedure is searching (mode SYNC with the flag clear). *)
Theorem X9_IncrementPrgrm_counters (c c' : LightController) (odd even : bgr) :
  IncrementPrgrm odd even c = Some (tt, c') ->
  GetPrgrmCount c' = Some (wrap32 (mPrgrmCount c + 2), c')
  /\ mMode c' = mMode c
  /\ mPrgrm c' = mPrgrm c
  /\ (mSynced c = true -> mSynced c' = true /\ mBufferOffset c' = mBufferOffset c)
  /\ (mMode c <> SYNC -> mSynced c' = mSynced c /\ mBufferOffset c' = mBufferOffset c).
Proof.
  intro E.
  destruct (IncrementPrgrm_record _ _ _ _ E)
    as (pwrs & c1 & E1 & _ & _ & _ & Hm & Hp & Hc & Ho & Hs).
  destruct (IncrementPrgrm_pwrs_counters _ _ _ _ _ E1) as (K1 & _ & _ & K4 & K5).
  unfold GetPrgrmCount, gets. rewrite Hc, K1, Hs, Ho.
  repeat split; try assumption; try (apply K4; assumption); apply K5; assumption.
Qed.

Lemma X9_IncrementPrgrm_counters_witness :
  exists c',
    IncrementPrgrm bright_means bright_means lsci_start_controller = Some (tt, c')
    /\ mPrgrmCount c' = 2 /\ mMode c' = LSCI /\ mSynced c' = true.
Proof.
  destruct (IncrementPrgrm_defined bright_means bright_means lsci_start_controller)
    as (c' & E).
  { apply (prgrm_ok_tables LSCI); [discriminate|reflexivity|reflexivity]. }
  exists c'. split; [exact E|].
  destruct (X9_IncrementPrgrm_counters _ _ _ _ E) as (H1 & H2 & _ & H4 & _).
  unfold GetPrgrmCount, gets in H1. injection H1 as H1.
  split; [exact H1|]. split; [exact H2|]. apply H4. reflexivity.
Defined.

(** ** Programs that do not depend on the feedback *)

Lemma off_prgrm_step idx step :
  nth_error off_prgrm idx = Some step -> fst step = repeat w0 15.
Proof.
  destruct idx as [|idx]; cbn; [intro H; injection H as <-; reflexivity|].
  destruct idx; discriminate.
Qed.

Lemma assign_powers_off idx f newPwr pwrs pwrs' :
  assign_powers off_prgrm idx f newPwr pwrs = Some pwrs' -> pwrs' = pwrs.
Proof.
  unfold assign_powers.
  apply (iter_opt_inv (fun a => a = pwrs)); [|reflexivity].
  intros n a a' -> H. unfold assign_weight in H.
  destruct (nth_error off_prgrm idx) as [step|] eqn:E; [|discriminate].
  rewrite (off_prgrm_step _ _ E) in H.
  destruct (nth_error (repeat w0 15) n) as [w|] eqn:Ew; [|discriminate].
  apply nth_error_In, repeat_spec in Ew. subst w.
  change (F32.gtb w0 (F32.of_Z 0)) with false in H. cbv iota in H. congruence.
Qed.

Lemma field_result_off odd even f pwrs c pwrs' c' :
  mPrgrm c = off_prgrm ->
  field_result odd even f pwrs c = Some (pwrs', c') -> pwrs' = pwrs.
Proof.
  intros Hp. unfold field_result. rewrite Hp.
  destruct (Z.of_nat (length off_prgrm) =? 0); [discriminate|].
  destruct (if mBufferOffset c <=? mPrgrmCount c then _ else _) as [[[qp1 qf1] lg1]|];
    [|discriminate].
  destruct (assign_powers _ _ _ _ _) as [pw|] eqn:E; [|discriminate].
  intro H. injection H as <- _. eapply assign_powers_off, E.
Qed.

Lemma pulse_widths_zero n : pulse_widths (repeat F32.zero n) = repeat 0 n.
Proof.
  unfold pulse_widths. induction n as [|n IH]; [reflexivity|].
  cbn [repeat map]. rewrite IH. f_equal.
Qed.

Lemma pulse_widths_one n : pulse_widths (repeat (F32.of_Z 1) n) = repeat 14000 n.
Proof.
  unfold pulse_widths. induction n as [|n IH]; [reflexivity|].
  cbn [repeat map]. rewrite IH. f_equal.
Qed.

(** X10. With the OFF program installed (mode OFF, or mode SYNC once the
    flag is latched) every invocation is defined and sends a record whose
    30 pulse widths are all 0, whatever the channel means and the
    contents of the feedback queues are, NaN and infinities included. *)
Theorem X10_off_program_is_dark (c : LightController) (odd even : bgr) :
  mPrgrm c = off_prgrm ->
  mMode c = OFF \/ (mMode c = SYNC /\ mSynced c = true) ->
  exists c',
    IncrementPrgrm odd even c = Some (tt, c')
    /\ mOutputQueue c' =
         mOutputQueue c ++ [{| fid := int_of_uint (mFid c); pws := repeat 0 30 |}].
Proof.
  intros Hp Hm.
  assert (Hs : MODE_eqb (mMode c) SYNC && negb (mSynced c) = false)
    by (destruct Hm as [-> | [-> ->]]; reflexivity).
  assert (Hw : MODE_eqb (mMode c) WARMUP = false)
    by (destruct Hm as [-> | [-> _]]; reflexivity).
  assert (Hl : MODE_eqb (mMode c) LSCI = false)
    by (destruct Hm as [-> | [-> _]]; reflexivity).
  destruct (IncrementPrgrm_defined odd even c) as (c' & E).
  { unfold prgrm_ok. rewrite Hp. split; [discriminate|]. split.
    - repeat constructor.
    - intro W. rewrite W in Hw. discriminate. }
  exists c'. split; [exact E|].
  rewrite IncrementPrgrm_eq in E.
  rewrite (IncrementPrgrm_pwrs_fields_eq odd even c Hs Hw) in E.
  destruct (field_result odd even 0 _ c) as [[p1 c1]|] eqn:E1; [|discriminate].
  destruct (field_result odd even 1 p1 c1) as [[p2 c2]|] eqn:E2; [|discriminate].
  pose proof (field_result_off _ _ _ _ _ _ _ Hp E1). subst p1.
  destruct (field_result_frame _ _ _ _ _ _ _ E1) as (M1 & P1 & _ & _ & F1 & _ & _ & Q1 & _).
  pose proof (field_result_off _ _ _ _ _ _ _ ltac:(rewrite P1; exact Hp) E2). subst p2.
  destruct (field_result_frame _ _ _ _ _ _ _ E2) as (M2 & _ & _ & _ & F2 & _ & _ & Q2 & _).
  injection E as <-. unfold send_result. cbn [mOutputQueue].
  unfold sent_widths. rewrite M2, M1, Hl, F2, F1, Q2, Q1.
  rewrite <- (pulse_widths_zero 30). reflexivity.
Qed.

Lemma X10_off_program_is_dark_witness :
  mPrgrm initial_controller = off_prgrm
  /\ (mMode initial_controller = OFF
      \/ (mMode initial_controller = SYNC /\ mSynced initial_controller = true))
  /\ exists c',
      IncrementPrgrm bright_means bright_means initial_controller = Some (tt, c')
      /\ mOutputQueue c' =
           mOutputQueue initial_controller
           ++ [{| fid := int_of_uint (mFid initial_controller); pws := repeat 0 30 |}].
Proof.
  assert (H1 : mPrgrm initial_controller = off_prgrm) by reflexivity.
  assert (H2 : mMode initial_controller = OFF
               \/ (mMode initial_controller = SYNC /\ mSynced initial_controller = true))
    by (left; reflexivity).
  split; [exact H1|]. split; [exact H2|].
  exact (X10_off_program_is_dark initial_controller bright_means bright_means H1 H2).
Defined.

(** X11. In WARMUP mode with the warmup program installed, every
    invocation drives all 15 diodes at the full pulse width 14000 on both
    fields (the weights of the table are 1, not one half), before and after
    synchronization; the three feedback queues, the buffer offset and the
    sync flag are left as they were. *)
Theorem X11_warmup_full_power (c : LightController) (odd even : bgr) :
  mMode c = WARMUP -> mPrgrm c = warmup_prgrm ->
  exists c',
    IncrementPrgrm odd even c = Some (tt, c')
    /\ mOutputQueue c' =
         mOutputQueue c ++ [{| fid := int_of_uint (mFid c); pws := repeat 14000 30 |}]
    /\ mPwrBuffer c' = mPwrBuffer c /\ mFrmBuffer c' = mFrmBuffer c
    /\ mRotBuffer c' = mRotBuffer c /\ mRotnPositions c' = mRotnPositions c
    /\ mBufferOffset c' = mBufferOffset c /\ mSynced c' = mSynced c.
Proof.
  intros Hm Hp. rewrite IncrementPrgrm_eq.
  rewrite (IncrementPrgrm_pwrs_warmup_eq odd even c Hm Hp).
  eexists. split; [reflexivity|].
  destruct c as [mode p cnt off f qp qf qr sy oq iq rp lg]. cbn in Hm. subst mode.
  unfold send_result, sent_widths. cbn.
  change (pulse_widths _) with (pulse_widths (repeat (F32.of_Z 1) 30)).
  rewrite pulse_widths_one. repeat split.
Qed.

Lemma X11_warmup_full_power_witness :
  exists c0 c',
    SetMode WARMUP initial_controller = Some (tt, c0)
    /\ mMode c0 = WARMUP /\ mPrgrm c0 = warmup_prgrm /\ mSynced c0 = false
    /\ IncrementPrgrm zero_means zero_means c0 = Some (tt, c')
    /\ mOutputQueue c' =
         mOutputQueue c0 ++ [{| fid := int_of_uint (mFid c0); pws := repeat 14000 30 |}].
Proof.
  eexists. 
  destruct (X11_warmup_full_power (reach (SetMode WARMUP) initial_controller)
              zero_means zero_means eq_refl eq_refl) as (c' & E & Q & _).
  exists c'. split; [reflexivity|]. split; [reflexivity|]. split; [reflexivity|].
  split; [reflexivity|]. split; [exact E|exact Q].
Defined.

(** ** The SYNC procedure as a whole *)

(** One frame of the SYNC procedure. *)
Lemma sync_frame odd even c :
  mMode c = SYNC -> mSynced c = false ->
  exists c',
    IncrementPrgrm odd even c = Some (tt, c')
    /\ mMode c' = SYNC
    /\ mOutputQueue c' =
         mOutputQueue c
         ++ [{| fid := int_of_uint (mFid c);
                pws := if mBufferOffset c =? 0
                       then repeat 14000 15 ++ repeat 0 15 else repeat 0 30 |}]
    /\ mSynced c' = (if mBufferOffset c =? 0 then false else sync_pulse_arrived odd)
    /\ mBufferOffset c' =
         (if mBufferOffset c =? 0 then 2
          else if sync_pulse_arrived odd then mBufferOffset c
               else wrap32 (mBufferOffset c + 2)).
Proof.
  intros Hm Hs. rewrite IncrementPrgrm_eq.
  rewrite (IncrementPrgrm_pwrs_sync_eq odd even c Hm Hs).
  destruct c as [mode p cnt off f qp qf qr sy oq iq rp lg]. cbn in Hm, Hs. subst.
  cbn [mBufferOffset mOutputQueue mFid].
  destruct (off =? 0); [|destruct (sync_pulse_arrived odd)];
    (eexists; split; [reflexivity|]); unfold send_result, sent_widths; cbn;
    repeat split.
Qed.

Lemma sync_dark_frames (dark : list (bgr * bgr)) :
  forall c,
    mMode c = SYNC -> mSynced c = false -> 0 < mBufferOffset c ->
    mBufferOffset c + 2 * Z.of_nat (length dark) < 2 ^ 32 ->
    Forall (fun fr => sync_pulse_arrived (fst fr) = false) dark ->
    exists c' recs,
      run_frames dark c = Some (tt, c')
      /\ mMode c' = SYNC /\ mSynced c' = false
      /\ mBufferOffset c' = mBufferOffset c + 2 * Z.of_nat (length dark)
      /\ mOutputQueue c' = mOutputQueue c ++ recs
      /\ map pws recs = repeat (repeat 0 30) (length dark).
Proof.
  induction dark as [|[odd even] dark IH]; intros c Hm Hs Ho Hn Hd.
  - exists c, []. cbn. rewrite app_nil_r. repeat split; try assumption. lia.
  - inversion Hd as [|? ? Hd1 Hd2]; subst. cbn [fst] in Hd1.
    cbn [length] in Hn. rewrite Nat2Z.inj_succ in Hn.
    destruct (sync_frame odd even c Hm Hs) as (c1 & E1 & M1 & Q1 & S1 & O1).
    assert (Hz : (mBufferOffset c =? 0) = false) by (apply Z.eqb_neq; lia).
    rewrite Hz in Q1, S1, O1. rewrite Hd1 in S1, O1.
    rewrite wrap32_small in O1 by lia.
    destruct (IH c1 M1 S1) as (c' & recs & E & M & S & O & Q & R); [lia|lia|exact Hd2|].
    exists c'. eexists (_ :: recs).
    split; [cbn [run_frames]; unfold bind; rewrite E1; exact E|].
    split; [exact M|]. split; [exact S|].
    split; [rewrite O, O1; cbn [length]; lia|].
    split; [rewrite Q, Q1, <- app_assoc; reflexivity|].
    cbn [map pws length repeat]. rewrite R. reflexivity.
Qed.

(** X12. The SYNC procedure as a whole. Started with mode SYNC, the flag
    clear and buffer offset 0, the first invocation sends the flash (pulse
    width 14000 on the 15 diodes of the odd field); every following
    invocation for which the test [((b + g) + r) / 3.f > 40.f] on the
    odd-field means fails sends a dark record and adds 2 to the offset;
    the first invocation for which it holds latches the flag and adds
    nothing. The offset measured is twice the number of invocations that
    precede the one that sees the flash. All this holds as long as that
    offset, 2 * (number of dark invocations) + 2, is below 2^32: the offset
    is an [unsigned int], and beyond that bound it wraps around to 0 and
    the flash is sent again. *)
Theorem X12_sync_measures_offset
    (c : LightController) (first seen : bgr * bgr) (dark : list (bgr * bgr)) :
  mMode c = SYNC -> mSynced c = false -> mBufferOffset c = 0 ->
  Forall (fun fr =>
            F32.gtb (F32.div (F32.add (F32.add (chn0 (fst fr)) (chn1 (fst fr)))
                                      (chn2 (fst fr)))
                             (F32.of_Z 3))
                    (F32.of_Z 40) = false) dark ->
  F32.gtb (F32.div (F32.add (F32.add (chn0 (fst seen)) (chn1 (fst seen)))
                            (chn2 (fst seen)))
                   (F32.of_Z 3))
          (F32.of_Z 40) = true ->
  2 * Z.of_nat (length dark) + 2 < 2 ^ 32 ->
  exists c' recs,
    run_frames (first :: dark ++ [seen]) c = Some (tt, c')
    /\ mMode c' = SYNC
    /\ mSynced c' = true
    /\ mBufferOffset c' = 2 * Z.of_nat (length dark) + 2
    /\ mOutputQueue c' = mOutputQueue c ++ recs
    /\ map pws recs =
         (repeat 14000 15 ++ repeat 0 15) :: repeat (repeat 0 30) (length dark + 1).
Proof.
  intros Hm Hs Ho Hd Hseen Hn. destruct first as [odd0 even0], seen as [odd1 even1].
  cbn [fst] in Hseen.
  change (sync_pulse_arrived odd1 = true) in Hseen.
  change (Forall (fun fr => sync_pulse_arrived (fst fr) = false) dark) in Hd.
  destruct (sync_frame odd0 even0 c Hm Hs) as (c1 & E1 & M1 & Q1 & S1 & O1).
  rewrite Ho in Q1, S1, O1. cbn [Z.eqb] in Q1, S1, O1.
  destruct (sync_dark_frames dark c1 M1 S1) as (c2 & recs & E2 & M2 & S2 & O2 & Q2 & R2);
    [lia|lia|exact Hd|].
  destruct (sync_frame odd1 even1 c2 M2 S2) as (c3 & E3 & M3 & Q3 & S3 & O3).
  assert (Hz : (mBufferOffset c2 =? 0) = false) by (apply Z.eqb_neq; lia).
  rewrite Hz in Q3, S3, O3. rewrite Hseen in S3, O3.
  exists c3. eexists (_ :: recs ++ [_]).
  split.
  { cbn [run_frames]. unfold bind at 1. rewrite E1.
    assert (R : forall fs gs c0 c0', run_frames fs c0 = Some (tt, c0') ->
                  run_frames (fs ++ gs) c0 = run_frames gs c0').
    { induction fs as [|[o e] fs IHf]; intros gs c0 c0' H; cbn [run_frames app] in *.
      - unfold ret in H. congruence.
      - unfold bind in *. destruct (IncrementPrgrm o e c0) as [[[] c4]|]; [|discriminate].
        apply IHf, H. }
    rewrite (R _ _ _ _ E2). cbn [run_frames]. unfold bind. rewrite E3. reflexivity. }
  split; [exact M3|]. split; [exact S3|]. split; [rewrite O3, O2, O1; lia|].
  split; [rewrite Q3, Q2, Q1, <- !app_assoc; reflexivity|].
  cbn [map pws]. f_equal. rewrite map_app, R2. cbn [map pws].
  rewrite repeat_app. reflexivity.
Qed.

Lemma X12_sync_measures_offset_witness :
  exists c',
    run_frames [(zero_means, zero_means); (zero_means, zero_means);
                (bright_means, zero_means)] sync_start_controller = Some (tt, c')
    /\ mSynced c' = true /\ mBufferOffset c' = 4.
Proof.
  destruct (X12_sync_measures_offset sync_start_controller
              (zero_means, zero_means) (bright_means, zero_means)
              [(zero_means, zero_means)])
    as (c' & recs & E & _ & S & O & _);
    [reflexivity | reflexivity | reflexivity
    | repeat constructor | vm_compute; reflexivity | cbn; lia |].
  exists c'. split; [exact E|]. split; [exact S|exact O].
Defined.

(** ** Records received from the light modulation controller *)

Lemma warmup_step_state pwrs c pw c1 :
  warmup_step pwrs c = Some (pw, c1) ->
  c1 = set_mPrgrmCount (wrap32 (mPrgrmCount c + 2)) c.
Proof.
  unfold warmup_step. unfold bind at 1.
  destruct (for_loop _ _ _ _ c) as [[pw' c2]|] eqn:El; [|discriminate].
  assert (c2 = c).
  { eapply for_loop_state; [|exact El]. intros n a c0 a' c0' Hb.
    unfold at_index, lift, bind, gets, ret, undefined in Hb.
    split_branches_in Hb. congruence. }
  subst c2. unfold bind, modify, ret. cbn. congruence.
Qed.

Lemma field_result_log_entries odd even f pwrs c pwrs' c' :
  field_result odd even f pwrs c = Some (pwrs', c') ->
  exists l, mLog c' = mLog c ++ l /\ Forall (fun r => inbound_entry r = false) l.
Proof.
  unfold field_result.
  destruct (Z.of_nat (length (mPrgrm c)) =? 0); [discriminate|].
  destruct (mBufferOffset c <=? mPrgrmCount c).
  - destruct (nth_error (mPrgrm c) _) as [step|]; [|discriminate].
    destruct (assign_powers _ _ _ _ _) as [pw|]; [|discriminate].
    intro H. injection H as <- <-. cbn [mLog]. eexists. split; [reflexivity|].
    repeat constructor.
  - destruct (assign_powers _ _ _ _ _) as [pw|]; [|discriminate].
    intro H. injection H as <- <-. cbn [mLog]. exists []. rewrite app_nil_r.
    split; [reflexivity|constructor].
Qed.

Lemma IncrementPrgrm_pwrs_log odd even c pwrs c1 :
  IncrementPrgrm_pwrs odd even c = Some (pwrs, c1) ->
  exists l, mLog c1 = mLog c ++ l /\ Forall (fun r => inbound_entry r = false) l.
Proof.
  intro E.
  destruct (MODE_eqb (mMode c) SYNC && negb (mSynced c)) eqn:Hs.
  - apply andb_true_iff in Hs. destruct Hs as [Hm Hsy].
    apply MODE_eqb_eq in Hm. apply negb_true_iff in Hsy.
    rewrite (IncrementPrgrm_pwrs_sync_eq odd even c Hm Hsy) in E.
    destruct (mBufferOffset c =? 0); [|destruct (sync_pulse_arrived odd)];
      injection E as <- <-; destruct c as [m p cnt off f qp qf qr sy oq iq rp lg];
      cbn [mLog set_mPrgrmCount set_mBufferOffset set_mLog set_mSynced];
      try (exists []; rewrite app_nil_r; split; [reflexivity|constructor]).
    eexists. split; [reflexivity|]. repeat constructor.
  - destruct (MODE_eqb (mMode c) WARMUP) eqn:Hw.
    + unfold IncrementPrgrm_pwrs in E. unfold bind at 1 2 in E. unfold gets in E.
      rewrite Hs, Hw in E. apply warmup_step_state in E. subst c1.
      exists []. rewrite app_nil_r. destruct c as [m p cnt off f qp qf qr sy oq iq rp lg].
      split; [reflexivity|constructor].
    + rewrite (IncrementPrgrm_pwrs_fields_eq odd even c Hs Hw) in E.
      destruct (field_result odd even 0 _ c) as [[p1 c2]|] eqn:E1; [|discriminate].
      destruct (field_result_log_entries _ _ _ _ _ _ _ E1) as (l1 & L1 & F1).
      destruct (field_result_log_entries _ _ _ _ _ _ _ E) as (l2 & L2 & F2).
      exists (l1 ++ l2). rewrite L2, L1, app_assoc. split; [reflexivity|].
      apply Forall_app. split; assumption.
Qed.

(** X13. Every invocation takes at most one record from the receive
    queue, its head. The invocation logs ERR exactly when that record
    carries the frame id FID_ERROR = -2, and logs the photodiode voltages
    of the record exactly when it carries any other frame id; a received
    error changes nothing else, the command of the frame is queued
    all the same. *)
Theorem X13_inbound_record (c c' : LightController) (odd even : bgr) :
  IncrementPrgrm odd even c = Some (tt, c') ->
  mInputQueue c' = tl (mInputQueue c)
  /\ exists entries,
      mLog c' = mLog c ++ entries
      /\ filter inbound_entry entries = inbound_log (hd_error (mInputQueue c))
      /\ (In LOG_ERR entries <->
          exists ientry, hd_error (mInputQueue c) = Some ientry
                         /\ in_fid ientry = FID_ERROR)
      /\ (forall frame volts,
             In (LOG_PDV frame volts) entries <->
             hd_error (mInputQueue c) = Some {| in_fid := frame; pdvs := volts |}
             /\ frame <> FID_ERROR).
Proof.
  intro E. rewrite IncrementPrgrm_eq in E.
  destruct (IncrementPrgrm_pwrs odd even c) as [[pwrs c1]|] eqn:E1; [|discriminate].
  injection E as <-.
  destruct (keeps_IncrementPrgrm_pwrs _ _ _ _ _ E1) as (_ & _ & _ & _ & KI).
  destruct (IncrementPrgrm_pwrs_log _ _ _ _ _ E1) as (l & L & Fl).
  unfold send_result. cbn [mInputQueue mLog]. rewrite KI. split; [reflexivity|].
  set (rot := if MODE_eqb (mMode c1) LSCI then _ else _).
  set (pw := LOG_PWS _ _).
  exists (l ++ rot ++ [pw] ++ inbound_log (hd_error (mInputQueue c))).
  rewrite L, <- !app_assoc. split; [reflexivity|].
  assert (Frot : Forall (fun r => inbound_entry r = false) rot)
    by (unfold rot; destruct (MODE_eqb (mMode c1) LSCI); repeat constructor).
  assert (Fil : forall l0, Forall (fun r => inbound_entry r = false) l0 ->
                           filter inbound_entry l0 = []).
  { induction l0 as [|r l0 IH]; intro Hf; [reflexivity|].
    inversion Hf; subst. cbn [filter]. rewrite H1. apply IH. assumption. }
  assert (Nin : forall l0 r, Forall (fun r => inbound_entry r = false) l0 ->
                             inbound_entry r = true -> ~ In r l0).
  { intros l0 r Hf Hr Hin. rewrite Forall_forall in Hf. apply Hf in Hin. congruence. }
  split.
  { rewrite !filter_app, (Fil l Fl), (Fil rot Frot). cbn [app filter pw inbound_entry].
    unfold inbound_log. destruct (hd_error (mInputQueue c)) as [e|]; [|reflexivity].
    destruct (in_fid e =? FID_ERROR); reflexivity. }
  split.
  - rewrite !in_app_iff. split.
    + intros [H | [H | [H | H]]].
      * exfalso. refine (Nin l _ Fl _ H). reflexivity.
      * exfalso. refine (Nin rot _ Frot _ H). reflexivity.
      * destruct H as [H|[]]. discriminate.
      * unfold inbound_log in H. destruct (hd_error (mInputQueue c)) as [e|]; [|destruct H].
        destruct (in_fid e =? FID_ERROR) eqn:Ee.
        -- exists e. split; [reflexivity|]. apply Z.eqb_eq, Ee.
        -- destruct H as [H|[]]. discriminate.
    + intros (e & He & Hf). right. right. right. rewrite He. cbn [inbound_log].
      rewrite Hf. cbn. auto.
  - intros frame volts. rewrite !in_app_iff. split.
    + intros [H | [H | [H | H]]].
      * exfalso. refine (Nin l _ Fl _ H). reflexivity.
      * exfalso. refine (Nin rot _ Frot _ H). reflexivity.
      * destruct H as [H|[]]. discriminate.
      * unfold inbound_log in H. destruct (hd_error (mInputQueue c)) as [e|]; [|destruct H].
        destruct (in_fid e =? FID_ERROR) eqn:Ee.
        -- destruct H as [H|[]]. discriminate.
        -- destruct H as [H|[]]. injection H as <- <-. destruct e. cbn.
           split; [reflexivity|]. apply Z.eqb_neq, Ee.
    + intros (He & Hf). right. right. right. rewrite He. cbn [inbound_log in_fid pdvs].
      apply Z.eqb_neq in Hf. rewrite Hf. cbn. auto.
Qed.

Lemma X13_inbound_record_witness :
  exists c' entries,
    IncrementPrgrm zero_means zero_means
      (set_mInputQueue [{| in_fid := FID_ERROR; pdvs := repeat 0 6 |}] synced_controller)
    = Some (tt, c')
    /\ mInputQueue c' = []
    /\ mLog c' = mLog synced_controller ++ entries
    /\ In LOG_ERR entries.
Proof.
  destruct (IncrementPrgrm_defined zero_means zero_means
              (set_mInputQueue [{| in_fid := FID_ERROR; pdvs := repeat 0 6 |}]
                 synced_controller)) as (c' & E).
  { apply (prgrm_ok_tables SYNC); [discriminate|reflexivity|reflexivity]. }
  destruct (X13_inbound_record _ _ _ _ E) as (Q & entries & L & _ & Herr & _).
  exists c', entries. split; [exact E|]. split; [exact Q|]. split; [exact L|].
  apply Herr. eexists. split; reflexivity.
Defined.

(** ** Fill levels of the autoexposure queues *)

Lemma try_dequeue_length {A} (q : list A) x :
  Z.of_nat (length (snd (try_dequeue q x))) = Z.max (Z.of_nat (length q) - 1) 0.
Proof. destruct q; cbn [try_dequeue snd length]; lia. Qed.

Lemma full_pass_count_nonneg size offset : 0 <= full_pass_count size offset.
Proof. unfold full_pass_count, wrap64. apply Z.mod_pos_bound. lia. Qed.

Lemma field_result_queues odd even f pwrs c pwrs' c' :
  field_result odd even f pwrs c = Some (pwrs', c') ->
  0 <= mBufferOffset c -> 0 <= mPrgrmCount c -> mPrgrmCount c + 1 < 2 ^ 32 ->
  queues_in_step c -> queues_in_step c'.
Proof.
  intros E Ho Hc Hn [IP IF].
  pose proof (full_pass_count_nonneg (Z.of_nat (length (mPrgrm c))) (mBufferOffset c)) as Hfp.
  unfold queues_in_step. revert E. unfold field_result.
  destruct (Z.of_nat (length (mPrgrm c)) =? 0); [discriminate|].
  set (fp := full_pass_count _ _) in *.
  destruct (mBufferOffset c <=? mPrgrmCount c) eqn:E1.
  - apply Z.leb_le in E1.
    destruct (nth_error (mPrgrm c) _) as [step|]; [|discriminate].
    destruct (assign_powers _ _ _ _ _) as [pw|]; [|discriminate].
    intro H. injection H as <- <-.
    cbn [mPwrBuffer mFrmBuffer mPrgrmCount mBufferOffset mPrgrm]. fold fp.
    rewrite wrap32_small by lia. rewrite length_app. cbn [length].
    pose proof (try_dequeue_length (mPwrBuffer c) F32.zero) as D1.
    split; [lia|].
    destruct (fp <=? mPrgrmCount c) eqn:E2.
    + apply Z.leb_le in E2.
      pose proof (try_dequeue_length
                    (mFrmBuffer c ++ [ClampPwr (UpdatePower
                       (select_intensity (snd step) match f with O => odd | _ => even end)
                       (fst (try_dequeue (mPwrBuffer c) F32.zero)))]) F32.zero) as D2.
      rewrite length_app in D2. cbn [length] in D2. lia.
    + apply Z.leb_gt in E2. cbn [snd]. rewrite length_app. cbn [length]. lia.
  - apply Z.leb_gt in E1.
    destruct (assign_powers _ _ _ _ _) as [pw|]; [|discriminate].
    intro H. injection H as <- <-.
    cbn [mPwrBuffer mFrmBuffer mPrgrmCount mBufferOffset mPrgrm]. fold fp.
    rewrite wrap32_small by lia. rewrite length_app. cbn [length].
    split; [lia|].
    destruct (fp <=? mPrgrmCount c) eqn:E2.
    + apply Z.leb_le in E2.
      pose proof (try_dequeue_length (mFrmBuffer c) F32.zero) as D2. lia.
    + apply Z.leb_gt in E2. cbn [snd]. lia.
Qed.

Lemma field_mode_guards mode :
  In mode [OFF; WLE; PSE; LSCI; SSFDI] ->
  mode <> MULTI /\ mode <> SYNC /\ MODE_eqb mode WARMUP = false
  /\ forall sy, MODE_eqb mode SYNC && negb sy = false.
Proof.
  intro H. cbn in H. decompose [or] H; subst; try contradiction;
    repeat split; try discriminate; intros []; reflexivity.
Qed.

Lemma run_frames_queues (frames : list (bgr * bgr)) :
  forall c,
    In (mMode c) [OFF; WLE; PSE; LSCI; SSFDI] ->
    mPrgrm c = table_of (mMode c) ->
    0 <= mBufferOffset c -> 0 <= mPrgrmCount c ->
    mPrgrmCount c + 2 * Z.of_nat (length frames) < 2 ^ 32 ->
    queues_in_step c ->
    exists c',
      run_frames frames c = Some (tt, c')
      /\ mMode c' = mMode c /\ mPrgrm c' = mPrgrm c
      /\ mBufferOffset c' = mBufferOffset c
      /\ mPrgrmCount c' = mPrgrmCount c + 2 * Z.of_nat (length frames)
      /\ queues_in_step c'.
Proof.
  induction frames as [|[odd even] frames IH]; intros c Hm Hp Ho Hc Hn Hq.
  - exists c. cbn. repeat split; try assumption; try apply Hq. lia.
  - cbn [length] in Hn. rewrite Nat2Z.inj_succ in Hn.
    destruct (field_mode_guards _ Hm) as (G1 & G2 & G3 & G4).
    destruct (IncrementPrgrm_defined odd even c) as (c1 & E).
    { apply (prgrm_ok_tables (mMode c)); [exact G1|reflexivity|exact Hp]. }
    pose proof E as E'. rewrite IncrementPrgrm_eq in E'.
    rewrite (IncrementPrgrm_pwrs_fields_eq odd even c (G4 _) G3) in E'.
    destruct (field_result odd even 0 _ c) as [[p1 c2]|] eqn:E1; [|discriminate].
    destruct (field_result odd even 1 p1 c2) as [[p2 c3]|] eqn:E2; [|discriminate].
    injection E' as E'.
    destruct (field_result_frame _ _ _ _ _ _ _ E1) as (M1 & P1 & C1 & O1 & _).
    destruct (field_result_frame _ _ _ _ _ _ _ E2) as (M2 & P2 & C2 & O2 & _).
    rewrite wrap32_small in C1 by lia.
    rewrite C1, wrap32_small in C2 by lia.
    pose proof (field_result_queues _ _ _ _ _ _ _ E1 Ho Hc ltac:(lia) Hq) as Q1.
    pose proof (field_result_queues _ _ _ _ _ _ _ E2 ltac:(lia) ltac:(lia) ltac:(lia) Q1)
      as Q2.
    assert (K : mMode c1 = mMode c /\ mPrgrm c1 = mPrgrm c
                /\ mBufferOffset c1 = mBufferOffset c
                /\ mPrgrmCount c1 = mPrgrmCount c + 2
                /\ queues_in_step c1).
    { subst c1. unfold queues_in_step, send_result. cbn.
      rewrite M2, M1, P2, P1, O2, O1, C2. repeat split; try lia.
      - destruct Q2 as [Q _]. rewrite C2, O2, O1 in Q. exact Q.
      - destruct Q2 as [_ Q]. rewrite C2, O2, O1, P2, P1 in Q. exact Q. }
    destruct K as (K1 & K2 & K3 & K4 & K5).
    destruct (IH c1) as (c' & R & R1 & R2 & R3 & R4 & R5);
      [rewrite K1; exact Hm | rewrite K1, K2; exact Hp | lia | lia | lia | exact K5 |].
    exists c'. split; [cbn [run_frames]; unfold bind; rewrite E; exact R|].
    cbn [length]. rewrite Nat2Z.inj_succ.
    split; [congruence|]. split; [congruence|]. split; [congruence|].
    split; [lia|exact R5].
Qed.

(** X14. The two autoexposure queues stay bounded, and in step with the
    program counter. After [SetMode] has entered one of OFF, WLE, PSE, LSCI,
    SSFDI and n frames have been played (2n < 2^32), the queue of emitted
    powers holds min(2n, max(offset, 1)) entries, and the queue of updated
    powers holds max(0, min(2n, P) - offset) entries, where offset is the
    buffer offset and P the full-pass count of the code,
    [size * (int)ceilf((float)offset / (float)size)]. *)
Theorem X14_queue_fill_levels
    (c : LightController) (mode : MODE) (frames : list (bgr * bgr)) :
  In mode [OFF; WLE; PSE; LSCI; SSFDI] ->
  SetMode_allowed mode c = true ->
  0 <= mBufferOffset c ->
  2 * Z.of_nat (length frames) < 2 ^ 32 ->
  exists c',
    (SetMode mode;; run_frames frames) c = Some (tt, c')
    /\ mPrgrmCount c' = 2 * Z.of_nat (length frames)
    /\ mBufferOffset c' = mBufferOffset c
    /\ Z.of_nat (length (mPwrBuffer c'))
       = Z.min (2 * Z.of_nat (length frames)) (Z.max (mBufferOffset c) 1)
    /\ Z.of_nat (length (mFrmBuffer c'))
       = Z.max 0 (Z.min (2 * Z.of_nat (length frames))
                        (full_pass_count (Z.of_nat (length (table_of mode)))
                                         (mBufferOffset c))
                  - mBufferOffset c).
Proof.
  intros Hm Ha Ho Hn. unfold bind at 1. rewrite SetMode_eq, Ha.
  assert (Hsync : MODE_eqb mode SYNC = false)
    by (cbn in Hm; decompose [or] Hm; subst; try contradiction; reflexivity).
  assert (Hp : mPrgrm (SetMode_result mode c) = table_of mode).
  { unfold SetMode_result. cbn [mPrgrm]. rewrite Hsync.
    cbn in Hm; decompose [or] Hm; subst; try contradiction; reflexivity. }
  assert (Hoff : mBufferOffset (SetMode_result mode c) = mBufferOffset c)
    by (unfold SetMode_result; cbn [mBufferOffset]; rewrite Hsync; reflexivity).
  destruct (run_frames_queues frames (SetMode_result mode c))
    as (c' & R & R1 & R2 & R3 & R4 & R5 & R6).
  - exact Hm.
  - exact Hp.
  - rewrite Hoff. exact Ho.
  - cbn. lia.
  - cbn [SetMode_result mPrgrmCount]. lia.
  - unfold queues_in_step, SetMode_result. cbn. rewrite Hsync. cbn [length].
    pose proof (full_pass_count_nonneg
                  (Z.of_nat (length (prgrm_of_mode mode (mPrgrm c)))) (mBufferOffset c)).
    change (Z.of_nat 0) with 0. lia.
  - exists c'. split; [exact R|].
    rewrite R3 in *. rewrite R2, Hp, Hoff in *.
    cbn [SetMode_result mPrgrmCount] in R4. rewrite R4 in *.
    repeat split; assumption.
Qed.

Lemma X14_queue_fill_levels_witness :
  exists c',
    (SetMode PSE;; run_frames [(bright_means, bright_means); (bright_means, bright_means);
                               (bright_means, bright_means)]) synced_controller
    = Some (tt, c')
    /\ length (mPwrBuffer c') = 2%nat
    /\ length (mFrmBuffer c') = 1%nat.
Proof.
  destruct (X14_queue_fill_levels synced_controller PSE
              [(bright_means, bright_means); (bright_means, bright_means);
               (bright_means, bright_means)])
    as (c' & E & _ & _ & HP & HF);
    [cbn; auto | reflexivity | cbn; lia | cbn; lia |].
  exists c'. split; [exact E|].
  change (mBufferOffset synced_controller) with 2 in HP, HF.
  change (full_pass_count (Z.of_nat (length (table_of PSE))) 2) with 3 in HF.
  cbn in HP, HF. split; lia.
Defined.

(** ** Limits kept along every run *)













Lemma installed_prgrm_ok c : installed c -> prgrm_ok c.
Proof.
  intros [Hp Hm]. apply (prgrm_ok_tables (mMode c)); [exact Hm|reflexivity|exact Hp].
Qed.

Lemma run_call_installed k c :
  installed c -> not_multi k = true ->
  exists c', run_call k c = Some (tt, c') /\ installed c'.
Proof.
  intros Hi Hk. destruct k as [mode|odd even]; cbn [run_call not_multi] in *.
  - rewrite SetMode_eq. eexists. split; [reflexivity|].
    destruct (SetMode_allowed mode c); [|exact Hi].
    unfold installed, SetMode_result. cbn [mPrgrm mMode]. split.
    + destruct mode; reflexivity.
    + intros ->. discriminate.
  - destruct (IncrementPrgrm_defined odd even c (installed_prgrm_ok c Hi)) as (c' & E).
    exists c'. split; [exact E|].
    destruct (IncrementPrgrm_record _ _ _ _ E) as (_ & _ & _ & _ & _ & _ & M & P & _).
    unfold installed. rewrite M, P. exact Hi.
Qed.

Lemma installed_length c :
  installed c -> (1 <= length (mPrgrm c) <= 3)%nat.
Proof.
  intros [Hp Hm]. rewrite Hp. destruct (mMode c); try congruence; cbn; lia.
Qed.

(** X15. The installed program is always the table of the current mode
    (SYNC plays the OFF table): this holds when the constructor returns and
    is kept by every call of [SetMode] and [IncrementPrgrm]. As long as
    MULTI is never requested, every sequence of calls is therefore
    defined, with no read past the end of a vector and no remainder by
    zero, and [GetPrgrmLength] is 1, 2 or 3. *)
Theorem X15_calls_defined_without_MULTI (calls : list call) (c : LightController) :
  installed c ->
  forallb not_multi calls = true ->
  exists c',
    run_calls calls c = Some (tt, c')
    /\ installed c'
    /\ exists n, GetPrgrmLength c' = Some (n, c') /\ 1 <= n <= 3.
Proof.
  revert c. induction calls as [|k calls IH]; intros c Hi Hk.
  - exists c. split; [reflexivity|]. split; [exact Hi|].
    eexists. split; [reflexivity|]. cbv beta.
    pose proof (installed_length c Hi). rewrite wrap32_small; lia.
  - cbn [forallb] in Hk. apply andb_true_iff in Hk. destruct Hk as [Hk Hr].
    destruct (run_call_installed k c Hi Hk) as (c1 & E1 & I1).
    destruct (IH c1 I1 Hr) as (c' & E & I & G).
    exists c'. split; [cbn [run_calls]; unfold bind; rewrite E1; exact E|].
    split; assumption.
Qed.

Lemma X15_calls_defined_without_MULTI_witness :
  installed initial_controller
  /\ exists c',
      run_calls [CallIncrementPrgrm zero_means zero_means; CallSetMode SYNC;
                 CallIncrementPrgrm zero_means zero_means;
                 CallIncrementPrgrm bright_means zero_means; CallSetMode PSE;
                 CallIncrementPrgrm bright_means bright_means] initial_controller
      = Some (tt, c')
      /\ installed c'.
Proof.
  assert (H : installed initial_controller) by (split; [reflexivity|discriminate]).
  split; [exact H|].
  destruct (X15_calls_defined_without_MULTI
              [CallIncrementPrgrm zero_means zero_means; CallSetMode SYNC;
               CallIncrementPrgrm zero_means zero_means;
               CallIncrementPrgrm bright_means zero_means; CallSetMode PSE;
               CallIncrementPrgrm bright_means bright_means] initial_controller H eq_refl)
    as (c' & E & I & _).
  exists c'. split; assumption.
Defined.



(** ** NaN, and the full-pass count *)

Lemma full_pass_exact_table :
  forallb (fun size => forallb (full_pass_exact size) (seq 0 1024)) (seq 1 8) = true.
Proof. vm_compute. reflexivity. Qed.

Lemma mul_nan_r x : SFmul 24 128 x S754_nan = S754_nan.
Proof. destruct x; reflexivity. Qed.

Lemma sub_nan_r x : SFsub 24 128 x S754_nan = S754_nan.
Proof. destruct x; reflexivity. Qed.


(** X17. Neither the cap of [UpdatePower] nor [ClampPwr] repairs a NaN:
    when the observed mean or the prior power is a NaN, the comparisons
    [newPwr > 0.999f], [pwr < PWR_MIN] and [pwr > PWR_MAX] are all false and
    the clamped update is a NaN again. *)
Theorem X17_NaN_passes_through (prevIntensity prevPwr : F32.float) :
  prevIntensity = S754_nan \/ prevPwr = S754_nan ->
  UpdatePower prevIntensity prevPwr = S754_nan
  /\ ClampPwr (UpdatePower prevIntensity prevPwr) = S754_nan.
Proof.
  intro H.
  assert (E : UpdatePower prevIntensity prevPwr = S754_nan).
  { unfold UpdatePower, UpdatePower_num.
    unfold F32.mul, F32.sub, F32.div. change F32.prec with 24. change F32.emax with 128.
    assert (N : SFmul 24 128 (SFmul 24 128 (SFsub 24 128 yFixed prevIntensity) prevPwr)
                  PWR_MAX = S754_nan).
    { destruct H as [-> | ->].
      - rewrite sub_nan_r. reflexivity.
      - rewrite mul_nan_r. reflexivity. }
    rewrite N. reflexivity. }
  rewrite E. split; reflexivity.
Qed.

Lemma X17_NaN_passes_through_witness :
  ClampPwr (UpdatePower S754_nan PWR_START) = S754_nan.
Proof.
  exact (proj2 (X17_NaN_passes_through S754_nan PWR_START (or_introl eq_refl))).
Defined.

(** X18. The full-pass count
    [mPrgrm.size() * (int)ceilf((float)mBufferOffset / (float)mPrgrm.size())],
    computed through a binary32 division, is the least multiple of the
    program length that is not below the buffer offset, for every program
    length from 1 to 8 and every buffer offset below 1024: it is a multiple
    of the length, at least the offset and less than offset + length. *)
Theorem X18_full_pass_count_least_multiple (size offset : Z) :
  1 <= size <= 8 -> 0 <= offset < 1024 ->
  full_pass_count size offset = least_multiple size offset
  /\ full_pass_count size offset mod size = 0
  /\ offset <= full_pass_count size offset < offset + size.
Proof.
  intros Hs Ho.
  assert (E : full_pass_count size offset = least_multiple size offset).
  { pose proof full_pass_exact_table as T. rewrite forallb_forall in T.
    specialize (T (Z.to_nat size)). rewrite in_seq in T. specialize (T ltac:(lia)).
    rewrite forallb_forall in T.
    specialize (T (Z.to_nat offset)). rewrite in_seq in T. specialize (T ltac:(lia)).
    unfold full_pass_exact in T. rewrite !Z2Nat.id in T by lia.
    apply Z.eqb_eq, T. }
  rewrite E. unfold least_multiple. split; [reflexivity|]. split.
  - rewrite Z.mul_comm. apply Z.mod_mul. lia.
  - pose proof (Z.div_mod (offset + size - 1) size ltac:(lia)) as D.
    pose proof (Z.mod_pos_bound (offset + size - 1) size ltac:(lia)) as B. lia.
Qed.

Lemma X18_full_pass_count_least_multiple_witness :
  1 <= 3 <= 8 /\ 0 <= 2 < 1024 /\ full_pass_count 3 2 = 3.
Proof.
  assert (H1 : 1 <= 3 <= 8) by lia. assert (H2 : 0 <= 2 < 1024) by lia.
  split; [exact H1|]. split; [exact H2|].
  exact (proj1 (X18_full_pass_count_least_multiple 3 2 H1 H2)).
Defined.

(** ** Logger: the time stamp *)

Lemma padded3_length :
  forallb (fun n => (Strings.String.length (Logger.padded 3 (Z.of_nat n)) =? 3)%nat)
          (seq 0 1000) = true.
Proof. vm_compute. reflexivity. Qed.

Lemma padded2_length :
  forallb (fun n => (Strings.String.length (Logger.padded 2 (Z.of_nat n)) =? 2)%nat)
          (seq 0 60) = true.
Proof. vm_compute. reflexivity. Qed.

Lemma padded_length_3 n :
  0 <= n < 1000 -> Strings.String.length (Logger.padded 3 n) = 3%nat.
Proof.
  intro H. pose proof padded3_length as T. rewrite forallb_forall in T.
  specialize (T (Z.to_nat n)). rewrite in_seq in T. specialize (T ltac:(lia)).
  rewrite Z2Nat.id in T by lia. apply Nat.eqb_eq, T.
Qed.

Lemma padded_length_2 n :
  0 <= n < 60 -> Strings.String.length (Logger.padded 2 n) = 2%nat.
Proof.
  intro H. pose proof padded2_length as T. rewrite forallb_forall in T.
  specialize (T (Z.to_nat n)). rewrite in_seq in T. specialize (T ltac:(lia)).
  rewrite Z2Nat.id in T by lia. apply Nat.eqb_eq, T.
Qed.

Lemma stamp_fields_range msInt :
  0 <= msInt ->
  0 <= Logger.mins msInt < 60 /\ 0 <= Logger.secs msInt < 60
  /\ 0 <= Logger.mils msInt < 1000.
Proof.
  intro H. unfold Logger.mins, Logger.secs, Logger.mils.
  change (1000 * 60) with 60000.
  rewrite (Z.quot_div_nonneg msInt 60000), (Z.quot_div_nonneg msInt 1000) by lia.
  rewrite !Z.rem_mod_nonneg by (try lia; apply Z.div_pos; lia).
  pose proof (Z.mod_pos_bound (msInt / 60000) 60 ltac:(lia)).
  pose proof (Z.mod_pos_bound (msInt / 1000) 60 ltac:(lia)).
  pose proof (Z.mod_pos_bound msInt 1000 ltac:(lia)). lia.
Qed.

Lemma string_length_append (a b : Strings.String.string) :
  Strings.String.length (Strings.String.append a b)
  = (Strings.String.length a + Strings.String.length b)%nat.
Proof. induction a as [|x a IH]; cbn; [reflexivity|]. rewrite IH. reflexivity. Qed.

Lemma substring_whole (s : Strings.String.string) :
  Strings.String.substring 0 (Strings.String.length s) s = s.
Proof. induction s as [|x s IH]; cbn; [reflexivity|]. rewrite IH. reflexivity. Qed.

Lemma substring_all (s : Strings.String.string) n :
  Strings.String.length s = n -> Strings.String.substring 0 n s = s.
Proof. intros <-. apply substring_whole. Qed.

(** X19. For every elapsed time that is not negative, the three fields of
    the time stamp are in range (minutes below 60, seconds below 60,
    milliseconds below 1000), the formatted text [[mmm:ss:mmm]] has exactly
    12 characters, so that [snprintf] with size 13 never truncates it, and
    the string returned has length 13: the text followed by the NUL
    character that [resize(13)] leaves at its end. *)
Theorem X19_time_stamp_fits (msInt : Z) :
  0 <= msInt ->
  0 <= Logger.mins msInt < 60
  /\ 0 <= Logger.secs msInt < 60
  /\ 0 <= Logger.mils msInt < 1000
  /\ Strings.String.length (Logger.stamp_text msInt) = 12%nat
  /\ Logger.CurrentExecutionTime msInt
     = Strings.String.append (Logger.stamp_text msInt)
         (Strings.String.String Strings.Ascii.zero Strings.String.EmptyString)
  /\ Strings.String.length (Logger.CurrentExecutionTime msInt) = 13%nat.
Proof.
  intro H. destruct (stamp_fields_range msInt H) as (Hm & Hs & Hl).
  assert (L : Strings.String.length (Logger.stamp_text msInt) = 12%nat).
  { unfold Logger.stamp_text. rewrite !string_length_append.
    rewrite (padded_length_3 (Logger.mins msInt) ltac:(lia)), (padded_length_2 _ Hs),
      (padded_length_3 _ Hl).
    reflexivity. }
  assert (E : Logger.CurrentExecutionTime msInt
              = Strings.String.append (Logger.stamp_text msInt)
                  (Strings.String.String Strings.Ascii.zero Strings.String.EmptyString)).
  { unfold Logger.CurrentExecutionTime. cbv zeta.
    rewrite (substring_all _ _ L), L. reflexivity. }
  repeat split; try lia; try assumption.
  rewrite E, string_length_append, L. reflexivity.
Qed.

Lemma X19_time_stamp_fits_witness :
  0 <= 754321
  /\ Logger.mins 754321 = 12 /\ Logger.secs 754321 = 34 /\ Logger.mils 754321 = 321
  /\ Strings.String.length (Logger.CurrentExecutionTime 754321) = 13%nat.
Proof.
  assert (H : 0 <= 754321) by lia.
  split; [exact H|]. split; [reflexivity|]. split; [reflexivity|]. split; [reflexivity|].
  exact (proj2 (proj2 (proj2 (proj2 (proj2 (X19_time_stamp_fits 754321 H)))))).
Defined.

(** X20. The time stamp repeats every hour. Within the first hour the
    elapsed time is recovered from the three fields; an elapsed time of one
    hour or more carries the stamp of the time one hour earlier, so the
    log lines of a session longer than an hour are not ordered by their
    stamps. *)
Theorem X20_time_stamp_wraps_hourly (msInt : Z) :
  0 <= msInt ->
  (msInt < 3600000 ->
   Logger.mins msInt * 60000 + Logger.secs msInt * 1000 + Logger.mils msInt = msInt)
  /\ Logger.mins (msInt + 3600000) = Logger.mins msInt
  /\ Logger.secs (msInt + 3600000) = Logger.secs msInt
  /\ Logger.mils (msInt + 3600000) = Logger.mils msInt
  /\ Logger.CurrentExecutionTime (msInt + 3600000) = Logger.CurrentExecutionTime msInt.
Proof.
  intro H.
  assert (F : Logger.mins (msInt + 3600000) = Logger.mins msInt
              /\ Logger.secs (msInt + 3600000) = Logger.secs msInt
              /\ Logger.mils (msInt + 3600000) = Logger.mils msInt).
  { unfold Logger.mins, Logger.secs, Logger.mils. change (1000 * 60) with 60000.
    rewrite !Z.quot_div_nonneg by lia.
    rewrite !Z.rem_mod_nonneg by (try lia; apply Z.div_pos; lia).
    replace (msInt + 3600000) with (msInt + 60 * 60000) at 1 by lia.
    rewrite Z.div_add by lia.
    replace (msInt + 3600000) with (msInt + 3600 * 1000) at 1 by lia.
    rewrite Z.div_add by lia.
    replace (msInt + 3600000) with (msInt + 3600 * 1000) by lia.
    replace (msInt / 60000 + 60) with (msInt / 60000 + 1 * 60) by lia.
    replace (msInt / 1000 + 3600) with (msInt / 1000 + 60 * 60) by lia.
    rewrite !Z.mod_add by lia. repeat split. }
  destruct F as (F1 & F2 & F3).
  split.
  - intro Hlt. unfold Logger.mins, Logger.secs, Logger.mils. change (1000 * 60) with 60000.
    rewrite !Z.quot_div_nonneg by lia.
    rewrite !Z.rem_mod_nonneg by (try lia; apply Z.div_pos; lia).
    assert (msInt / 60000 < 60) by (apply Z.div_lt_upper_bound; lia).
    rewrite (Z.mod_small (msInt / 60000) 60)
      by (split; [apply Z.div_pos; lia|assumption]).
    pose proof (Z.div_mod msInt 1000 ltac:(lia)) as D1.
    pose proof (Z.div_mod (msInt / 1000) 60 ltac:(lia)) as D2.
    assert (D3 : msInt / 1000 / 60 = msInt / 60000) by (rewrite Z.div_div by lia; reflexivity).
    lia.
  - split; [exact F1|]. split; [exact F2|]. split; [exact F3|].
    unfold Logger.CurrentExecutionTime, Logger.stamp_text. rewrite F1, F2, F3. reflexivity.
Qed.

Lemma X20_time_stamp_wraps_hourly_witness :
  0 <= 754321
  /\ Logger.CurrentExecutionTime (754321 + 3600000) = Logger.CurrentExecutionTime 754321.
Proof.
  assert (H : 0 <= 754321) by lia. split; [exact H|].
  exact (proj2 (proj2 (proj2 (proj2 (X20_time_stamp_wraps_hourly 754321 H))))).
Defined.

(** ** MatroxCaptureCard: frames per video *)

Lemma div_succ_rollover (k f : Z) :
  0 < f -> 0 <= k ->
  (k + 1) / f = if (k + 1) mod f =? 0 then k / f + 1 else k / f.
Proof.
  intros Hf Hk.
  pose proof (Z.div_mod k f ltac:(lia)) as D.
  pose proof (Z.mod_pos_bound k f Hf) as B.
  destruct ((k + 1) mod f =? 0) eqn:E.
  - apply Z.eqb_eq in E. apply Z.mod_divide in E; [|lia]. destruct E as [q Hq].
    rewrite Hq. rewrite Z.div_mul by lia.
    assert (k / f = q - 1); [|lia].
    symmetry. apply (Z.div_unique k f (q - 1) (f - 1)); [lia|nia].
  - apply Z.eqb_neq in E.
    symmetry. apply (Z.div_unique (k + 1) f (k / f) (k mod f + 1)); [|lia].
    assert (k mod f + 1 <> f); [|lia].
    intro Heq. apply E. replace (k + 1) with ((k / f + 1) * f) by nia.
    apply Z.mod_mul. lia.
Qed.

Lemma seq_snoc_Z (n : nat) : seq 0 (S n) = seq 0 n ++ [n].
Proof. rewrite seq_S. reflexivity. Qed.

Lemma archive_invariant (fpv : Z) (n : nat) :
  0 < fpv -> Z.of_nat n < 2 ^ 32 ->
  forall s0, Matrox.new fpv = Some s0 ->
  exists s,
    Matrox.ArchiveFrames n s0 = Some s
    /\ Matrox.mFramesPerVideo s = fpv
    /\ Matrox.mNoArchivedFrames s = Z.of_nat n
    /\ Matrox.mCurrentVideo s = Z.of_nat n / fpv
    /\ Matrox.written (Matrox.exports s) = map (fun k => Z.of_nat k / fpv) (seq 0 n)
    /\ Matrox.opened (Matrox.exports s)
       = map Z.of_nat (seq 0 (S (Z.to_nat (Z.of_nat n / fpv))))
    /\ Matrox.closed (Matrox.exports s)
       = map Z.of_nat (seq 0 (Z.to_nat (Z.of_nat n / fpv))).
Proof.
  intros Hf Hn s0 H0. unfold Matrox.new, Matrox.OpenVideo in H0. cbn in H0.
  destruct (fpv =? 0) eqn:E0; [apply Z.eqb_eq in E0; lia|].
  injection H0 as <-.
  induction n as [|n IH].
  - eexists. split; [reflexivity|]. cbn. repeat split.
  - rewrite Nat2Z.inj_succ in Hn. destruct (IH ltac:(lia)) as (s & E & F & C & V & W & O & K).
    cbn [Matrox.ArchiveFrames]. rewrite E. unfold Matrox.ArchiveFrame.
    cbn [Matrox.mFramesPerVideo Matrox.mNoArchivedFrames Matrox.mCurrentVideo Matrox.exports].
    rewrite F, C, V, E0. rewrite wrap32_small by lia.
    rewrite !Nat2Z.inj_succ. unfold Z.succ.
    pose proof (div_succ_rollover (Z.of_nat n) fpv Hf ltac:(lia)) as R.
    assert (Hq : 0 <= Z.of_nat n / fpv) by (apply Z.div_pos; lia).
    unfold Matrox.written, Matrox.opened, Matrox.closed in *.
    destruct ((Z.of_nat n + 1) mod fpv =? 0).
    + unfold Matrox.OpenVideo, Matrox.CloseVideo.
      cbn [Matrox.mFramesPerVideo Matrox.mNoArchivedFrames Matrox.mCurrentVideo
           Matrox.exports].
      rewrite E0. eexists. split; [reflexivity|].
      cbn [Matrox.mFramesPerVideo Matrox.mNoArchivedFrames Matrox.mCurrentVideo
           Matrox.exports].
      rewrite !flat_map_app, W, O, K. cbn [flat_map app]. rewrite !app_nil_r, R.
      replace (Z.to_nat (Z.of_nat n / fpv + 1)) with (S (Z.to_nat (Z.of_nat n / fpv))) by lia.
      split; [reflexivity|]. split; [reflexivity|]. split; [reflexivity|].
      split; [rewrite (seq_snoc_Z n), map_app; reflexivity|].
      split.
      * rewrite (seq_snoc_Z (S _)), map_app. cbn [map]. f_equal. f_equal.
        rewrite Nat2Z.inj_succ, Z2Nat.id by lia. lia.
      * rewrite (seq_snoc_Z (Z.to_nat _)), map_app. cbn [map]. f_equal. f_equal.
        rewrite Z2Nat.id by lia. reflexivity.
    + eexists. split; [reflexivity|].
      cbn [Matrox.mFramesPerVideo Matrox.mNoArchivedFrames Matrox.mCurrentVideo
           Matrox.exports].
      rewrite !flat_map_app, W, O, K. cbn [flat_map app]. rewrite !app_nil_r, R.
      split; [reflexivity|]. split; [reflexivity|]. split; [reflexivity|].
      split; [rewrite (seq_snoc_Z n), map_app; reflexivity|].
      split; reflexivity.
Qed.

(** X21. Frames are archived into videos of [mFramesPerVideo] frames each.
    With a positive number of frames per video and n < 2^32 (the frame
    counter is an [unsigned int] and wraps around to 0 at 2^32, where
    video 0 is opened again), the constructor followed by n calls of
    [ArchiveFrame] is defined; the k-th frame (from 0) is written to video number k / mFramesPerVideo; the videos
    opened are 0, 1, ..., n / mFramesPerVideo in this order, all of them
    but the last are closed, and the last one is the current video. *)
Theorem X21_frames_per_video (fpv : Z) (n : nat) :
  0 < fpv -> Z.of_nat n < 2 ^ 32 ->
  exists s0 s,
    Matrox.new fpv = Some s0
    /\ Matrox.ArchiveFrames n s0 = Some s
    /\ Matrox.mNoArchivedFrames s = Z.of_nat n
    /\ Matrox.mCurrentVideo s = Z.of_nat n / fpv
    /\ Matrox.written (Matrox.exports s) = map (fun k => Z.of_nat k / fpv) (seq 0 n)
    /\ Matrox.opened (Matrox.exports s)
       = map Z.of_nat (seq 0 (S (Z.to_nat (Z.of_nat n / fpv))))
    /\ Matrox.closed (Matrox.exports s)
       = map Z.of_nat (seq 0 (Z.to_nat (Z.of_nat n / fpv))).
Proof.
  intros Hf Hn.
  assert (H0 : exists s0, Matrox.new fpv = Some s0).
  { unfold Matrox.new, Matrox.OpenVideo. cbn.
    destruct (fpv =? 0) eqn:E0; [apply Z.eqb_eq in E0; lia|]. eexists. reflexivity. }
  destruct H0 as [s0 H0].
  destruct (archive_invariant fpv n Hf Hn s0 H0) as (s & E & _ & C & V & W & O & K).
  exists s0, s. repeat split; assumption.
Qed.

Lemma X21_frames_per_video_witness :
  exists s0 s,
    Matrox.new 2 = Some s0
    /\ Matrox.ArchiveFrames 5 s0 = Some s
    /\ Matrox.exports s
       = [Matrox.OPEN 0; Matrox.WRITE 0; Matrox.WRITE 0; Matrox.CLOSE 0;
          Matrox.OPEN 1; Matrox.WRITE 1; Matrox.WRITE 1; Matrox.CLOSE 1;
          Matrox.OPEN 2; Matrox.WRITE 2]
    /\ Matrox.written (Matrox.exports s) = [0; 0; 1; 1; 2].
Proof.
  destruct (X21_frames_per_video 2 5 ltac:(lia) ltac:(cbn; lia))
    as (s0 & s & E0 & E & _ & _ & W & _).
  exists s0, s. split; [exact E0|]. split; [exact E|].
  cbn in E0. injection E0 as <-. cbn in E. injection E as <-.
  split; reflexivity.
Defined.

